(** * ShabadOS Database: the JSON compiler and the ranked line search

    A shallow embedding of [lib/build-json.js] (the compilation of the
    relational corpus into JSON artifacts) and of the query builder of
    [lib/models/Lines.js] (the ranked substring search), with the properties
    the specification states about them.

    Conventions.  JavaScript strings are Rocq strings, read as the UTF-8
    bytes of the text, so that a character is outside ASCII exactly when one
    of its bytes is above 127.  JavaScript objects are association lists in
    the order in which the engine enumerates their own properties.  Code
    that can throw returns a sum, [inl] carrying the error thrown.  What the
    database engine, the JSON parser and the npm packages do is outside the
    repository: it is either a parameter of a section or a model that says
    so. *)

From Stdlib Require Import List String Ascii ZArith NArith Bool Lia.
From Stdlib Require Import Permutation Sorted SetoidPermutation.
Import ListNotations.

Open Scope string_scope.

Set Warnings "-register-all".

(* ================================================================== *)
(** ** JavaScript values *)
(* ================================================================== *)

Module JS.

(** The values that flow through the program.  Numbers are the integers the
    program handles (keys, sequence numbers, pages); a JSON number that is
    not an integer literal is kept by its lexeme.  [PromiseOf] is a settled
    promise, which the program uses as a value in one place. *)
Inductive Value : Type :=
| Undefined
| Null
| Bool (b : bool)
| Num (z : Z)
| NumLit (lexeme : string)
| Str (s : string)
| Arr (items : list Value)
| Obj (props : list (string * Value))
| PromiseOf (v : Value).

Definition Object := list (string * Value).

(** Errors the engine throws.  A [SyntaxError] of [JSON.parse] is made by
    the parser from the text it was given and from nothing else; the text is
    what the constructor keeps. *)
Inductive Error : Type :=
| SyntaxError (text : string)
| TypeError (reading : string).

Definition Result (A : Type) : Type := (Error + A)%type.

Definition ret {A} (a : A) : Result A := inr a.
Definition throw {A} (e : Error) : Result A := inl e.
Definition bind {A B} (m : Result A) (k : A -> Result B) : Result B :=
  match m with
  | inl e => inl e
  | inr a => k a
  end.

(** [mapM f l]: the callbacks run in array order, the first throw ends the
    loop. *)
Fixpoint mapM {A B} (f : A -> Result B) (l : list A) : Result (list B) :=
  match l with
  | [] => ret []
  | a :: l' => bind (f a) (fun b => bind (mapM f l') (fun bs => ret (b :: bs)))
  end.

(** [foldM f l acc]: [Array.prototype.reduce] with a callback that can
    throw. *)
Fixpoint foldM {A B} (f : B -> A -> Result B) (l : list A) (acc : B) : Result B :=
  match l with
  | [] => ret acc
  | a :: l' => bind (f acc a) (foldM f l')
  end.

(** ToBoolean. *)
Definition truthy (v : Value) : bool :=
  match v with
  | Undefined | Null => false
  | Bool b => b
  | Num z => negb (z =? 0)%Z
  | NumLit _ => true
  | Str s => negb (s =? "")
  | Arr _ | Obj _ | PromiseOf _ => true
  end.

(** [a && b] and [a || b] on values. *)
Definition and_ (a b : Value) : Value := if truthy a then b else a.
Definition or_ (a b : Value) : Value := if truthy a then a else b.

(** A parameter default, [(x = d) => ...]: it applies when the argument is
    [undefined], whether omitted or passed. *)
Definition default (d v : Value) : Value :=
  match v with
  | Undefined => d
  | _ => v
  end.

(** *** Decimal rendering of numbers *)

Definition digitChar (d : N) : ascii := ascii_of_N (48 + d).

Fixpoint digits (fuel : nat) (n : N) (acc : string) : string :=
  match fuel with
  | O => acc
  | S fuel' =>
      let acc' := String (digitChar (n mod 10)) acc in
      if (n <? 10)%N then acc' else digits fuel' (n / 10) acc'
  end.

(** [String(n)] for a natural number. *)
Definition N_toString (n : N) : string := digits (S (N.size_nat n)) n "".

(** [String(z)] for an integer. *)
Definition Z_toString (z : Z) : string :=
  match z with
  | Zneg p => "-" ++ N_toString (Npos p)
  | _ => N_toString (Z.to_N z)
  end.

(** *** Reading a decimal numeral *)

Definition digitValue (c : ascii) : option N :=
  let n := N_of_ascii c in
  if (48 <=? n)%N && (n <=? 57)%N then Some (n - 48)%N else None.

Fixpoint numeral_from (acc : N) (s : string) : option N :=
  match s with
  | "" => Some acc
  | String c s' =>
      match digitValue c with
      | Some d => numeral_from (10 * acc + d) s'
      | None => None
      end
  end.

(** An unsigned integer literal. *)
Definition numeral (s : string) : option N :=
  match s with
  | "" => None
  | _ => numeral_from 0 s
  end.

(** *** JSON.parse

    A model of the engine's parser, on the grammar of ECMA-404: objects,
    arrays, strings with their escapes, numbers, [true], [false], [null],
    blanks between tokens.  An escape [\uXXXX] gives the UTF-8 bytes of
    that one code unit. *)

Definition quote : ascii := ascii_of_nat 34.

Definition is_blank (c : ascii) : bool :=
  let n := N_of_ascii c in
  (n =? 32)%N || (n =? 9)%N || (n =? 10)%N || (n =? 13)%N.

Fixpoint skip_blanks (s : string) : string :=
  match s with
  | String c s' => if is_blank c then skip_blanks s' else s
  | "" => ""
  end.

Definition hexValue (c : ascii) : option N :=
  let n := N_of_ascii c in
  if (48 <=? n)%N && (n <=? 57)%N then Some (n - 48)%N
  else if (65 <=? n)%N && (n <=? 70)%N then Some (n - 55)%N
  else if (97 <=? n)%N && (n <=? 102)%N then Some (n - 87)%N
  else None.

Definition utf8 (u : N) : string :=
  if (u <? 128)%N then String (ascii_of_N u) ""
  else if (u <? 2048)%N then
    String (ascii_of_N (192 + u / 64)) (String (ascii_of_N (128 + u mod 64)) "")
  else
    String (ascii_of_N (224 + u / 4096))
      (String (ascii_of_N (128 + (u / 64) mod 64))
         (String (ascii_of_N (128 + u mod 64)) "")).

(** The characters of a string literal after its opening quote, up to the
    closing one. *)
Fixpoint string_body (s : string) (acc : string) : option (string * string) :=
  match s with
  | "" => None
  | String c s' =>
      if Ascii.eqb c quote then Some (acc, s')
      else if Ascii.eqb c "\" then
        match s' with
        | "" => None
        | String e s'' =>
            if Ascii.eqb e "u" then
              match s'' with
              | String h1 (String h2 (String h3 (String h4 s4))) =>
                  match hexValue h1, hexValue h2, hexValue h3, hexValue h4 with
                  | Some a, Some b, Some c', Some d =>
                      string_body s4 (acc ++ utf8 (4096 * a + 256 * b + 16 * c' + d))
                  | _, _, _, _ => None
                  end
              | _ => None
              end
            else
              match
                (if Ascii.eqb e quote then Some quote
                 else if Ascii.eqb e "\" then Some "\"%char
                 else if Ascii.eqb e "/" then Some "/"%char
                 else if Ascii.eqb e "b" then Some (ascii_of_nat 8)
                 else if Ascii.eqb e "f" then Some (ascii_of_nat 12)
                 else if Ascii.eqb e "n" then Some (ascii_of_nat 10)
                 else if Ascii.eqb e "r" then Some (ascii_of_nat 13)
                 else if Ascii.eqb e "t" then Some (ascii_of_nat 9)
                 else None)
              with
              | Some x => string_body s'' (acc ++ String x "")
              | None => None
              end
        end
      else if (N_of_ascii c <? 32)%N then None
      else string_body s' (acc ++ String c "")
  end.

Fixpoint take_digits (s : string) : string * string :=
  match s with
  | String c s' =>
      match digitValue c with
      | Some _ => let (ds, rest) := take_digits s' in (String c ds, rest)
      | None => ("", s)
      end
  | "" => ("", "")
  end.

(** A number: an integer literal is the integer; any other is kept as
    written. *)
Definition number (s : string) : option (Value * string) :=
  let (sign, s1) := match s with
                    | String "-" r => ("-", r)
                    | _ => ("", s)
                    end in
  let (int, s2) := take_digits s1 in
  let int_ok := match int with
                | "" => false
                | String "0" (String _ _) => false
                | _ => true
                end in
  let '(frac, s3, frac_ok) :=
    match s2 with
    | String "." r =>
        let (ds, r') := take_digits r in ("." ++ ds, r', negb (ds =? ""))
    | _ => ("", s2, true)
    end in
  let '(exp, s4, exp_ok) :=
    match s3 with
    | String e r =>
        if Ascii.eqb e "e" || Ascii.eqb e "E" then
          let (sg, r1) := match r with
                          | String "+" r' => ("+", r')
                          | String "-" r' => ("-", r')
                          | _ => ("", r)
                          end in
          let (ds, r2) := take_digits r1 in
          (String e (sg ++ ds), r2, negb (ds =? ""))
        else ("", s3, true)
    | "" => ("", s3, true)
    end in
  if int_ok && frac_ok && exp_ok then
    if (frac =? "") && (exp =? "") then
      match numeral int with
      | Some n => Some (Num (if sign =? "-" then - Z.of_N n else Z.of_N n), s4)
      | None => None
      end
    else Some (NumLit (sign ++ int ++ frac ++ exp), s4)
  else None.

Definition literal (word : string) (v : Value) (s : string) : option (Value * string) :=
  if prefix word s then Some (v, substring (length word) (length s - length word) s)
  else None.

Section JsonGrammar.

(** [setp] is the assignment to a property, defined with the objects
    below. *)
Variable setp : string -> Value -> Object -> Object.

Fixpoint json_value (fuel : nat) (s : string) : option (Value * string) :=
  match fuel with
  | O => None
  | S fuel' =>
      match skip_blanks s with
      | String c r =>
          if Ascii.eqb c "{" then
            match skip_blanks r with
            | String c' r' =>
                if Ascii.eqb c' "}" then Some (Obj [], r') else json_members fuel' r []
            | "" => None
            end
          else if Ascii.eqb c "[" then
            match skip_blanks r with
            | String c' r' =>
                if Ascii.eqb c' "]" then Some (Arr [], r') else json_elements fuel' r []
            | "" => None
            end
          else if Ascii.eqb c quote then
            match string_body r "" with
            | Some (str, r') => Some (Str str, r')
            | None => None
            end
          else if Ascii.eqb c "t" then literal "true" (Bool true) (String c r)
          else if Ascii.eqb c "f" then literal "false" (Bool false) (String c r)
          else if Ascii.eqb c "n" then literal "null" Null (String c r)
          else number (String c r)
      | "" => None
      end
  end

with json_members (fuel : nat) (s : string) (acc : Object) : option (Value * string) :=
  match fuel with
  | O => None
  | S fuel' =>
      match skip_blanks s with
      | String q r =>
          if Ascii.eqb q quote then
            match string_body r "" with
            | Some (k, r1) =>
                match skip_blanks r1 with
                | String colon r2 =>
                    if Ascii.eqb colon ":" then
                      match json_value fuel' r2 with
                      | Some (v, r3) =>
                          match skip_blanks r3 with
                          | String d r4 =>
                              if Ascii.eqb d "," then json_members fuel' r4 (setp k v acc)
                              else if Ascii.eqb d "}" then Some (Obj (setp k v acc), r4)
                              else None
                          | "" => None
                          end
                      | None => None
                      end
                    else None
                | "" => None
                end
            | None => None
            end
          else None
      | "" => None
      end
  end

with json_elements (fuel : nat) (s : string) (acc : list Value) : option (Value * string) :=
  match fuel with
  | O => None
  | S fuel' =>
      match json_value fuel' s with
      | Some (v, r) =>
          match skip_blanks r with
          | String d r' =>
              if Ascii.eqb d "," then json_elements fuel' r' (acc ++ [v])%list
              else if Ascii.eqb d "]" then Some (Arr (acc ++ [v])%list, r')
              else None
          | "" => None
          end
      | None => None
      end
  end.

End JsonGrammar.

(** *** Stable sorting

    [Array.prototype.sort] with a comparator, and [ORDER BY]: elements that
    compare equal keep their order. *)

Fixpoint insert_by {A} (leb : A -> A -> bool) (x : A) (l : list A) : list A :=
  match l with
  | [] => [x]
  | y :: l' => if leb x y then x :: l else y :: insert_by leb x l'
  end.

Definition sort_by {A} (leb : A -> A -> bool) (l : list A) : list A :=
  fold_right (insert_by leb) [] l.

(** *** Objects *)

(** The property names the engine lists first, in ascending numeric order:
    the canonical numerals below 2^32 - 1. *)
Definition arrayIndex (k : string) : option N :=
  match numeral k with
  | Some n => if (N_toString n =? k) && (n <? 4294967295)%N then Some n else None
  | None => None
  end.

Fixpoint has (k : string) (o : Object) : bool :=
  match o with
  | [] => false
  | (k', _) :: o' => (k' =? k) || has k o'
  end.

(** [o[k]] on the own properties of [o]. *)
Fixpoint get (k : string) (o : Object) : Value :=
  match o with
  | [] => Undefined
  | (k', v) :: o' => if k' =? k then v else get k o'
  end.

Fixpoint replace (k : string) (v : Value) (o : Object) : Object :=
  match o with
  | [] => []
  | (k', v') :: o' => if k' =? k then (k', v) :: o' else (k', v') :: replace k v o'
  end.

(** A new array-index property goes among the array-index properties, in
    ascending order. *)
Fixpoint insert_index (i : N) (k : string) (v : Value) (o : Object) : Object :=
  match o with
  | [] => [(k, v)]
  | (k', v') :: o' =>
      match arrayIndex k' with
      | Some j => if (i <? j)%N then (k, v) :: o else (k', v') :: insert_index i k v o'
      | None => (k, v) :: o
      end
  end.

(** [o[k] = v]: an existing property keeps its place; a new one is listed
    after the others, array indices apart. *)
Definition set (k : string) (v : Value) (o : Object) : Object :=
  if has k o then replace k v o
  else match arrayIndex k with
       | Some i => insert_index i k v o
       | None => (o ++ [(k, v)])%list
       end.

(** [JSON.parse( text )]: the value the text denotes, or the
    [SyntaxError]. *)
Definition JSON_parse (text : string) : Result Value :=
  match json_value set (S (length text)) text with
  | Some (v, rest) =>
      match skip_blanks rest with
      | "" => ret v
      | _ => throw (SyntaxError text)
      end
  | None => throw (SyntaxError text)
  end.

(** [{ ...target, ...source }]. *)
Definition spread (source target : Object) : Object :=
  fold_left (fun t kv => set (fst kv) (snd kv) t) source target.

(** The own enumerable properties a spread copies: those of an object; a
    promise, [undefined], [null], a number or a boolean have none. *)
Definition ownProps (v : Value) : Object :=
  match v with
  | Obj props => props
  | _ => []
  end.

Definition keys (o : Object) : list string := map fst o.

(** [v.k]: reading a property of [undefined] or [null] throws; a value that
    is not an object has no own property of the names read here. *)
Definition member (v : Value) (k : string) : Result Value :=
  match v with
  | Undefined => throw (TypeError ("Cannot read property '" ++ k ++ "' of undefined"))
  | Null => throw (TypeError ("Cannot read property '" ++ k ++ "' of null"))
  | Obj props => ret (get k props)
  | _ => ret Undefined
  end.

(** [String(v)], as a template literal or a property name does. *)
Fixpoint ToString (v : Value) : string :=
  match v with
  | Undefined => "undefined"
  | Null => "null"
  | Bool true => "true"
  | Bool false => "false"
  | Num z => Z_toString z
  | NumLit lexeme => lexeme
  | Str s => s
  | Arr items =>
      (fix join (l : list Value) : string :=
         match l with
         | [] => ""
         | [x] => match x with Undefined | Null => "" | _ => ToString x end
         | x :: l' => match x with Undefined | Null => "" | _ => ToString x end ++ "," ++ join l'
         end) items
  | Obj _ => "[object Object]"
  | PromiseOf _ => "[object Promise]"
  end.

(** What [JSON.stringify] writes for a value, read back as a tree: a
    property holding [undefined] is left out, [undefined] in an array is
    written [null], a promise has no property to write. *)
Fixpoint JSON_tree (v : Value) : Value :=
  match v with
  | Obj props =>
      Obj ((fix each (ps : list (string * Value)) : Object :=
              match ps with
              | [] => []
              | (k, x) :: ps' =>
                  match x with
                  | Undefined => each ps'
                  | _ => (k, JSON_tree x) :: each ps'
                  end
              end) props)
  | Arr items =>
      Arr (map (fun x => match x with Undefined => Null | _ => JSON_tree x end) items)
  | PromiseOf _ => Obj []
  | _ => v
  end.

(** [Array.prototype.reduce] with the index passed to the callback. *)
Fixpoint reduce_from {A B} (i : nat) (f : B -> A -> nat -> B) (l : list A) (acc : B) : B :=
  match l with
  | [] => acc
  | a :: l' => reduce_from (S i) f l' (f acc a i)
  end.

Definition reduce_i {A B} (f : B -> A -> nat -> B) (l : list A) (init : B) : B :=
  reduce_from 0 f l init.

End JS.

(* ================================================================== *)
(** ** lib/models/Lines.js: the query builder *)
(* ================================================================== *)

Module Search.

Import JS.

(** *** What a builder holds *)

(** The comparison operator of a [where]; the builder only uses [LIKE]. *)
Inductive Operator : Type := LIKE.

Record WhereClause : Type := mkWhere {
  where_column : string;
  where_operator : Operator;
  where_value : string
}.

(** [raw( sql, bindings )]: SQL text with [?] placeholders and the values
    bound to them, in order. *)
Record Raw : Type := mkRaw {
  raw_sql : string;
  raw_bindings : list string
}.

(** The state of a query builder: the [WHERE] conditions (conjoined) and the
    [ORDER BY] terms (first term most significant), in the order of the
    calls. *)
Record QueryBuilder : Type := mkQuery {
  wheres : list WhereClause;
  orders : list Raw
}.

(** [Lines.query()]. *)
Definition query : QueryBuilder := mkQuery [] [].

Definition where_ (this : QueryBuilder) (column : string) (op : Operator) (value : string)
  : QueryBuilder :=
  mkQuery (wheres this ++ [mkWhere column op value]) (orders this).

Definition orderBy (this : QueryBuilder) (r : Raw) : QueryBuilder :=
  mkQuery (wheres this) (orders this ++ [r]).

(** [is-ascii]: no code unit above 127. *)
Fixpoint isAscii (s : string) : bool :=
  match s with
  | "" => true
  | String c s' => (N_of_ascii c <=? 127)%N && isAscii s'
  end.

Section Builder.

(** [toAscii] of gurmukhi-utils, the transliteration to the ASCII encoding
    of the script. *)
Variable toAscii : string -> string.

(** [LineQueryBuilder.orderResults( search, field )]. *)
Definition orderResults (this : QueryBuilder) (search field : string) : QueryBuilder :=
  let variants := [search; search ++ "%"; "%" ++ search ++ "%"] in
  let cases :=
    reduce_i
      (fun (cases : string) (_ : string) (i : nat) =>
         cases ++ " WHEN " ++ field ++ " LIKE ? THEN " ++ N_toString (N.of_nat i))
      variants "" in
  let orderBy_ :=
    mkRaw ("CASE " ++ cases ++ " ELSE " ++ N_toString (N.of_nat (List.length variants)) ++ " END")
          variants in
  orderBy this orderBy_.

(** [LineQueryBuilder.genericSearch( search, field, orderResults = true )]. *)
Definition genericSearch (this : QueryBuilder) (search field : string) (orderResults_ : Value)
  : QueryBuilder :=
  let orderResults_ := default (Bool true) orderResults_ in
  let query := this in
  let asciiSearch := if negb (isAscii search) then toAscii search else search in
  let query := where_ query field LIKE ("%" ++ asciiSearch ++ "%") in
  if truthy orderResults_ then orderResults query asciiSearch field else query.

(** [LineQueryBuilder.firstLetters( letters, orderResults = true )]. *)
Definition firstLetters (this : QueryBuilder) (letters : string) (orderResults_ : Value)
  : QueryBuilder :=
  let orderResults_ := default (Bool true) orderResults_ in
  genericSearch this letters "first_letters" orderResults_.

(** [LineQueryBuilder.fullWord( phrase, orderResults )]. *)
Definition fullWord (this : QueryBuilder) (phrase : string) (orderResults_ : Value)
  : QueryBuilder :=
  genericSearch this phrase "gurmukhi" orderResults_.

End Builder.

(** *** What the database does with the query

    The builder only assembles the query; the engine runs it.  The meaning
    of [LIKE] and of the [CASE] expression is the engine's, and is modelled
    here so that the order of the rows can be stated. *)

(** The texts are UTF-8: a character is one byte, or a byte from 192 on
    followed by the bytes from 128 to 191 that continue it. *)
Fixpoint continuation (text : string) : string :=
  match text with
  | "" => ""
  | String c text' =>
      if (128 <=? N_of_ascii c)%N && (N_of_ascii c <? 192)%N then continuation text'
      else text
  end.

(** The text after the character that starts with the byte [c]. *)
Definition after_character (c : ascii) (rest : string) : string :=
  if (192 <=? N_of_ascii c)%N then continuation rest else rest.

Section Engine.

(** How [LIKE] compares two characters.  It is the engine's choice: SQLite
    ignores the case of ASCII letters, other engines follow the collation
    of the column. *)
Variable ceq : ascii -> ascii -> bool.

(** [text LIKE pattern]: in the pattern [%] stands for any run of
    characters and [_] for any one character, a character of the text
    being read as [after_character] reads it; no escape character is
    declared by the builder. *)
Fixpoint like (pattern : string) : string -> bool :=
  match pattern with
  | "" => fun text => match text with "" => true | _ => false end
  | String p pattern' =>
      if Ascii.eqb p "%" then
        fix skip (text : string) : bool :=
          like pattern' text
          || match text with
             | "" => false
             | String _ text' => skip text'
             end
      else if Ascii.eqb p "_" then
        fun text =>
          match text with
          | "" => false
          | String c text' => like pattern' (after_character c text')
          end
      else
        fun text =>
          match text with
          | "" => false
          | String c text' => ceq p c && like pattern' text'
          end
  end.

(** Two texts of the same length whose characters compare equal. *)
Fixpoint same_text (a b : string) : bool :=
  match a, b with
  | "", "" => true
  | String x a', String y b' => ceq x y && same_text a' b'
  | _, _ => false
  end.

(** A row of the table, read by column name. *)
Definition Row := string -> string.

Definition where_holds (r : Row) (w : WhereClause) : bool :=
  match where_operator w with
  | LIKE => like (where_value w) (r (where_column w))
  end.

(** **** Reading the [ORDER BY] text *)

Definition flush (cur : string) (rest : list string) : list string :=
  if cur =? "" then rest else cur :: rest.

(** The words of an SQL text, split at blanks. *)
Fixpoint words_from (cur : string) (s : string) : list string :=
  match s with
  | "" => flush cur []
  | String c s' =>
      if Ascii.eqb c " " then flush cur (words_from "" s')
      else words_from (cur ++ String c "") s'
  end.

Definition words (s : string) : list string := words_from "" s.

(** One [WHEN column LIKE ? THEN n] arm. *)
Record WhenArm : Type := mkWhen {
  when_column : string;
  when_then : N
}.

(** [CASE WHEN ... THEN ... ... ELSE n END]. *)
Record CaseExpr : Type := mkCase {
  case_arms : list WhenArm;
  case_else : N
}.

Fixpoint parse_arms (toks : list string) : option CaseExpr :=
  match toks with
  | [e; n; d] =>
      if (e =? "ELSE") && (d =? "END") then
        match numeral n with
        | Some k => Some (mkCase [] k)
        | None => None
        end
      else None
  | w :: col :: l :: q :: t :: n :: rest =>
      if (w =? "WHEN") && (l =? "LIKE") && (q =? "?") && (t =? "THEN") then
        match numeral n, parse_arms rest with
        | Some k, Some c => Some (mkCase (mkWhen col k :: case_arms c) (case_else c))
        | _, _ => None
        end
      else None
  | _ => None
  end.

Definition parse_case (sql : string) : option CaseExpr :=
  match words sql with
  | c :: rest => if c =? "CASE" then parse_arms rest else None
  | [] => None
  end.

(** The value of the [CASE] on a row: the [THEN] of the first arm whose
    [LIKE] holds, each [?] taking the next binding; the [ELSE] when none
    holds. *)
Fixpoint eval_arms (arms : list WhenArm) (bindings : list string) (else_ : N) (r : Row) : N :=
  match arms, bindings with
  | arm :: arms', b :: bindings' =>
      if like b (r (when_column arm)) then when_then arm
      else eval_arms arms' bindings' else_ r
  | _, _ => else_
  end.

(** An [ORDER BY] term the engine accepts: the text parses and has as many
    placeholders as there are bindings. *)
Definition compile_order (o : Raw) : option (Row -> N) :=
  match parse_case (raw_sql o) with
  | Some c =>
      if (List.length (case_arms c) =? List.length (raw_bindings o))%nat
      then Some (eval_arms (case_arms c) (raw_bindings o) (case_else c))
      else None
  | None => None
  end.

Fixpoint compile_orders (os : list Raw) : option (list (Row -> N)) :=
  match os with
  | [] => Some []
  | o :: os' =>
      match compile_order o, compile_orders os' with
      | Some k, Some ks => Some (k :: ks)
      | _, _ => None
      end
  end.

(** Sort keys compare term by term, the first term deciding first. *)
Fixpoint keys_leb (a b : list N) : bool :=
  match a, b with
  | x :: a', y :: b' => (x <? y)%N || ((x =? y)%N && keys_leb a' b')
  | _, _ => true
  end.

(** Running the query over the rows of the table, in storage order; [None]
    when the engine rejects an [ORDER BY] term. *)
Definition execute (q : QueryBuilder) (table : list Row) : option (list Row) :=
  let hits := filter (fun r => forallb (where_holds r) (wheres q)) table in
  match compile_orders (orders q) with
  | Some ks =>
      let key (r : Row) := map (fun k => k r) ks in
      Some (sort_by (fun r1 r2 => keys_leb (key r1) (key r2)) hits)
  | None => None
  end.

(** The match class of a text for a term: 0 when it is [LIKE term], else 1
    when it is [LIKE term%], else 2 when it is [LIKE %term%], else 3. *)
Definition match_class (term text : string) : N :=
  if like term text then 0%N
  else if like (term ++ "%") text then 1%N
  else if like ("%" ++ term ++ "%") text then 2%N
  else 3%N.

End Engine.

(** A term in which no character is a [LIKE] wildcard. *)
Fixpoint wildcard_free (s : string) : bool :=
  match s with
  | "" => true
  | String c s' => negb (Ascii.eqb c "%") && negb (Ascii.eqb c "_") && wildcard_free s'
  end.

(** A column name written as one word: not empty, no blank. *)
Fixpoint no_blank (s : string) : bool :=
  match s with
  | "" => true
  | String c s' => negb (Ascii.eqb c " ") && no_blank s'
  end.

Definition one_word (s : string) : bool := negb (s =? "") && no_blank s.

(** The [ORDER BY] text [orderResults] assembles, written out, and its
    bindings. *)
Definition ranking_sql (field : string) : string :=
  "CASE  WHEN " ++ field ++ " LIKE ? THEN 0 WHEN " ++ field
    ++ " LIKE ? THEN 1 WHEN " ++ field ++ " LIKE ? THEN 2 ELSE 3 END".

Definition ranking_variants (search : string) : list string :=
  [search; search ++ "%"; "%" ++ search ++ "%"].

Definition ranking (search field : string) : Raw :=
  mkRaw (ranking_sql field) (ranking_variants search).

(** The three match classes as the specification words them: the text is
    the term; the text starts with the term; the term occurs in the text. *)
Fixpoint occurs_in (term text : string) : bool :=
  prefix term text
  || match text with
     | "" => false
     | String _ text' => occurs_in term text'
     end.

Definition spec_class (term text : string) : N :=
  if text =? term then 0%N
  else if prefix term text then 1%N
  else if occurs_in term text then 2%N
  else 3%N.

(** A table row whose text columns all hold [text]. *)
Definition line (text : string) : Row := fun _ => text.

(** The search term the builder works with. *)
Definition normalized (toAscii : string -> string) (search : string) : string :=
  if isAscii search then search else toAscii search.

End Search.

(* ================================================================== *)
(** ** lib/build-json.js *)
(* ================================================================== *)

Module BuildJson.

Import JS.

(** *** The console and the output directory *)

(** The colours of [./string-colors]; a message on the console is kept with
    the one applied to it. *)
Inductive Style : Type := Plain | Header | Subheader | Success.

Record World : Type := mkWorld {
  console : list (Style * string);
  dirs : list string;
  files : list (string * Value)
}.

Definition start : World := mkWorld [] [] [].

Definition console_log (st : Style) (msg : string) (w : World) : World :=
  mkWorld (console w ++ [(st, msg)]) (dirs w) (files w).

(** Modelled from the spec: [writeJSON] and [createDir] of [./utils], the
    sink that saves an artifact by name; [writeJSON] is given the path and
    the tree compiled for it and writes the tree as JSON. *)
Definition writeJSON (path : string) (data : Value) (w : World) : World :=
  mkWorld (console w) (dirs w) (files w ++ [(path, JSON_tree data)]).

Definition createDir (path : string) (w : World) : World :=
  mkWorld (console w) (dirs w ++ [path]) (files w).

Definition OUTPUT_DIR : string := "./data".
Definition TMP_DIR : string := "./data.tmp".

Definition newline : string := String (ascii_of_nat 10) "".

(** [saveData( filename, data, output = true )]. *)
Definition saveData (filename : string) (data : Value) (output : Value) (w : World) : World :=
  let output := default (Bool true) output in
  let path := TMP_DIR ++ "/" ++ filename ++ ".json" in
  let w := writeJSON path data w in
  if truthy output then console_log Success ("Saved " ++ path) w else w.

(** *** Grouping

    [GROUP BY] and lodash's [groupBy]: a row joins the group of its key, a
    new key opens a group after the others. *)
Fixpoint push_group {K A} (eqb : K -> K -> bool) (k : K) (a : A) (groups : list (K * list A))
  : list (K * list A) :=
  match groups with
  | [] => [(k, [a])]
  | (k', g) :: groups' =>
      if eqb k' k then (k', g ++ [a])%list :: groups'
      else (k', g) :: push_group eqb k a groups'
  end.

Definition group_by {K A} (eqb : K -> K -> bool) (key : A -> K) (rows : list A)
  : list (K * list A) :=
  fold_left (fun groups r => push_group eqb (key r) r groups) rows [].

(** *** processBanis *)

(** A row of [banis], as the callback takes it apart: [{ id: baniId, ...data }]. *)
Record bani_row : Type := mkBani {
  baniId : Z;
  bani_data : Object
}.

Record bani_lines_row : Type := mkBaniLine {
  bl_bani_id : Z;
  bl_line_id : Z;
  bl_line_group : Z
}.

(** The columns of [lines] the query reads. *)
Record lines_row : Type := mkLineRow {
  l_id : Z;
  l_order_id : Z
}.

Record BaniTables : Type := mkBaniTables {
  banis : list bani_row;
  bani_lines : list bani_lines_row;
  lines : list lines_row
}.

(** A row of [bani_lines_ordered]: a membership row with its line;
    [line_id] is the line's [id], which the join makes equal to the
    membership's [line_id]. *)
Record ordered_row : Type := mkOrdered {
  order_id : Z;
  line_id : Z;
  line_group : Z
}.

(** [getTable( 'banis' )]: the table ordered by its id. *)
Definition getTable_banis (t : BaniTables) : list bani_row :=
  sort_by (fun a b => (baniId a <=? baniId b)%Z) (banis t).

(** The first [with]: [bani_lines] joined to [lines], of the bani, ordered
    by [lines.order_id]. *)
Definition bani_lines_ordered (t : BaniTables) (bani : Z) : list ordered_row :=
  sort_by (fun a b => (order_id a <=? order_id b)%Z)
    (flat_map
       (fun bl =>
          map (fun l => mkOrdered (l_order_id l) (l_id l) (bl_line_group bl))
              (filter (fun l => (l_id l =? bl_line_id bl)%Z) (lines t)))
       (filter (fun bl => (bl_bani_id bl =? bani)%Z) (bani_lines t))).

(** [min( order_id )] and [max( order_id )] over a group; [None] is the
    [NULL] of an empty group. *)
Definition min_order_id (g : list ordered_row) : option Z :=
  match g with
  | [] => None
  | r :: g' => Some (fold_left Z.min (map order_id g') (order_id r))
  end.

Definition max_order_id (g : list ordered_row) : option Z :=
  match g with
  | [] => None
  | r :: g' => Some (fold_left Z.max (map order_id g') (order_id r))
  end.

(** The second [with], [bani_ranges]: one row per [line_group], holding
    the two aggregates. *)
Definition bani_ranges (ordered : list ordered_row) : list (option Z * option Z) :=
  map (fun kg => (min_order_id (snd kg), max_order_id (snd kg)))
      (group_by Z.eqb line_group ordered).

(** [column = aggregate]: never true of [NULL]. *)
Definition equals (x : Z) (y : option Z) : bool :=
  match y with
  | Some z => (x =? z)%Z
  | None => false
  end.

(** [bani_ranges] joined to [l1] on the minimum and to [l2] on the maximum. *)
Definition joined_ranges (ordered : list ordered_row) : list (ordered_row * ordered_row) :=
  flat_map
    (fun range =>
       flat_map
         (fun l1 =>
            map (fun l2 => (l1, l2))
                (filter (fun l2 => equals (order_id l2) (snd range)) ordered))
         (filter (fun l1 => equals (order_id l1) (fst range)) ordered))
    (bani_ranges ordered).

Section RangeQuery.

(** The final [groupBy( 'l1.line_group' )] selects columns that are not
    aggregated: the engine takes them from a row of the group, of its
    choosing.  [pick r rest] is the row taken from the group [r :: rest]. *)
Variable pick : ordered_row * ordered_row -> list (ordered_row * ordered_row)
                -> ordered_row * ordered_row.

(** The rows of the query: [[ l1.id as start_line, l2.id as end_line ]],
    one per [l1.line_group].  The query has no [ORDER BY]; the engine of
    [build/database.sqlite] sorts the joined rows by the key to group them,
    and so returns the groups by ascending [line_group]. *)
Definition bani_line_ranges (ordered : list ordered_row) : list (Z * Z) :=
  flat_map
    (fun kg =>
       match snd kg with
       | [] => []
       | r :: rest => let j := pick r rest in [(line_id (fst j), line_id (snd j))]
       end)
    (sort_by (fun a b => (fst a <=? fst b)%Z)
       (group_by Z.eqb (fun j => line_group (fst j)) (joined_ranges ordered))).

Definition range_object (range : Z * Z) : Value :=
  Obj [("start_line", Num (fst range)); ("end_line", Num (snd range))].

(** [console.log( `Compiling bani ${data.name_english}` )]. *)
Definition compiling_message (b : bani_row) : Style * string :=
  (Plain, "Compiling bani " ++ ToString (get "name_english" (bani_data b))).

(** [{ ...data, lines }], [lines] being the rows of the query. *)
Definition compiled_bani (t : BaniTables) (b : bani_row) : Value :=
  Obj (set "lines"
         (Arr (map range_object (bani_line_ranges (bani_lines_ordered t (baniId b)))))
         (spread (bani_data b) [])).

(** The callback of the [reduce]: the message, then the bani with its
    ranges appended to the array compiled so far.  The messages of all the
    banis come before the first query returns; their order is that of the
    banis either way. *)
Definition compile_bani (t : BaniTables) (acc : World * list Value) (bani : bani_row)
  : World * list Value :=
  let message := compiling_message bani in
  let w := console_log (fst message) (snd message) (fst acc) in
  (w, (snd acc ++ [compiled_bani t bani])%list).

Definition processBanis (t : BaniTables) (w : World) : World :=
  let w := console_log Subheader (newline ++ "Processing banis") w in
  let compiled := fold_left (compile_bani t) (getTable_banis t) (w, []) in
  saveData "banis" (Arr (snd compiled)) Undefined (fst compiled).

End RangeQuery.

(** *** snakecase-keys *)

Section SnakeCaseKeys.

(** The conversion of one key by snakecase-keys ([nameEnglish] to
    [name_english]). *)
Variable snakeCase : string -> string.

(** [snakeCaseKeys( v )] with its default [deep] option, on map-obj: the
    keys of [v] are converted and set on a new object in their order; a
    value that is an array has its elements converted, one that is an object
    is converted; an array given as [v] is read as the object of its
    indices, and so is an array within an array. *)
Fixpoint snakeCaseKeys (v : Value) : Object :=
  let deep (x : Value) : Value :=
    match x with
    | Arr items =>
        Arr (map (fun e => match e with
                           | Obj _ | Arr _ | PromiseOf _ => Obj (snakeCaseKeys e)
                           | _ => e
                           end) items)
    | Obj _ | PromiseOf _ => Obj (snakeCaseKeys x)
    | _ => x
    end in
  match v with
  | Obj props =>
      (fix each (ps : list (string * Value)) (target : Object) : Object :=
         match ps with
         | [] => target
         | (k, x) :: ps' => each ps' (set (snakeCase k) (deep x) target)
         end) props []
  | Arr items =>
      (fix each (i : N) (xs : list Value) (target : Object) : Object :=
         match xs with
         | [] => target
         | x :: xs' => each (N.succ i) xs' (set (snakeCase (N_toString i)) (deep x) target)
         end) 0%N items []
  | _ => []
  end.

(** What becomes of a property value. *)
Definition deep_value (x : Value) : Value :=
  match x with
  | Arr items =>
      Arr (map (fun e => match e with
                         | Obj _ | Arr _ | PromiseOf _ => Obj (snakeCaseKeys e)
                         | _ => e
                         end) items)
  | Obj _ | PromiseOf _ => Obj (snakeCaseKeys x)
  | _ => x
  end.

(** The conversion of one property onto the new object. *)
Definition convert_step (t : Object) (kv : string * Value) : Object :=
  set (snakeCase (fst kv)) (deep_value (snd kv)) t.

(** [Object.entries( o ).reduce( ( final, [ , object ] ) => [ ...final, object ], [] )]:
    the values of [o] in the order of its keys. *)
Definition values (o : Object) : list Value :=
  fold_left (fun final kv => (final ++ [snd kv])%list) o [].

(** *** processSources *)

(** [Array.prototype.sort( compare )]: [a] goes before [b] when
    [compare( a, b )] is negative, and stays before it when it is zero. *)
Definition Array_sort {A} (compare : A -> A -> Z) (l : list A) : list A :=
  sort_by (fun a b => (compare a b <=? 0)%Z) l.

(** The rows as the callbacks take them apart: the named properties, and
    [rest] for the others. *)
Record subsection_row : Type := mkSubsection {
  subsection_id : Z;
  subsection_sectionId : Value;
  subsection_rest : Object
}.

Record section_row : Type := mkSection {
  section_id : Z;
  section_sourceId : Value;
  subsections : list subsection_row;
  section_rest : Object
}.

Record source_row : Type := mkSource {
  source_id : Z;
  sections : list section_row;
  source_rest : Object
}.

Definition compile_subsection (s : subsection_row) : Value :=
  Obj (subsection_rest s).

Definition compile_section (s : section_row) : Value :=
  Obj (set "subsections"
         (Arr (map compile_subsection
                 (Array_sort (fun a b => subsection_id a - subsection_id b)%Z (subsections s))))
         (spread (section_rest s) [])).

Definition compile_source (s : source_row) : Value :=
  Obj (set "sections"
         (Arr (map compile_section
                 (Array_sort (fun a b => section_id a - section_id b)%Z (sections s))))
         (spread (source_rest s) [])).

Definition compiling_source (s : source_row) : Style * string :=
  (Plain, "Compiling source " ++ ToString (get "nameEnglish" (source_rest s))).

(** [processSources], from the rows the eager query returned. *)
Definition processSources (sources : list source_row) (w : World) : World :=
  let w := console_log Subheader (newline ++ "Processing sources") w in
  let sorted := Array_sort (fun a b => source_id a - source_id b)%Z sources in
  let w := fold_left (fun w s => console_log (fst (compiling_source s)) (snd (compiling_source s)) w)
             sorted w in
  let data := map compile_source sorted in
  let data := values (snakeCaseKeys (Arr data)) in
  saveData "sources" (Arr data) Undefined w.

End SnakeCaseKeys.

(** *** processLines *)

(** A row of [content] with its publication, as the callback takes it
    apart: [{ gurmukhi, publication }]. *)
Record content_row : Type := mkContent {
  content_gurmukhi : Value;
  content_publication : Value
}.

(** A row of [translations] with its source, as the callback takes it
    apart: [{ translationSourceId, lineId, translationSource, ...translation }]. *)
Record translation_row : Type := mkTranslation {
  translationSourceId : Value;
  lineId : Value;
  translationSource : Value;
  translation : Object
}.

(** A row of [lines] with its relations, as the callback takes it apart;
    of the properties it names, only those it reads are kept, [line] is
    the rest. *)
Record line_row : Type := mkLine {
  line_type : Value;
  line_translations : list translation_row;
  line_content : list content_row;
  line : Object
}.

(** A shabad (the row with its writer, section and subsection), and the
    lines its related query returns, ordered by [order_id]. *)
Record shabad_input : Type := mkShabad {
  shabad : Object;
  shabad_lines : list line_row
}.

(** A source as the callback takes it apart: [{ shabads, nameEnglish }]. *)
Record source_input : Type := mkSourceInput {
  shabads : list shabad_input;
  nameEnglish : Value
}.

(** [String.prototype.padStart( targetLength, '0' )]. *)
Definition padStart (targetLength : nat) (s : string) : string :=
  String.concat "" (repeat "0" (targetLength - length s)) ++ s.

Section Lines.

Variable snakeCase : string -> string.

(** The callback of [content.reduce]. *)
Definition add_content (content : Object) (row : content_row) : Result Object :=
  bind (member (content_publication row) "nameEnglish") (fun name =>
  ret (set (ToString name) (content_gurmukhi row) (spread content []))).

(** The callback of [translations.reduce]; [acc] starts as a promise. *)
Definition add_translation (acc : Value) (row : translation_row) : Result Value :=
  bind (member (translationSource row) "language") (fun language =>
  bind (member language "nameEnglish") (fun languageName =>
  bind (member (translationSource row) "nameEnglish") (fun translationSourceName =>
  let outer := spread (ownProps acc) [] in
  let inner := spread (ownProps (get (ToString languageName) (ownProps acc))) [] in
  bind (JSON_parse (ToString (get "additionalInformation" (translation row)))) (fun info =>
  let value :=
    Obj (snakeCaseKeys snakeCase
           (Obj (set "additionalInformation" info (spread (translation row) [])))) in
  ret (Obj (set (ToString languageName)
              (Obj (set (ToString translationSourceName) value inner))
              outer)))))).

(** [x && x.nameEnglish], for a relation [x] that may be missing. *)
Definition and_nameEnglish (x : Value) : Value :=
  if truthy x then get "nameEnglish" (ownProps x) else x.

(** The callback of the [map] over the lines of a shabad. *)
Definition compile_line (row : line_row) : Result Value :=
  let head :=
    snakeCaseKeys snakeCase (Obj (set "type" (and_nameEnglish (line_type row)) (spread (line row) []))) in
  bind (foldM add_content (line_content row) []) (fun gurmukhi =>
  bind (foldM add_translation (line_translations row) (PromiseOf (Obj []))) (fun translations =>
  ret (Obj (set "translations" translations
              (set "gurmukhi" (Obj gurmukhi) (spread head [])))))).

(** The properties of a shabad before its lines:
    [snakeCaseKeys( { ...shabad, writerId: undefined, ... } )]. *)
Definition shabad_head (s : Object) : Result Object :=
  let o := spread s [] in
  let o := set "writerId" Undefined o in
  let o := set "sourceId" Undefined o in
  let o := set "sectionId" Undefined o in
  let o := set "orderId" Undefined o in
  let o := set "subsectionId" Undefined o in
  bind (member (get "writer" s) "nameEnglish") (fun writer =>
  let o := set "writer" writer o in
  bind (member (get "section" s) "nameEnglish") (fun section =>
  let o := set "section" section o in
  let o := set "subsection" (or_ (and_nameEnglish (get "subsection" s)) Null) o in
  ret (snakeCaseKeys snakeCase (Obj o)))).

(** The callback of the [map] over the shabads of a source. *)
Definition compile_shabad (s : shabad_input) : Result Value :=
  bind (shabad_head (shabad s)) (fun head =>
  bind (mapM compile_line (shabad_lines s)) (fun lines =>
  ret (Obj (set "lines" (Arr lines) (spread head []))))).

(** What the callback does once the related query has answered: the lines
    are compiled and set on the head. *)
Definition with_lines (entry : Object * shabad_input) : Result Value :=
  bind (mapM compile_line (shabad_lines (snd entry))) (fun lines =>
  ret (Obj (set "lines" (Arr lines) (spread (fst entry) [])))).

(** [Promise.all( shabads.map( async shabad => ... ) )]: the callbacks are
    started in array order and each runs up to its [await], so the heads of
    all the shabads are made before any line is compiled, and a head that
    throws rejects the whole first.  The lines are compiled as the related
    queries answer, taken here in the order they were sent. *)
Definition compile_shabads (l : list shabad_input) : Result (list Value) :=
  bind (mapM (fun s => shabad_head (shabad s)) l) (fun heads =>
  mapM with_lines (combine heads l)).

(** The callback of the [reduce] over the sources: it awaits the sources
    before, then compiles the shabads of its source. *)
Definition compile_source_shabads (acc : Object) (s : source_input) : Result Object :=
  bind (compile_shabads (shabads s)) (fun compiled =>
  ret (set (ToString (nameEnglish s)) (Arr compiled) (spread acc []))).

(** [( { lines: [ first ] } ) => first.source_page], as a property name. *)
Definition page_of (s : Value) : Result string :=
  bind (member s "lines") (fun lines =>
  let first := match lines with
               | Arr (first :: _) => first
               | Str (String c _) => Str (String c "")
               | _ => Undefined
               end in
  bind (member first "source_page") (fun page =>
  ret (ToString page))).

(** lodash's [groupBy( shabads, iteratee )]. *)
Definition group_shabad (pages : Object) (s : Value) : Result Object :=
  bind (page_of s) (fun key =>
  if has key pages then
    match get key pages with
    | Arr group => ret (replace key (Arr (group ++ [s])) pages)
    | _ => ret pages
    end
  else ret (set key (Arr [s]) pages)).

Definition groupBy (l : list Value) : Result Object :=
  foldM group_shabad l [].

Definition items (v : Value) : list Value :=
  match v with
  | Arr l => l
  | _ => []
  end.

(** The callback of the [reduce] that groups by pages. *)
Definition group_source (acc : Object) (entry : string * Value) : Result Object :=
  bind (groupBy (items (snd entry))) (fun pages =>
  ret (set (fst entry) (Obj pages) (spread acc []))).

(** The label of a page of a source: the page padded to the length of the
    last key of the pages. *)
Definition page_label (pages : Object) (page : string) : string :=
  padStart (length (last (keys pages) "")) page.

(** The callback of the [forEach] that writes a source. *)
Definition write_source (w : World) (entry : string * Value) : World :=
  let source := fst entry in
  let pages := ownProps (snd entry) in
  let w := console_log Plain ("Compiling shabads for " ++ source) w in
  let w := createDir (TMP_DIR ++ "/" ++ source) w in
  fold_left
    (fun w page => saveData (source ++ "/" ++ page_label pages (fst page)) (snd page) (Bool false) w)
    pages w.

(** The three stages before anything is written. *)
Definition compile_pages (sources : list source_input) : Result Object :=
  bind (foldM compile_source_shabads sources []) (fun by_source =>
  foldM group_source by_source []).

(** [processLines]: the world it leaves, and the error it is rejected
    with, if any. *)
Definition processLines (sources : list source_input) (w : World) : World * option Error :=
  let w := console_log Subheader (newline ++ "Processing lines") w in
  match compile_pages sources with
  | inl e => (w, Some e)
  | inr by_page => (fold_left write_source by_page w, None)
  end.

End Lines.

(** The object literal of the shabad callback, before its keys are
    converted. *)
Definition shabad_literal (s : Object) (writer section : Value) : Object :=
  set "subsection" (or_ (and_nameEnglish (get "subsection" s)) Null)
    (set "section" section
       (set "writer" writer
          (set "subsectionId" Undefined
             (set "orderId" Undefined
                (set "sectionId" Undefined
                   (set "sourceId" Undefined
                      (set "writerId" Undefined (spread s [])))))))).

(** The pages of a source by their numbers: the groups of [groupBy] whose
    keys are page numbers, in the order of the keys. *)
Definition render_pages (view : list (N * list Value)) : Object :=
  map (fun pg => (N_toString (fst pg), Arr (snd pg))) view.

(** Filing a shabad under its page number, the pages kept ascending. *)
Fixpoint add_page (p : N) (s : Value) (view : list (N * list Value)) : list (N * list Value) :=
  match view with
  | [] => [(p, [s])]
  | (q, g) :: view' =>
      if (p =? q)%N then (q, (g ++ [s])%list) :: view'
      else if (p <? q)%N then (p, [s]) :: view
      else (q, g) :: add_page p s view'
  end.

(** The pages are in ascending order, each an array index. *)
Definition ascending (view : list (N * list Value)) : Prop :=
  StronglySorted N.lt (map fst view) /\ Forall (fun q => (q < 4294967295)%N) (map fst view).

(** Every shabad filed under a page has its first line on that page. *)
Definition filed_by_page (view : list (N * list Value)) : Prop :=
  Forall (fun pg => Forall (fun s => page_of s = inr (N_toString (fst pg))) (snd pg)) view.

(** The file a page of a source is saved as. *)
Definition page_file (source : string) (pages : Object) (page : string * Value)
  : string * Value :=
  (TMP_DIR ++ "/" ++ (source ++ "/" ++ page_label pages (fst page)) ++ ".json",
   JSON_tree (snd page)).


(** The first line of a shabad is on page [p], a number the engine lists
    among the array indices. *)
Definition on_page (s : Value) (p : N) : Prop :=
  page_of s = inr (N_toString p) /\ (p < 4294967295)%N.

(** The shabad [s] starts on page [p]: it has lines, and the first of them
    has the number [p] as its [source_page], a number the engine lists
    among the array indices. *)
Definition starts_on_page (s : Value) (p : N) : Prop :=
  exists props fields rest,
    s = Obj props
    /\ get "lines" props = Arr (Obj fields :: rest)
    /\ get "source_page" fields = Num (Z.of_N p)
    /\ (p < 4294967295)%N.


(** The key a content row is filed under: the name of its publication. *)
Definition content_key (row : content_row) : Result string :=
  bind (member (content_publication row) "nameEnglish") (fun name => ret (ToString name)).

(** The keys a translation row is filed under: the name of the language of
    its source, then the name of its source. *)
Definition translation_key (row : translation_row) : Result (string * string) :=
  bind (member (translationSource row) "language") (fun language =>
  bind (member language "nameEnglish") (fun languageName =>
  bind (member (translationSource row) "nameEnglish") (fun translationSourceName =>
  ret (ToString languageName, ToString translationSourceName)))).

(** The [additional_information] of a translation row decodes. *)
Definition decodes (row : translation_row) : Prop :=
  exists info, JSON_parse (ToString (get "additionalInformation" (translation row))) = inr info.

(** The [additional_information] of a translation row does not decode. *)
Definition malformed (row : translation_row) : Prop :=
  exists e, JSON_parse (ToString (get "additionalInformation" (translation row))) = inl e.

(** A line, a shabad, a source, a dataset with a malformed translation
    row. *)
Definition line_malformed (row : line_row) : Prop :=
  Exists malformed (line_translations row).

Definition shabad_malformed (s : shabad_input) : Prop :=
  Exists line_malformed (shabad_lines s).

Definition source_malformed (source : source_input) : Prop :=
  Exists shabad_malformed (shabads source).

Definition has_malformed (sources : list source_input) : Prop :=
  Exists source_malformed sources.

(** The leaf a translation row is filed as: the rest of the row with its
    [additionalInformation] replaced by the decoded value [info], keys
    converted. *)
Definition translation_leaf (snakeCase : string -> string) (row : translation_row)
  (info : Value) : Value :=
  Obj (snakeCaseKeys snakeCase
         (Obj (set "additionalInformation" info (spread (translation row) [])))).

(** What a two-level mapping holds under [l] then [t]. *)
Definition leaf_value (v : Value) (l t : string) : Value :=
  get t (ownProps (get l (ownProps v))).

(** The leaf of the last translation row filed under [l] then [t]. *)
Definition last_leaf (snakeCase : string -> string) (l t : string)
  (rows : list translation_row) (found : Value) : Value :=
  fold_left
    (fun found row =>
       match translation_key row,
             JSON_parse (ToString (get "additionalInformation" (translation row))) with
       | inr (l', t'), inr info =>
           if (l' =? l) && (t' =? t) then translation_leaf snakeCase row info else found
       | _, _ => found
       end)
    rows found.

(** The rendering of the last content row filed under a name. *)
Definition last_content (name : string) (rows : list content_row) : Value :=
  fold_left
    (fun found row =>
       match content_key row with
       | inr n => if n =? name then content_gurmukhi row else found
       | inl _ => found
       end)
    rows Undefined.

(** A two-level mapping is well formed: no key twice, at either level. *)
Definition two_level (v : Value) : Prop :=
  NoDup (keys (ownProps v))
  /\ forall l, NoDup (keys (ownProps (get l (ownProps v)))).

(** [v] has a leaf under [l] then [t]. *)
Definition leaf (v : Value) (l t : string) : bool :=
  has t (ownProps (get l (ownProps v))).

(** The leaves of a two-level mapping, each by its outer and inner key. *)
Definition leaf_paths (v : Value) : list (string * string) :=
  flat_map (fun kv => map (pair (fst kv)) (keys (ownProps (snd kv)))) (ownProps v).

Definition path_dec (a b : string * string) : {a = b} + {a <> b}.
Proof. decide equality; apply string_dec. Defined.

(** The join columns the shabad callback blanks, as they are named in the
    output. *)
Definition join_keys : list string :=
  ["writer_id"; "source_id"; "section_id"; "subsection_id"; "order_id"].

(** The names the shabad callback writes, and what the key conversion is
    to make of them. *)
Definition shabad_names : list (string * string) :=
  [("writerId", "writer_id"); ("sourceId", "source_id"); ("sectionId", "section_id");
   ("orderId", "order_id"); ("subsectionId", "subsection_id");
   ("writer", "writer"); ("section", "section"); ("subsection", "subsection")].

Definition converts_shabad_names (snakeCase : string -> string) : Prop :=
  Forall (fun n => snakeCase (fst n) = snd n) shabad_names.

(** No other property of the row is converted to one of those names. *)
Definition converts_apart (snakeCase : string -> string) (row : Object) : Prop :=
  forall k n, In k (keys row) -> In n shabad_names -> snakeCase k = snd n -> k = fst n.

(** The same rows in another order of retrieval, level by level. *)
Definition same_section (a b : section_row) : Prop :=
  section_id a = section_id b
  /\ section_sourceId a = section_sourceId b
  /\ section_rest a = section_rest b
  /\ PermutationA eq (subsections a) (subsections b).

Definition same_source (a b : source_row) : Prop :=
  source_id a = source_id b
  /\ source_rest a = source_rest b
  /\ PermutationA same_section (sections a) (sections b).

(** No other property of [o] has its name converted to what [k] is
    converted to. *)
Definition key_apart (snakeCase : string -> string) (k : string) (o : Object) : Prop :=
  forall k', In k' (keys o) -> snakeCase k' = snakeCase k -> k' = k.

(** The ids are keys: no two rows of a collection share one. *)
Definition section_keyed (s : section_row) : Prop :=
  NoDup (map subsection_id (subsections s)).

Definition source_keyed (s : source_row) : Prop :=
  NoDup (map section_id (sections s)) /\ Forall section_keyed (sections s).

Definition sources_keyed (l : list source_row) : Prop :=
  NoDup (map source_id l) /\ Forall source_keyed l.

(** [range] is the boundary of the line group [g] in the membership [m]:
    the ids of the member of [g] with the least [order_id] and of the one
    with the greatest. *)
Definition boundary_range (m : list ordered_row) (g : Z) (range : Z * Z) : Prop :=
  exists first last,
    In first m /\ In last m
    /\ line_group first = g /\ line_group last = g
    /\ (forall t, In t m -> line_group t = g ->
          (order_id first <= order_id t <= order_id last)%Z)
    /\ range = (line_id first, line_id last).

(** An engine that takes the row of a group it visited last. *)
Definition pick_last (r : ordered_row * ordered_row) (rest : list (ordered_row * ordered_row))
  : ordered_row * ordered_row :=
  last rest r.

(** The pair of boundary rows the joins find for a line group. *)
Definition boundary_rows (m : list ordered_row) (g : Z) (j : ordered_row * ordered_row) : Prop :=
  In (fst j) m /\ In (snd j) m
  /\ line_group (fst j) = g /\ line_group (snd j) = g
  /\ forall t, In t m -> line_group t = g ->
       (order_id (fst j) <= order_id t <= order_id (snd j))%Z.

(** An engine that takes the row of a group it visited first. *)
Definition pick_first (r : ordered_row * ordered_row) (rest : list (ordered_row * ordered_row))
  : ordered_row * ordered_row :=
  r.


(** *** processTranslationSources *)

(** A translation source with its relations, as the callback takes it
    apart: [{ id, sourceId, languageId, language, source, ...rest }]. *)
Record translation_source_row : Type := mkTranslationSource {
  ts_id : Value;
  ts_sourceId : Value;
  ts_languageId : Value;
  ts_language : Value;
  ts_source : Value;
  ts_rest : Object
}.

(** The names the parameter pattern reads:
    [language: { nameEnglish: languageName }], then
    [source: { nameEnglish: sourceName }]. *)
Definition translation_source_names (row : translation_source_row)
  : Result (Value * Value) :=
  bind (member (ts_language row) "nameEnglish") (fun languageName =>
  bind (member (ts_source row) "nameEnglish") (fun sourceName =>
  ret (languageName, sourceName))).

(** [`Compiling ${rest.nameEnglish} - ${languageName} for ${sourceName}`]. *)
Definition compiling_translation_source
  (row : translation_source_row) (names : Value * Value) : Style * string :=
  (Plain,
   "Compiling " ++ ToString (get "nameEnglish" (ts_rest row))
     ++ " - " ++ ToString (fst names) ++ " for " ++ ToString (snd names)).

(** [{ ...rest, source: sourceName, language: languageName }]. *)
Definition compiled_translation_source
  (row : translation_source_row) (names : Value * Value) : Value :=
  Obj (set "language" (fst names) (set "source" (snd names) (spread (ts_rest row) []))).

(** The [map] over the translation sources: a row is taken apart, its
    message is written and its object joins the array; the first row that
    cannot be taken apart ends the loop with the error. *)
Fixpoint compile_translation_sources
  (rows : list translation_source_row) (w : World) (done : list Value)
  : World * Result (list Value) :=
  match rows with
  | [] => (w, ret done)
  | row :: rows' =>
      match translation_source_names row with
      | inl e => (w, throw e)
      | inr names =>
          let message := compiling_translation_source row names in
          let w := console_log (fst message) (snd message) w in
          compile_translation_sources rows' w
            (done ++ [compiled_translation_source row names])%list
      end
  end.

Section TranslationSources.

Variable snakeCase : string -> string.

(** [processTranslationSources], from the rows the eager query returned:
    the world it leaves, and the error it is rejected with, if any. *)
Definition processTranslationSources (rows : list translation_source_row) (w : World)
  : World * option Error :=
  let w := console_log Subheader (newline ++ "Processing translation sources") w in
  match compile_translation_sources rows w [] with
  | (w, inl e) => (w, Some e)
  | (w, inr data) =>
      let data := values (snakeCaseKeys snakeCase (Arr data)) in
      (saveData "translation_sources" (Arr data) Undefined w, None)
  end.

End TranslationSources.

(** *** processSimpleTables *)

(** A row of a table, as the callback takes it apart: [{ id, ...data }]. *)
Record table_row : Type := mkRow {
  row_id : Z;
  row_data : Object
}.

(** [knex( tableName )]: the rows of a table, in storage order. *)
Definition Database : Type := string -> list table_row.

(** [getTable( tableName )]: the table ordered by its id. *)
Definition getTable (db : Database) (tableName : string) : list table_row :=
  sort_by (fun a b => (row_id a <=? row_id b)%Z) (db tableName).

Definition simpleTables : list string :=
  ["writers"; "languages"; "line_types"; "publications"].

(** [processSimpleTables]: the four headings are written as the queries
    start; each table is then saved without the ids.  The saves are started
    in the order of the tables and not awaited; each is taken to its end
    where it starts. *)
Definition processSimpleTables (db : Database) (w : World) : World :=
  let w := fold_left (fun w name => console_log Subheader ("Processing " ++ name) w)
             simpleTables w in
  let fetched := map (fun name => (name, getTable db name)) simpleTables in
  let stripped :=
    map (fun nd => (fst nd, map (fun row => Obj (row_data row)) (snd nd))) fetched in
  fold_left (fun w nd => saveData (fst nd) (Arr (snd nd)) Undefined w) stripped w.

(** *** What the properties speak of *)

(** A relation that was not loaded. *)
Definition unloaded (v : Value) : Prop := v = Undefined \/ v = Null.

(** The key conversion leaves the indices of an array as they are. *)
Definition keeps_indices (snakeCase : string -> string) : Prop :=
  forall i : N, snakeCase (N_toString i) = N_toString i.

(** The conversion of the elements of an array onto the new object, from
    the index [i] on. *)
Fixpoint convert_items (snakeCase : string -> string) (i : N) (xs : list Value)
  (target : Object) : Object :=
  match xs with
  | [] => target
  | x :: xs' =>
      convert_items snakeCase (N.succ i) xs'
        (set (snakeCase (N_toString i)) (deep_value snakeCase x) target)
  end.

(** The shabads filed on page [q], of shabads paired with their pages. *)
Definition on_page_shabads (q : N) (paged : list (Value * N)) : list Value :=
  map fst (filter (fun sp => (snd sp =? q)%N) paged).

(** The pages of a source, its shabads filed one after the other. *)
Definition file_pages (paged : list (Value * N)) (view : list (N * list Value))
  : list (N * list Value) :=
  fold_left (fun view sp => add_page (snd sp) (fst sp) view) paged view.

(** What is filed under a name after the sources: the shabads of the last
    source of that name. *)
Definition last_source (compile : shabad_input -> Result Value) (name : string)
  (sources : list source_input) (found : Value) : Value :=
  fold_left
    (fun found s =>
       if ToString (nameEnglish s) =? name then
         match mapM compile (shabads s) with
         | inr compiled => Arr compiled
         | inl _ => found
         end
       else found)
    sources found.

(** A shabad whose writer or section was not loaded. *)
Definition shabad_unloaded (s : shabad_input) : Prop :=
  unloaded (get "writer" (shabad s)) \/ unloaded (get "section" (shabad s)).

(** The keys of the tables a bani is compiled from: no two lines share an
    [order_id], and the bani lists a line once. *)
Definition bani_keyed (t : BaniTables) (bani : Z) : Prop :=
  NoDup (map l_order_id (lines t))
  /\ NoDup (map bl_line_id (filter (fun bl => (bl_bani_id bl =? bani)%Z) (bani_lines t))).

(** The same three tables, their rows stored in another order. *)
Definition same_tables (t1 t2 : BaniTables) : Prop :=
  Permutation (banis t1) (banis t2)
  /\ Permutation (bani_lines t1) (bani_lines t2)
  /\ Permutation (lines t1) (lines t2).

End BuildJson.

(* ================================================================== *)
(** ** Sample data *)
(* ================================================================== *)

Module Examples.

Import JS BuildJson.


(** A membership that lists the line of [order_id] 6 in two line groups. *)
Definition shared_line : list ordered_row :=
  [mkOrdered 5 105 1; mkOrdered 6 106 1; mkOrdered 6 106 2; mkOrdered 7 107 2].

Definition five_lines : list lines_row :=
  [mkLineRow 105 5; mkLineRow 106 6; mkLineRow 107 7; mkLineRow 108 8; mkLineRow 109 9].


(** The same bani holding the five lines. *)
Definition gapless : BaniTables :=
  mkBaniTables [mkBani 1 [("name_english", Str "Japji Sahib")]]
    [mkBaniLine 1 105 1; mkBaniLine 1 106 1; mkBaniLine 1 107 1;
     mkBaniLine 1 108 1; mkBaniLine 1 109 1]
    five_lines.


(** A model of the key conversion on camelCase names: an upper-case letter
    becomes an underscore and the letter in lower case. *)
Fixpoint snake (s : string) : string :=
  match s with
  | "" => ""
  | String c s' =>
      let n := N_of_ascii c in
      if (65 <=? n)%N && (n <=? 90)%N
      then String "_" (String (ascii_of_N (n + 32)) (snake s'))
      else String c (snake s')
  end.

Definition name (n : string) : Value := Obj [("id", Num 1); ("nameEnglish", Str n)].

Definition translation_of (line_ source : Z) (language source_name info : string)
  : translation_row :=
  mkTranslation (Num source) (Num line_)
    (Obj [("id", Num source); ("nameEnglish", Str source_name); ("language", name language)])
    [("translation", Str "text"); ("additionalInformation", Str info)].

Definition line_of (id_ page : Z) (translations : list translation_row) : line_row :=
  mkLine Null translations
    [mkContent (Str "siq nwmu") (name "SttM"); mkContent (Str "siq nwm") (name "SGPC")]
    [("id", Num id_); ("sourcePage", Num page); ("sourceLine", Num 1)].

Definition shabad_of (id_ : Z) (subsection : Value) (lines_ : list line_row) : shabad_input :=
  mkShabad
    [("id", Num id_); ("sttmId", Num 7); ("writerId", Num 1); ("sectionId", Num 2);
     ("subsectionId", Null); ("sourceId", Num 1); ("orderId", Num id_);
     ("writer", name "Guru Nanak Dev Ji"); ("section", name "Jap"); ("subsection", subsection)]
    lines_.


(** Two datasets of one line each, the line holding one translation whose
    [additional_information] is the text [{]; the line and the translation
    source differ from one dataset to the other. *)
Definition broken_line (id_ source : Z) (source_name : string) : line_row :=
  line_of id_ 1 [translation_of id_ source "English" source_name "{"].

Definition broken (id_ source : Z) (source_name : string) : list source_input :=
  [mkSourceInput [shabad_of 1 Null [broken_line id_ source source_name]]
     (Str "Sri Guru Granth Sahib Ji")].

(** A hierarchy of two sources, retrieved in two orders. *)
Definition subsection_of (id_ : Z) (n : string) : subsection_row :=
  mkSubsection id_ (Num 1) [("nameEnglish", Str n)].

Definition section_of (id_ : Z) (n : string) (subs : list subsection_row) : section_row :=
  mkSection id_ (Num 1) subs [("nameEnglish", Str n)].

Definition retrieval_one : list source_row :=
  [mkSource 1
     [section_of 1 "Jap" [subsection_of 1 "Pauri"; subsection_of 2 "Salok"];
      section_of 2 "So Dar" []]
     [("nameEnglish", Str "Sri Guru Granth Sahib Ji")];
   mkSource 2 [] [("nameEnglish", Str "Sri Dasam Granth")]].

Definition retrieval_two : list source_row :=
  [mkSource 2 [] [("nameEnglish", Str "Sri Dasam Granth")];
   mkSource 1
     [section_of 2 "So Dar" [];
      section_of 1 "Jap" [subsection_of 2 "Salok"; subsection_of 1 "Pauri"]]
     [("nameEnglish", Str "Sri Guru Granth Sahib Ji")]].

(** A compiled shabad whose first line is on a page. *)
Definition paged (id_ page : Z) : Value :=
  Obj [("id", Num id_); ("lines", Arr [Obj [("id", Num id_); ("source_page", Num page)]])].

(** A compiled shabad of two lines, the second on another page than the
    first. *)
Definition run_on (id_ first_page last_page : Z) : Value :=
  Obj [("id", Num id_);
       ("lines", Arr [Obj [("id", Num id_); ("source_page", Num first_page)];
                      Obj [("id", Num (id_ + 100)); ("source_page", Num last_page)]])].

(** Three shabads that start on the pages 3, 42 and 3 and end on others. *)
Definition pages_run_on : list Value := [run_on 1 3 4; run_on 2 42 43; run_on 3 3 42].

(** The specification's two scenarios for page labels. *)
Definition pages_3_42 : list Value := [paged 1 3; paged 2 42; paged 3 3].
Definition pages_1_120 : list Value := [paged 1 1; paged 2 120].

(** The first shabad of [granth], its lines, and the lines compiled. *)
Definition first_shabad : shabad_input :=
  shabad_of 1 Null [line_of 1 3 [translation_of 1 1 "English" "Dr. Sant Singh Khalsa" "{}";
                                 translation_of 1 2 "Punjabi" "Prof. Sahib Singh" "{}"]].

Definition first_line : line_row :=
  line_of 1 3 [translation_of 1 1 "English" "Dr. Sant Singh Khalsa" "{}";
               translation_of 1 2 "Punjabi" "Prof. Sahib Singh" "{}";
               translation_of 1 1 "English" "Dr. Sant Singh Khalsa" "{}"].

Definition first_lines_compiled : list Value :=
  match mapM (compile_line snake) (shabad_lines first_shabad) with
  | inr compiled => compiled
  | inl _ => []
  end.

(** One bani of two line groups: the lines of [order_id] 5 and 6 in line
    group 2, those of [order_id] 8 and 9 in line group 1. *)
Definition two_groups : BaniTables :=
  mkBaniTables [mkBani 1 [("name_english", Str "Japji Sahib")]]
    [mkBaniLine 1 105 2; mkBaniLine 1 106 2; mkBaniLine 1 108 1; mkBaniLine 1 109 1]
    five_lines.

(** The tables of [gapless], their rows stored in another order. *)
Definition gapless_stored_again : BaniTables :=
  mkBaniTables [mkBani 1 [("name_english", Str "Japji Sahib")]]
    [mkBaniLine 1 109 1; mkBaniLine 1 108 1; mkBaniLine 1 107 1;
     mkBaniLine 1 106 1; mkBaniLine 1 105 1]
    [mkLineRow 109 9; mkLineRow 108 8; mkLineRow 107 7; mkLineRow 106 6; mkLineRow 105 5].

(** Two translation sources, as the query returned them, the second by id
    first. *)
Definition translation_source_of (id_ : Z) (n language source : string)
  : translation_source_row :=
  mkTranslationSource (Num id_) (Num 1) (Num 1) (name language) (name source)
    [("nameEnglish", Str n)].

Definition two_translation_sources : list translation_source_row :=
  [translation_source_of 2 "Prof. Sahib Singh" "Punjabi" "Sri Guru Granth Sahib Ji";
   translation_source_of 1 "Dr. Sant Singh Khalsa" "English" "Sri Guru Granth Sahib Ji"].

(** A translation source whose language was not loaded. *)
Definition without_language : translation_source_row :=
  mkTranslationSource (Num 3) (Num 1) (Num 9) Null (name "Sri Guru Granth Sahib Ji")
    [("nameEnglish", Str "Bhai Manmohan Singh")].

(** A database of two writers and one language, stored in two orders. *)
Definition stored : Database :=
  fun table =>
    if table =? "writers"
    then [mkRow 2 [("name_english", Str "Guru Angad Dev Ji")];
          mkRow 1 [("name_english", Str "Guru Nanak Dev Ji")]]
    else if table =? "languages" then [mkRow 1 [("name_english", Str "English")]]
    else [].

Definition stored_again : Database :=
  fun table =>
    if table =? "writers"
    then [mkRow 1 [("name_english", Str "Guru Nanak Dev Ji")];
          mkRow 2 [("name_english", Str "Guru Angad Dev Ji")]]
    else if table =? "languages" then [mkRow 1 [("name_english", Str "English")]]
    else [].

(** A shabad whose writer was not loaded. *)
Definition without_writer : shabad_input :=
  mkShabad [("id", Num 1); ("writer", Null); ("section", name "Jap")] [line_of 1 1 []].

(** Two sources of one name, and what they compile to. *)
Definition one_name_twice : list source_input :=
  [mkSourceInput [shabad_of 1 Null [line_of 1 3 []]] (Str "Sri Guru Granth Sahib Ji");
   mkSourceInput [shabad_of 2 Null [line_of 2 4 []]] (Str "Sri Guru Granth Sahib Ji")].

Definition one_name_twice_compiled : Object :=
  match foldM (compile_source_shabads snake) one_name_twice [] with
  | inr by_source => by_source
  | inl _ => []
  end.

(** A character of two bytes, U+0192. *)
Definition florin : string := String (ascii_of_nat 198) (String (ascii_of_nat 146) "").

(** A source whose first shabad has a translation that does not decode and
    whose second shabad has no writer. *)
Definition malformed_then_unloaded : list source_input :=
  [mkSourceInput [shabad_of 1 Null [broken_line 1 1 "Dr. Sant Singh Khalsa"]; without_writer]
     (Str "Sri Guru Granth Sahib Ji")].


End Examples.

(* ================================================================== *)
(** * Properties *)
(* ================================================================== *)

(** ** The query builder *)

Section SearchFacts.
Import JS Search.

Lemma append_assoc' (a b c : string) : (a ++ b) ++ c = a ++ (b ++ c).
Proof. induction a as [|x a IH]; simpl; [reflexivity | now rewrite IH]. Qed.

Lemma append_nil_r' (a : string) : a ++ "" = a.
Proof. induction a as [|x a IH]; simpl; [reflexivity | now rewrite IH]. Qed.

Lemma words_from_word (w : string) :
  forall cur s, no_blank w = true -> words_from cur (w ++ s) = words_from (cur ++ w) s.
Proof.
  induction w as [|c w IH]; intros cur s Hw; simpl in *.
  - now rewrite append_nil_r'.
  - apply andb_prop in Hw as [Hc Hw].
    destruct (Ascii.eqb c " "); [discriminate|].
    rewrite IH by assumption. now rewrite append_assoc'.
Qed.

Lemma words_column (f s : string) :
  one_word f = true ->
  words_from "" (f ++ String " " s) = f :: words_from "" s.
Proof.
  unfold one_word. intros H. apply andb_prop in H as [Hne Hnb].
  rewrite words_from_word by assumption. simpl.
  unfold flush. destruct (f =? ""); [discriminate | reflexivity].
Qed.

Lemma orderResults_sql this search field :
  orders (orderResults this search field) = (orders this ++ [ranking search field])%list.
Proof.
  unfold orderResults, orderBy, reduce_i, ranking, ranking_sql. simpl. do 2 f_equal. f_equal.
  repeat (rewrite !append_assoc'; simpl). reflexivity.
Qed.

Lemma compile_ranking ceq search field :
  one_word field = true ->
  compile_order ceq (ranking search field)
  = Some (fun r => match_class ceq search (r field)).
Proof.
  intros Hf. unfold compile_order, parse_case, words, ranking, ranking_sql. simpl.
  rewrite (words_column field _ Hf). simpl.
  rewrite (words_column field _ Hf). simpl.
  rewrite (words_column field _ Hf). simpl.
  reflexivity.
Qed.

Lemma insert_by_perm {A} (leb : A -> A -> bool) x l :
  Permutation (insert_by leb x l) (x :: l).
Proof.
  induction l as [|y l IH]; simpl; [reflexivity|].
  destruct (leb x y); [reflexivity|].
  rewrite IH. apply perm_swap.
Qed.

Lemma sort_by_perm {A} (leb : A -> A -> bool) l : Permutation (sort_by leb l) l.
Proof.
  induction l as [|x l IH]; simpl; [reflexivity|].
  rewrite insert_by_perm. now constructor.
Qed.

Lemma sort_by_const {A} (l : list A) : sort_by (fun _ _ => true) l = l.
Proof.
  induction l as [|x l IH]; simpl; [reflexivity|].
  rewrite IH. destruct l; reflexivity.
Qed.

Lemma sort_by_ext {A} (f g : A -> A -> bool) (l : list A) :
  (forall a b, f a b = g a b) -> sort_by f l = sort_by g l.
Proof.
  intros Hfg. induction l as [|x l IH]; simpl; [reflexivity|].
  rewrite IH. generalize (sort_by g l). intros m.
  induction m as [|y m IHm]; simpl; [reflexivity|].
  now rewrite Hfg, IHm.
Qed.

Section SortedBy.
Context {A : Type} (le : A -> A -> Prop) (leb : A -> A -> bool).
Hypothesis leb_le : forall a b, leb a b = true -> le a b.
Hypothesis leb_ge : forall a b, leb a b = false -> le b a.
Hypothesis le_trans : forall a b c, le a b -> le b c -> le a c.

Lemma insert_by_sorted x l :
  StronglySorted le l -> StronglySorted le (insert_by leb x l).
Proof.
  induction l as [|y l IH]; intros Hs; simpl.
  - repeat constructor.
  - inversion Hs as [|? ? Hl Hy]; subst.
    destruct (leb x y) eqn:E.
    + constructor; [assumption|]. constructor; [now apply leb_le|].
      eapply Forall_impl; [|exact Hy]. intros z Hz.
      apply (le_trans x y z); [now apply leb_le | assumption].
    + constructor; [now apply IH|].
      eapply Permutation_Forall; [symmetry; apply insert_by_perm|].
      constructor; [now apply leb_ge | assumption].
Qed.

Lemma sort_by_sorted l : StronglySorted le (sort_by leb l).
Proof.
  induction l as [|x l IH]; simpl; [constructor | now apply insert_by_sorted].
Qed.
End SortedBy.

Lemma like_wildcard_free ceq (p : string) :
  wildcard_free p = true -> forall t, like ceq p t = same_text ceq p t.
Proof.
  induction p as [|c p IH]; intros Hp t; simpl in *.
  - destruct t; reflexivity.
  - apply andb_prop in Hp as [Hp Hw]. apply andb_prop in Hp as [Hc1 Hc2].
    destruct (Ascii.eqb c "%"); [discriminate|].
    destruct (Ascii.eqb c "_"); [discriminate|].
    destruct t as [|d t]; [reflexivity|]. now rewrite IH.
Qed.

Lemma same_text_eqb (a : string) : forall b, same_text Ascii.eqb a b = (a =? b).
Proof.
  induction a as [|x a IH]; intros [|y b]; reflexivity.
Qed.

Lemma isAscii_spec (s : string) :
  isAscii s = true <-> Forall (fun c => (N_of_ascii c <= 127)%N) (list_ascii_of_string s).
Proof.
  induction s as [|c s IH]; simpl.
  - split; [constructor | reflexivity].
  - rewrite andb_true_iff, IH, N.leb_le. split.
    + intros [? ?]; now constructor.
    + intros H; inversion H; subst; now split.
Qed.

Section SearchProperties.
Variable toAscii : string -> string.

Lemma genericSearch_wheres this search field flag :
  wheres (genericSearch toAscii this search field flag) =
  (wheres this ++ [mkWhere field LIKE ("%" ++ normalized toAscii search ++ "%")])%list.
Proof.
  unfold genericSearch, normalized.
  destruct (truthy (default (Bool true) flag)), (isAscii search); reflexivity.
Qed.

Lemma genericSearch_orders this search field flag :
  orders (genericSearch toAscii this search field flag) =
  if truthy (default (Bool true) flag)
  then (orders this ++ [ranking (normalized toAscii search) field])%list
  else orders this.
Proof.
  unfold genericSearch, normalized.
  destruct (truthy (default (Bool true) flag)).
  - rewrite orderResults_sql. destruct (isAscii search); reflexivity.
  - reflexivity.
Qed.

Lemma hits_of_search ceq search field flag table :
  filter (fun r => forallb (where_holds ceq r)
                     (wheres (genericSearch toAscii query search field flag))) table
  = filter (fun r => like ceq ("%" ++ normalized toAscii search ++ "%") (r field)) table.
Proof.
  rewrite genericSearch_wheres. apply filter_ext. intros r.
  cbn [query wheres app forallb]. rewrite andb_true_r. reflexivity.
Qed.

Lemma execute_plain ceq search field table flag :
  truthy (default (Bool true) flag) = false ->
  execute ceq (genericSearch toAscii query search field flag) table =
  Some (filter (fun r => like ceq ("%" ++ normalized toAscii search ++ "%") (r field)) table).
Proof.
  intros Hflag. unfold execute.
  rewrite hits_of_search, genericSearch_orders, Hflag.
  cbn [query orders compile_orders map keys_leb]. f_equal. apply sort_by_const.
Qed.

Lemma execute_ranked ceq search field table flag :
  truthy (default (Bool true) flag) = true ->
  one_word field = true ->
  execute ceq (genericSearch toAscii query search field flag) table =
  Some (sort_by (fun r1 r2 =>
                   (match_class ceq (normalized toAscii search) (r1 field)
                    <=? match_class ceq (normalized toAscii search) (r2 field))%N)
          (filter (fun r => like ceq ("%" ++ normalized toAscii search ++ "%") (r field)) table)).
Proof.
  intros Hflag Hf. unfold execute.
  rewrite hits_of_search, genericSearch_orders, Hflag.
  cbn [query orders app compile_orders].
  rewrite (compile_ranking ceq _ _ Hf). cbn [map]. f_equal.
  apply sort_by_ext. intros a b. cbn [keys_leb]. rewrite andb_true_r.
  destruct (N.leb_spec (match_class ceq (normalized toAscii search) (a field))
                       (match_class ceq (normalized toAscii search) (b field)));
  destruct (N.ltb_spec (match_class ceq (normalized toAscii search) (a field))
                       (match_class ceq (normalized toAscii search) (b field)));
  destruct (N.eqb_spec (match_class ceq (normalized toAscii search) (a field))
                       (match_class ceq (normalized toAscii search) (b field)));
  simpl; try reflexivity; lia.
Qed.

(** C9.  A search called without the ranking flag is ranked: [fullWord]
    hands the missing flag to [genericSearch], whose default is [true], and
    [firstLetters] has the default itself, so leaving the flag out builds
    the query that passing [true] builds, [ORDER BY] term included. *)
Theorem omitted_flag_ranks (this : QueryBuilder) (term : string) :
  fullWord toAscii this term Undefined = fullWord toAscii this term (Bool true)
  /\ firstLetters toAscii this term Undefined = firstLetters toAscii this term (Bool true)
  /\ orders (fullWord toAscii this term Undefined)
     = (orders this ++ [ranking (normalized toAscii term) "gurmukhi"])%list
  /\ orders (firstLetters toAscii this term Undefined)
     = (orders this ++ [ranking (normalized toAscii term) "first_letters"])%list.
Proof.
  repeat split.
  - unfold fullWord. now rewrite genericSearch_orders.
  - unfold firstLetters. now rewrite genericSearch_orders.
Qed.

(** C8.  The builder first replaces a search string that has a character
    outside ASCII by its transliteration [toAscii], and keeps a string
    within ASCII as it is; the filter pattern and the three ranking
    patterns are all made from that normalized string. *)
Theorem search_term_normalized_first
  (this : QueryBuilder) (search field : string) (flag : Value) :
  let term := if isAscii search then search else toAscii search in
  let q := genericSearch toAscii this search field flag in
  isAscii search = forallb (fun c => (N_of_ascii c <=? 127)%N) (list_ascii_of_string search)
  /\ wheres q = (wheres this ++ [mkWhere field LIKE ("%" ++ term ++ "%")])%list
  /\ orders q =
     if truthy (default (Bool true) flag)
     then (orders this ++
           [mkRaw (ranking_sql field) [term; (term ++ "%")%string; ("%" ++ term ++ "%")%string]])%list
     else orders this.
Proof.
  cbv zeta. split; [|split].
  - induction search as [|c s IH]; simpl; [reflexivity | now rewrite IH].
  - apply genericSearch_wheres.
  - apply genericSearch_orders.
Qed.

(** C1 (as amended).  For every search term and every column named by one
    word, the builder adds the filter [column LIKE %term%] whatever the
    flag; with ranking it adds one [ORDER BY] term, a [CASE] whose value on
    a row is the index of the first of [LIKE term] (0), [LIKE term%] (1),
    [LIKE %term%] (2) that the row satisfies and 3 when it satisfies none;
    the ranked result is a rearrangement of the unranked result, ascending
    in that index.  The term is used as a [LIKE] pattern as it is: class 0
    is the comparison of the whole text with the term, character by
    character as the engine compares them, when the term has no [%] and no
    [_]. *)
Theorem search_filters_and_ranks_by_like_class
  (ceq : ascii -> ascii -> bool) (search field : string) (table : list Row) :
  one_word field = true ->
  let term := normalized toAscii search in
  let contains := fun r : Row => like ceq ("%" ++ term ++ "%") (r field) in
  let class := fun r : Row => match_class ceq term (r field) in
  (forall this flag,
      wheres (genericSearch toAscii this search field flag)
      = (wheres this ++ [mkWhere field LIKE ("%" ++ term ++ "%")])%list)
  /\ (forall this,
      orders (genericSearch toAscii this search field (Bool true))
      = (orders this ++ [ranking term field])%list)
  /\ compile_order ceq (ranking term field) = Some class
  /\ execute ceq (genericSearch toAscii query search field (Bool false)) table
     = Some (filter contains table)
  /\ (exists ranked,
      execute ceq (genericSearch toAscii query search field (Bool true)) table = Some ranked
      /\ Permutation ranked (filter contains table)
      /\ StronglySorted (fun a b => (class a <= class b)%N) ranked)
  /\ (wildcard_free term = true -> forall text, like ceq term text = same_text ceq term text).
Proof.
  intros Hf term contains class. repeat split.
  - intros this flag. apply genericSearch_wheres.
  - intros this. now rewrite genericSearch_orders.
  - now apply compile_ranking.
  - now apply execute_plain.
  - eexists. split; [now apply execute_ranked|]. split.
    + apply sort_by_perm.
    + apply sort_by_sorted.
      * intros a b H. now apply N.leb_le.
      * intros a b H. apply N.leb_gt in H. subst class term. cbv beta. lia.
      * intros a b c. cbv beta. lia.
  - apply like_wildcard_free.
Qed.

End SearchProperties.

(** The amended C1 at the search of the specification's scenario, in the
    ASCII encoding of the script. *)
Lemma search_filters_and_ranks_by_like_class_witness :
  one_word "gurmukhi" = true
  /\ exists ranked,
      execute Ascii.eqb (genericSearch (fun s => s) query "siq" "gurmukhi" (Bool true))
        [line "hir siq nwmu"; line "siqguru"; line "siq"; line "gur"] = Some ranked
      /\ Permutation ranked
           (filter (fun r : Row => like Ascii.eqb "%siq%" (r "gurmukhi"))
              [line "hir siq nwmu"; line "siqguru"; line "siq"; line "gur"])
      /\ StronglySorted
           (fun a b => (match_class Ascii.eqb "siq" (a "gurmukhi")
                        <= match_class Ascii.eqb "siq" (b "gurmukhi"))%N) ranked.
Proof.
  split; [reflexivity|].
  exact (proj1 (proj2 (proj2 (proj2 (proj2
    (search_filters_and_ranks_by_like_class (fun s => s) Ascii.eqb "siq" "gurmukhi"
       [line "hir siq nwmu"; line "siqguru"; line "siq"; line "gur"] eq_refl)))))).
Defined.

(** C1 as the specification states it fails: for the term [a_] the text
    [ab] is in class 0 without being the term, and it is listed before
    [a_c], which starts with the term. *)
Lemma search_classes_are_not_literal :
  match_class Ascii.eqb "a_" "ab" = 0%N
  /\ "ab" <> "a_"
  /\ exists ranked,
      execute Ascii.eqb (genericSearch (fun s => s) query "a_" "gurmukhi" (Bool true))
        [line "a_c"; line "ab"] = Some ranked
      /\ ~ StronglySorted
             (fun a b => (spec_class "a_" (a "gurmukhi") <= spec_class "a_" (b "gurmukhi"))%N)
             ranked.
Proof.
  split; [reflexivity|]. split; [discriminate|].
  exists [line "ab"; line "a_c"]. split; [reflexivity|].
  intros H. inversion H as [|? ? _ Hall]; subst.
  inversion Hall as [|? ? Hle _]; subst.
  vm_compute in Hle. apply Hle. reflexivity.
Qed.

End SearchFacts.

(** ** Grouping *)

Section GroupByFacts.
Import BuildJson.
Context {K A : Type} (eqb : K -> K -> bool) (key : A -> K).
Hypothesis eqb_eq : forall a b, eqb a b = true <-> a = b.

Lemma eqb_refl' k : eqb k k = true.
Proof. now apply eqb_eq. Qed.

Lemma eqb_neq k k' : k <> k' -> eqb k k' = false.
Proof.
  intros Hne. destruct (eqb k k') eqn:E; [|reflexivity].
  apply eqb_eq in E. contradiction.
Qed.

Lemma push_group_fresh k a (gs : list (K * list A)) :
  ~ In k (map fst gs) -> push_group eqb k a gs = (gs ++ [(k, [a])])%list.
Proof.
  induction gs as [|[k' g] gs IH]; simpl; intros Hk; [reflexivity|].
  rewrite eqb_neq by (intros ->; apply Hk; now left).
  rewrite IH; [reflexivity|]. intros H; apply Hk; now right.
Qed.

Lemma push_group_keys k a (gs : list (K * list A)) :
  In k (map fst gs) -> map fst (push_group eqb k a gs) = map fst gs.
Proof.
  induction gs as [|[k' g] gs IH]; simpl; intros Hk; [contradiction|].
  destruct (eqb k' k) eqn:E; simpl; [reflexivity|].
  f_equal. apply IH. destruct Hk as [->|Hk]; [|assumption].
  now rewrite eqb_refl' in E.
Qed.

Lemma push_group_In k a (gs : list (K * list A)) k' g' :
  NoDup (map fst gs) ->
  In (k', g') (push_group eqb k a gs) ->
  (k' <> k /\ In (k', g') gs)
  \/ (k' = k /\ exists g, In (k, g) gs /\ g' = (g ++ [a])%list)
  \/ (k' = k /\ ~ In k (map fst gs) /\ g' = [a]).
Proof.
  induction gs as [|[k0 g0] gs IH]; simpl; intros Hnd Hin.
  - destruct Hin as [Heq|[]]. inversion Heq; subst. right; right. auto.
  - inversion Hnd as [|? ? Hnotin Hnd']; subst.
    destruct (eqb k0 k) eqn:E.
    + apply eqb_eq in E. subst k0. destruct Hin as [Heq|Hin].
      * inversion Heq; subst. right; left. split; [reflexivity|]. exists g0. auto.
      * left. split; [|now right]. intros ->. apply Hnotin.
        now apply (in_map fst) in Hin.
    + assert (Hne : k0 <> k) by (intros ->; now rewrite eqb_refl' in E).
      destruct Hin as [Heq|Hin].
      * inversion Heq; subst. left. split; [assumption | now left].
      * destruct (IH Hnd' Hin) as [[H1 H2]|[[H1 [g [H2 H3]]]|[H1 [H2 H3]]]].
        -- left. split; [assumption | now right].
        -- right; left. split; [assumption|]. exists g. split; [now right | assumption].
        -- right; right. split; [assumption|]. split; [|assumption].
           intros [H|H]; [now apply Hne | now apply H2].
Qed.

Lemma In_or_not k (ks : list K) : In k ks \/ ~ In k ks.
Proof.
  induction ks as [|k' ks IH]; simpl; [tauto|].
  destruct (eqb k' k) eqn:E.
  - apply eqb_eq in E. auto.
  - assert (k' <> k) by (intros ->; now rewrite eqb_refl' in E). tauto.
Qed.

Lemma filter_other_key k l :
  ~ In k (map key l) -> filter (fun r => eqb (key r) k) l = [].
Proof.
  induction l as [|r l IH]; simpl; intros Hk; [reflexivity|].
  rewrite eqb_neq by tauto. apply IH. tauto.
Qed.

Lemma group_by_snoc l r :
  group_by eqb key (l ++ [r]) = push_group eqb (key r) r (group_by eqb key l).
Proof. unfold group_by. now rewrite fold_left_app. Qed.

Lemma filter_snoc (f : A -> bool) l r :
  filter f (l ++ [r]) = (filter f l ++ if f r then [r] else [])%list.
Proof. rewrite filter_app. reflexivity. Qed.

(** What [group_by] returns: the keys once each; under a key, the rows of
    that key in their order; no key without a row. *)
Lemma group_by_spec l :
  NoDup (map fst (group_by eqb key l))
  /\ (forall k, In k (map fst (group_by eqb key l)) <-> In k (map key l))
  /\ (forall k g, In (k, g) (group_by eqb key l) ->
         g = filter (fun r => eqb (key r) k) l /\ g <> []).
Proof.
  induction l as [|r l IH] using rev_ind.
  - simpl. split; [constructor|]. split; [tauto | contradiction].
  - destruct IH as (Hnd & Hkeys & Hgroups). rewrite group_by_snoc.
    assert (Hcases : In (key r) (map fst (group_by eqb key l))
                     \/ ~ In (key r) (map fst (group_by eqb key l))).
    { apply In_or_not. }
    split; [|split].
    + destruct Hcases as [Hin|Hout].
      * now rewrite push_group_keys.
      * rewrite push_group_fresh, map_app by assumption. simpl.
        apply NoDup_app; [assumption | repeat constructor; intros [] | ].
        intros k Hk [<-|[]]. contradiction.
    + intros k. rewrite map_app, in_app_iff. simpl. destruct Hcases as [Hin|Hout].
      * rewrite push_group_keys by assumption. rewrite Hkeys. split; [tauto|].
        intros [H|[<-|[]]]; [assumption | now apply Hkeys].
      * rewrite push_group_fresh, map_app, in_app_iff by assumption. simpl.
        rewrite Hkeys. tauto.
    + intros k g Hin. rewrite filter_snoc.
      destruct (push_group_In _ _ _ _ _ Hnd Hin) as [[H1 H2]|[[H1 [g0 [H2 H3]]]|[H1 [H2 H3]]]].
      * destruct (Hgroups _ _ H2) as [Hg Hne].
        rewrite (eqb_neq (key r) k) by congruence. now rewrite app_nil_r.
      * subst. destruct (Hgroups _ _ H2) as [Hg Hne]. rewrite eqb_refl'. subst g0.
        split; [reflexivity|]. intros H. now apply app_eq_nil in H as [_ H].
      * subst. rewrite eqb_refl'. split; [|discriminate].
        rewrite filter_other_key; [reflexivity|]. now rewrite <- Hkeys.
Qed.

End GroupByFacts.

Section GroupByDistinct.
Import BuildJson.
Context {K A : Type} (eqb : K -> K -> bool) (key : A -> K).
Hypothesis eqb_eq : forall a b, eqb a b = true <-> a = b.

Lemma group_by_distinct l :
  NoDup (map key l) -> group_by eqb key l = map (fun r => (key r, [r])) l.
Proof.
  induction l as [|r l IH] using rev_ind; intros Hnd; [reflexivity|].
  rewrite map_app in Hnd. simpl in Hnd.
  pose proof (NoDup_remove_1 _ _ _ Hnd) as Hl.
  pose proof (NoDup_remove_2 _ _ _ Hnd) as Hr.
  rewrite app_nil_r in Hl, Hr.
  rewrite group_by_snoc, IH by assumption.
  rewrite (push_group_fresh eqb eqb_eq).
  - now rewrite map_app.
  - now rewrite map_map.
Qed.
End GroupByDistinct.

(** ** processBanis *)

Section BanisFacts.
Import JS BuildJson.

Lemma fold_min_spec l : forall x,
  In (fold_left Z.min l x) (x :: l)
  /\ forall y, In y (x :: l) -> (fold_left Z.min l x <= y)%Z.
Proof.
  induction l as [|a l IH]; intros x; simpl.
  - split; [now left|]. intros y [->|[]]. lia.
  - destruct (IH (Z.min x a)) as [Hin Hle]. split.
    + destruct Hin as [Heq|Hin]; [|auto].
      rewrite <- Heq. destruct (Z.min_spec x a) as [[_ ->]|[_ ->]]; auto.
    + intros y Hy.
      assert (Hm : (fold_left Z.min l (Z.min x a) <= Z.min x a)%Z) by (apply Hle; now left).
      destruct Hy as [->|[->|Hy]]; [lia | lia |]. apply Hle. now right.
Qed.

Lemma fold_max_spec l : forall x,
  In (fold_left Z.max l x) (x :: l)
  /\ forall y, In y (x :: l) -> (y <= fold_left Z.max l x)%Z.
Proof.
  induction l as [|a l IH]; intros x; simpl.
  - split; [now left|]. intros y [->|[]]. lia.
  - destruct (IH (Z.max x a)) as [Hin Hle]. split.
    + destruct Hin as [Heq|Hin]; [|auto].
      rewrite <- Heq. destruct (Z.max_spec x a) as [[_ ->]|[_ ->]]; auto.
    + intros y Hy.
      assert (Hm : (Z.max x a <= fold_left Z.max l (Z.max x a))%Z) by (apply Hle; now left).
      destruct Hy as [->|[->|Hy]]; [lia | lia |]. apply Hle. now right.
Qed.

Lemma min_order_id_spec g :
  g <> [] ->
  exists a, In a g /\ min_order_id g = Some (order_id a)
            /\ forall t, In t g -> (order_id a <= order_id t)%Z.
Proof.
  destruct g as [|r g]; [congruence|]. intros _. simpl.
  destruct (fold_min_spec (map order_id g) (order_id r)) as [Hin Hle].
  change (order_id r :: map order_id g) with (map order_id (r :: g)) in Hin, Hle.
  apply in_map_iff in Hin as [a [Ha Hin]]. exists a. split; [assumption|].
  split; [now rewrite Ha|]. intros t Ht. rewrite Ha. apply Hle. now apply in_map.
Qed.

Lemma max_order_id_spec g :
  g <> [] ->
  exists b, In b g /\ max_order_id g = Some (order_id b)
            /\ forall t, In t g -> (order_id t <= order_id b)%Z.
Proof.
  destruct g as [|r g]; [congruence|]. intros _. simpl.
  destruct (fold_max_spec (map order_id g) (order_id r)) as [Hin Hle].
  change (order_id r :: map order_id g) with (map order_id (r :: g)) in Hin, Hle.
  apply in_map_iff in Hin as [b [Hb Hin]]. exists b. split; [assumption|].
  split; [now rewrite Hb|]. intros t Ht. rewrite Hb. apply Hle. now apply in_map.
Qed.

(** With distinct [order_id]s a join on [order_id] finds one row. *)
Lemma row_of_order (m : list ordered_row) t :
  NoDup (map order_id m) -> In t m ->
  filter (fun x => equals (order_id x) (Some (order_id t))) m = [t].
Proof.
  induction m as [|x m IH]; simpl; intros Hnd Hin; [contradiction|].
  inversion Hnd as [|? ? Hx Hnd']; subst.
  destruct Hin as [->|Hin].
  - rewrite Z.eqb_refl. f_equal.
    apply (filter_other_key Z.eqb order_id Z.eqb_eq). assumption.
  - destruct (Z.eqb_spec (order_id x) (order_id t)) as [E|E].
    + exfalso. apply Hx. rewrite E. now apply in_map.
    + now apply IH.
Qed.

Lemma flat_map_singletons {X Y} (R : X -> Y -> Prop) (f : X -> list Y) l :
  (forall x, In x l -> exists y, f x = [y] /\ R x y) -> Forall2 R l (flat_map f l).
Proof.
  induction l as [|x l IH]; intros H; simpl; [constructor|].
  destruct (H x (or_introl eq_refl)) as [y [-> Hy]]. simpl.
  constructor; [assumption|]. apply IH. intros x' Hx'. apply H. now right.
Qed.

Lemma flat_map_map {X Y W} (f : X -> Y) (g : Y -> list W) l :
  flat_map g (map f l) = flat_map (fun x => g (f x)) l.
Proof. induction l as [|x l IH]; simpl; [reflexivity | now rewrite IH]. Qed.

Lemma Forall2_map_l {X Y W} (R : W -> Y -> Prop) (f : X -> W) l l' :
  Forall2 (fun x y => R (f x) y) l l' -> Forall2 R (map f l) l'.
Proof. induction 1; simpl; constructor; assumption. Qed.

Lemma Forall2_map_r {X Y W} (R : X -> W -> Prop) (f : Y -> W) l l' :
  Forall2 (fun x y => R x (f y)) l l' -> Forall2 R l (map f l').
Proof. induction 1; simpl; constructor; assumption. Qed.

Lemma joined_ranges_spec (m : list ordered_row) :
  NoDup (map order_id m) ->
  Forall2 (fun kg j => boundary_rows m (fst kg) j)
          (group_by Z.eqb line_group m) (joined_ranges m).
Proof.
  intros Hnd. unfold joined_ranges, bani_ranges. rewrite flat_map_map.
  apply flat_map_singletons. intros [g rows] Hin. simpl.
  destruct (group_by_spec Z.eqb line_group Z.eqb_eq m) as (_ & _ & Hgroups).
  destruct (Hgroups _ _ Hin) as [Hrows Hne].
  destruct (min_order_id_spec rows Hne) as (a & Ha & Hmin & Hle).
  destruct (max_order_id_spec rows Hne) as (b & Hb & Hmax & Hge).
  assert (Hmem : forall t, In t rows <-> In t m /\ line_group t = g).
  { intros t. rewrite Hrows, filter_In, Z.eqb_eq. tauto. }
  apply Hmem in Ha as Ha'. apply Hmem in Hb as Hb'.
  exists (a, b). rewrite Hmin, Hmax.
  rewrite (row_of_order m a Hnd) by tauto. rewrite (row_of_order m b Hnd) by tauto.
  split; [reflexivity|]. unfold boundary_rows. simpl. repeat split; try tauto.
  - apply Hle. apply Hmem. tauto.
  - apply Hge. apply Hmem. tauto.
Qed.

Section RangeFacts.
Variable pick : ordered_row * ordered_row -> list (ordered_row * ordered_row)
                -> ordered_row * ordered_row.
Hypothesis pick_In : forall r rest, In (pick r rest) (r :: rest).

Lemma bani_line_ranges_spec (m : list ordered_row) :
  NoDup (map order_id m) ->
  exists groups,
    Permutation groups (map fst (group_by Z.eqb line_group m))
    /\ StronglySorted Z.le groups
    /\ Forall2 (boundary_range m) groups (bani_line_ranges pick m).
Proof.
  intros Hnd. pose proof (joined_ranges_spec m Hnd) as HJ.
  destruct (group_by_spec Z.eqb line_group Z.eqb_eq m) as (HndG & _ & _).
  assert (Hkeys : map (fun j => line_group (fst j)) (joined_ranges m)
                  = map fst (group_by Z.eqb line_group m)).
  { clear HndG. induction HJ as [|kg j G J Hj _ IH]; simpl; [reflexivity|].
    rewrite IH. f_equal. unfold boundary_rows in Hj. tauto. }
  assert (Hrows : Forall (fun j => boundary_rows m (line_group (fst j)) j) (joined_ranges m)).
  { clear HndG Hkeys. induction HJ as [|kg j G J Hj _ IH]; constructor; [|exact IH].
    destruct Hj as (H1 & H2 & H3 & H4 & H5). unfold boundary_rows. rewrite H3. tauto. }
  unfold bani_line_ranges.
  rewrite <- Hkeys in HndG.
  rewrite (group_by_distinct Z.eqb (fun j => line_group (fst j)) Z.eqb_eq (joined_ranges m) HndG).
  rewrite <- Hkeys. clear Hkeys HndG HJ.
  set (G := map (fun r => (line_group (fst r), [r])) (joined_ranges m)).
  set (sorted := sort_by (fun a b => (fst a <=? fst b)%Z) G).
  assert (Hperm : Permutation sorted G) by apply sort_by_perm.
  assert (HG : Forall (fun kg => exists j, snd kg = [j] /\ boundary_rows m (fst kg) j) G).
  { unfold G. clear Hperm sorted G.
    induction Hrows as [|j J Hj _ IH]; simpl; constructor; [|exact IH]. now exists j. }
  assert (Hsorted : Forall (fun kg => exists j, snd kg = [j] /\ boundary_rows m (fst kg) j)
                      sorted).
  { eapply Permutation_Forall; [symmetry; exact Hperm | exact HG]. }
  exists (map fst sorted). split; [|split].
  - replace (map (fun j => line_group (fst j)) (joined_ranges m)) with (map fst G)
      by (unfold G; rewrite map_map; reflexivity).
    now apply Permutation_map.
  - assert (Hs : StronglySorted (fun a b : Z * list (ordered_row * ordered_row) =>
                                   (fst a <= fst b)%Z) sorted).
    { apply sort_by_sorted.
      - intros a b H. now apply Z.leb_le.
      - intros a b H. apply Z.leb_gt in H. lia.
      - intros a b c. lia. }
    clear Hsorted Hperm. induction Hs as [|kg l _ IH Hall]; simpl; constructor; [exact IH|].
    apply Forall_map. exact Hall.
  - clear Hperm. induction Hsorted as [|kg l (j & Hsnd & Hj) _ IH]; simpl; [constructor|].
    rewrite Hsnd. simpl. constructor; [|exact IH].
    destruct (pick_In j []) as [Hp|[]]. rewrite <- Hp.
    destruct Hj as (H1 & H2 & H3 & H4 & H5). exists (fst j), (snd j). tauto.
Qed.

Lemma line_group_ranges (m : list ordered_row) :
  NoDup (map order_id m) ->
  exists groups,
    NoDup groups
    /\ (forall g, In g groups <-> In g (map line_group m))
    /\ Forall2 (boundary_range m) groups (bani_line_ranges pick m).
Proof.
  intros Hnd.
  destruct (group_by_spec Z.eqb line_group Z.eqb_eq m) as (HndG & Hkeys & _).
  destruct (bani_line_ranges_spec m Hnd) as (groups & Hperm & _ & Hranges).
  exists groups. split; [|split; [|exact Hranges]].
  - eapply Permutation_NoDup; [symmetry; exact Hperm | exact HndG].
  - intros g. rewrite <- Hkeys. split; intros Hin.
    + now apply (Permutation_in _ Hperm).
    + now apply (Permutation_in _ (Permutation_sym Hperm)).
Qed.


End RangeFacts.

Lemma pick_last_In r rest : In (pick_last r rest) (r :: rest).
Proof.
  unfold pick_last. destruct rest as [|x rest]; [now left|]. right.
  assert (Hne : x :: rest <> []) by discriminate.
  pose proof (app_removelast_last r Hne) as Hsplit.
  rewrite Hsplit at 2. apply in_or_app. right. now left.
Qed.


Section ConsoleOfBanis.
Variable pick : ordered_row * ordered_row -> list (ordered_row * ordered_row)
                -> ordered_row * ordered_row.

Lemma compile_banis_fold t bs : forall w done,
  fold_left (compile_bani pick t) bs (w, done)
  = (mkWorld (console w ++ map compiling_message bs) (dirs w) (files w),
     (done ++ map (compiled_bani pick t) bs)%list).
Proof.
  induction bs as [|b bs IH]; intros w done; simpl.
  - rewrite !app_nil_r. now destruct w.
  - unfold compile_bani at 2. simpl. rewrite IH. simpl.
    rewrite <- !app_assoc. reflexivity.
Qed.


End ConsoleOfBanis.



End BanisFacts.

(** ** processSources *)

Section SortRespects.
Import JS BuildJson.
Context {A : Type} (same : A -> A -> Prop) (key : A -> Z).
Hypothesis same_refl : forall a, same a a.
Hypothesis same_trans : forall a b c, same a b -> same b c -> same a c.
Hypothesis same_key : forall a b, same a b -> key a = key b.

Let by_key (a b : A) : bool := (key a - key b <=? 0)%Z.

Lemma insert_same x y l l' :
  same x y -> Forall2 same l l' ->
  Forall2 same (insert_by by_key x l) (insert_by by_key y l').
Proof.
  intros Hxy Hl. induction Hl as [|a b l l' Hab Hl IH]; simpl.
  - repeat constructor. assumption.
  - unfold by_key at 1 3. rewrite (same_key _ _ Hxy), (same_key _ _ Hab).
    destruct (key y - key b <=? 0)%Z; repeat constructor; assumption.
Qed.

Lemma insert_swap x y l :
  key x <> key y ->
  insert_by by_key y (insert_by by_key x l) = insert_by by_key x (insert_by by_key y l).
Proof.
  intros Hne. induction l as [|z l IH]; simpl; unfold by_key in *.
  - destruct (Z.leb_spec (key y - key x) 0), (Z.leb_spec (key x - key y) 0);
      try reflexivity; lia.
  - destruct (Z.leb_spec (key x - key z) 0), (Z.leb_spec (key y - key z) 0); simpl;
      destruct (Z.leb_spec (key y - key x) 0), (Z.leb_spec (key x - key y) 0);
      destruct (Z.leb_spec (key x - key z) 0), (Z.leb_spec (key y - key z) 0);
      try reflexivity; try lia.
    all: now rewrite IH.
Qed.

Lemma Forall2_same_refl l : Forall2 same l l.
Proof. induction l; constructor; auto. Qed.

Lemma Forall2_same_trans l1 l2 l3 :
  Forall2 same l1 l2 -> Forall2 same l2 l3 -> Forall2 same l1 l3.
Proof.
  intros H. revert l3. induction H; intros l3 H3; inversion H3; subst; constructor; eauto.
Qed.

Lemma PermutationA_keys l1 l2 :
  PermutationA same l1 l2 -> Permutation (map key l1) (map key l2).
Proof.
  induction 1 as [|x y l l' Hxy _ IH|x y l|l1 l2 l3 _ IH1 _ IH2]; simpl.
  - constructor.
  - rewrite (same_key _ _ Hxy). now constructor.
  - apply perm_swap.
  - now transitivity (map key l2).
Qed.

(** Sorting by a key that no two rows share undoes a reordering. *)
Lemma sort_respects l1 l2 :
  PermutationA same l1 l2 -> NoDup (map key l1) ->
  Forall2 same (Array_sort (fun a b => key a - key b)%Z l1)
               (Array_sort (fun a b => key a - key b)%Z l2).
Proof.
  unfold Array_sort, sort_by. fold by_key.
  induction 1 as [|x y l l' Hxy Hl IH|x y l|l1 l2 l3 H12 IH1 H23 IH2]; intros Hnd; simpl.
  - constructor.
  - inversion Hnd; subst. apply insert_same; auto.
  - rewrite insert_swap; [apply Forall2_same_refl|].
    inversion Hnd as [|? ? Hy _]; subst. intros E. apply Hy. left. now symmetry.
  - eapply Forall2_same_trans; [now apply IH1|]. apply IH2.
    eapply Permutation_NoDup; [|exact Hnd]. now apply PermutationA_keys.
Qed.

Lemma Array_sort_perm l : Permutation (Array_sort (fun a b => key a - key b)%Z l) l.
Proof. apply sort_by_perm. Qed.

Lemma Array_sort_sorted l :
  StronglySorted (fun a b => (key a <= key b)%Z) (Array_sort (fun a b => key a - key b)%Z l).
Proof.
  apply sort_by_sorted.
  - intros a b H. apply Z.leb_le in H. lia.
  - intros a b H. apply Z.leb_gt in H. lia.
  - intros a b c. lia.
Qed.

End SortRespects.

Lemma Forall2_eq_eq {A} (l l' : list A) : Forall2 eq l l' -> l = l'.
Proof. induction 1; congruence. Qed.

Lemma map_same {A B} (same : A -> A -> Prop) (P : A -> Prop) (f : A -> B) l l' :
  (forall a b, same a b -> P a -> f a = f b) ->
  Forall2 same l l' -> Forall P l -> map f l = map f l'.
Proof.
  intros Hf H. induction H as [|a b l l' Hab _ IH]; intros HP; simpl; [reflexivity|].
  inversion HP; subst. f_equal; auto.
Qed.

Section SourcesFacts.
Import JS BuildJson.
Variable snakeCase : string -> string.

Lemma PermutationA_eq_refl {A} (l : list A) : PermutationA eq l l.
Proof. induction l; constructor; auto. Qed.

Lemma same_section_refl a : same_section a a.
Proof. unfold same_section. auto using PermutationA_eq_refl. Qed.

Lemma same_section_trans a b c : same_section a b -> same_section b c -> same_section a c.
Proof.
  unfold same_section. intros (H1 & H2 & H3 & H4) (K1 & K2 & K3 & K4).
  repeat split; try congruence. eapply permA_trans; eassumption.
Qed.

Lemma compile_section_same a b :
  same_section a b -> section_keyed a -> compile_section a = compile_section b.
Proof.
  intros (H1 & H2 & H3 & H4) Hk. unfold compile_section. rewrite H3. do 4 f_equal.
  apply Forall2_eq_eq.
  apply (sort_respects eq subsection_id); auto; congruence.
Qed.

Lemma compile_source_same a b :
  same_source a b -> source_keyed a -> compile_source a = compile_source b.
Proof.
  intros (H1 & H2 & H3) [Hk Hall]. unfold compile_source. rewrite H2. do 2 f_equal. f_equal.
  apply (map_same same_section section_keyed).
  - apply compile_section_same.
  - apply (sort_respects same_section section_id); auto.
    + apply same_section_refl.
    + apply same_section_trans.
    + now intros x y (E & _).
  - eapply Permutation_Forall; [|exact Hall]. symmetry. apply Array_sort_perm.
Qed.

Lemma same_source_refl a : same_source a a.
Proof.
  unfold same_source. repeat split.
  induction (sections a); constructor; auto using same_section_refl.
Qed.

Lemma same_source_trans a b c : same_source a b -> same_source b c -> same_source a c.
Proof.
  unfold same_source. intros (H1 & H2 & H3) (K1 & K2 & K3).
  repeat split; try congruence. eapply permA_trans; eassumption.
Qed.

End SourcesFacts.




(** ** Objects *)

Section ObjectFacts.
Import JS.

Lemma has_In k (o : Object) : has k o = true <-> In k (keys o).
Proof.
  induction o as [|[k' v] o IH]; simpl.
  - split; [discriminate | contradiction].
  - rewrite orb_true_iff, IH, String.eqb_eq. tauto.
Qed.

Lemma has_false k (o : Object) : has k o = false <-> ~ In k (keys o).
Proof. rewrite <- has_In. destruct (has k o); split; congruence. Qed.

Lemma get_absent k (o : Object) : has k o = false -> get k o = Undefined.
Proof.
  induction o as [|[k' v] o IH]; simpl; [reflexivity|].
  intros H. apply orb_false_elim in H as [-> H]. now apply IH.
Qed.

Lemma get_replace t k v (o : Object) :
  has k o = true -> get t (replace k v o) = if k =? t then v else get t o.
Proof.
  induction o as [|[k' v'] o IH]; simpl; [discriminate|].
  destruct (String.eqb_spec k' k) as [->|Hne]; simpl.
  - intros _. destruct (String.eqb_spec k t); reflexivity.
  - intros H. rewrite IH by assumption.
    destruct (String.eqb_spec k' t) as [->|]; [|reflexivity].
    destruct (String.eqb_spec k t); [congruence | reflexivity].
Qed.

Lemma get_insert_index t i k v (o : Object) :
  has k o = false -> get t (insert_index i k v o) = if k =? t then v else get t o.
Proof.
  induction o as [|[k' v'] o IH]; simpl; [reflexivity|].
  intros H. apply orb_false_elim in H as [Hk H].
  destruct (arrayIndex k') as [j|]; [destruct (i <? j)%N|]; simpl; try reflexivity.
  rewrite IH by assumption.
  destruct (String.eqb_spec k' t) as [->|]; [|reflexivity].
  destruct (String.eqb_spec k t) as [->|]; [|reflexivity].
  now rewrite String.eqb_refl in Hk.
Qed.

Lemma get_append t k v (o : Object) :
  has k o = false -> get t (o ++ [(k, v)])%list = if k =? t then v else get t o.
Proof.
  induction o as [|[k' v'] o IH]; simpl; [reflexivity|].
  intros H. apply orb_false_elim in H as [Hk H]. rewrite IH by assumption.
  destruct (String.eqb_spec k' t) as [->|]; [|reflexivity].
  destruct (String.eqb_spec k t) as [->|]; [|reflexivity].
  now rewrite String.eqb_refl in Hk.
Qed.

(** Reading after writing. *)
Lemma get_set t k v (o : Object) : get t (set k v o) = if k =? t then v else get t o.
Proof.
  unfold set. destruct (has k o) eqn:H.
  - now apply get_replace.
  - destruct (arrayIndex k); [now apply get_insert_index | now apply get_append].
Qed.

Lemma keys_replace k v (o : Object) : keys (replace k v o) = keys o.
Proof.
  induction o as [|[k' v'] o IH]; simpl; [reflexivity|].
  destruct (k' =? k); simpl; [reflexivity | now rewrite IH].
Qed.

Lemma keys_insert_index i k v (o : Object) :
  Permutation (keys (insert_index i k v o)) (k :: keys o).
Proof.
  induction o as [|[k' v'] o IH]; simpl; [reflexivity|].
  destruct (arrayIndex k') as [j|]; [destruct (i <? j)%N|]; simpl; try reflexivity.
  rewrite IH. apply perm_swap.
Qed.

Lemma keys_set k v (o : Object) :
  if has k o then keys (set k v o) = keys o
  else Permutation (keys (set k v o)) (k :: keys o).
Proof.
  unfold set. destruct (has k o).
  - apply keys_replace.
  - destruct (arrayIndex k).
    + apply keys_insert_index.
    + unfold keys. rewrite map_app. simpl. symmetry. apply Permutation_cons_append.
Qed.

Lemma In_keys_set t k v (o : Object) : In t (keys (set k v o)) <-> t = k \/ In t (keys o).
Proof.
  pose proof (keys_set k v o) as H. destruct (has k o) eqn:E.
  - rewrite H. apply has_In in E. split; [tauto|]. intros [->|]; assumption.
  - split; intros Hin.
    + apply (Permutation_in _ H) in Hin. destruct Hin; auto.
    + apply (Permutation_in _ (Permutation_sym H)). destruct Hin; [left|right]; auto.
Qed.

Lemma has_set t k v (o : Object) : has t (set k v o) = (k =? t) || has t o.
Proof.
  apply eq_true_iff_eq. rewrite orb_true_iff, !has_In, In_keys_set, String.eqb_eq.
  split; intros [H|H]; auto.
Qed.

Lemma NoDup_keys_set k v (o : Object) : NoDup (keys o) -> NoDup (keys (set k v o)).
Proof.
  intros Hnd. pose proof (keys_set k v o) as H. destruct (has k o) eqn:E.
  - now rewrite H.
  - eapply Permutation_NoDup; [symmetry; exact H|].
    constructor; [now apply has_false | assumption].
Qed.

Lemma NoDup_keys_spread (source target : Object) :
  NoDup (keys target) -> NoDup (keys (spread source target)).
Proof.
  unfold spread. revert target.
  induction source as [|[k v] source IH]; intros target H; simpl; [assumption|].
  apply IH. now apply NoDup_keys_set.
Qed.

Lemma In_keys_spread t (source target : Object) :
  In t (keys (spread source target)) <-> In t (keys source) \/ In t (keys target).
Proof.
  unfold spread. revert target.
  induction source as [|[k v] source IH]; intros target; simpl; [tauto|].
  rewrite IH, In_keys_set. split; intros H; intuition auto.
Qed.

(** A spread into a new object copies the properties of an object. *)
Lemma get_spread t (source target : Object) :
  NoDup (keys source) ->
  get t (spread source target) = if has t source then get t source else get t target.
Proof.
  unfold spread. revert target.
  induction source as [|[k v] source IH]; intros target Hnd; simpl; [reflexivity|].
  inversion Hnd as [|? ? Hk Hnd']; subst. rewrite IH by assumption. rewrite get_set.
  destruct (String.eqb_spec k t) as [->|Hne]; simpl.
  - apply has_false in Hk. now rewrite Hk.
  - reflexivity.
Qed.

End ObjectFacts.

(** ** snakecase-keys *)

Section SnakeCaseFacts.
Import JS BuildJson.
Variable snakeCase : string -> string.

Lemma snakeCaseKeys_Obj props :
  snakeCaseKeys snakeCase (Obj props) = fold_left (convert_step snakeCase) props [].
Proof.
  simpl. generalize (@nil (string * Value)) as target.
  induction props as [|[k x] props IH]; intros target; simpl; [reflexivity|].
  rewrite IH. reflexivity.
Qed.

Lemma NoDup_keys_snakeCaseKeys props : NoDup (keys (snakeCaseKeys snakeCase (Obj props))).
Proof.
  rewrite snakeCaseKeys_Obj.
  assert (H : forall target, NoDup (keys target) ->
                             NoDup (keys (fold_left (convert_step snakeCase) props target))).
  { induction props as [|kv props IH]; intros target Ht; simpl; [assumption|].
    apply IH. now apply NoDup_keys_set. }
  apply H. constructor.
Qed.

Lemma NoDup_snoc {A} (l : list A) x : NoDup (l ++ [x]) -> NoDup l /\ ~ In x l.
Proof.
  intros H. split.
  - apply NoDup_remove_1 in H. now rewrite app_nil_r in H.
  - apply NoDup_remove_2 in H. now rewrite app_nil_r in H.
Qed.

(** A property whose converted name no other property shares is found
    under that name, its value converted. *)
Lemma get_snakeCaseKeys k (o : Object) :
  NoDup (keys o) -> In k (keys o) ->
  (forall k', In k' (keys o) -> snakeCase k' = snakeCase k -> k' = k) ->
  get (snakeCase k) (snakeCaseKeys snakeCase (Obj o)) = deep_value snakeCase (get k o).
Proof.
  rewrite snakeCaseKeys_Obj.
  induction o as [|[k0 x0] o IH] using rev_ind; intros Hnd Hin Hinj; [contradiction|].
  unfold keys in Hnd, Hin, Hinj. rewrite map_app in Hnd, Hin, Hinj. simpl in Hnd, Hin, Hinj.
  apply NoDup_snoc in Hnd as [Hnd Hk0]. apply has_false in Hk0.
  rewrite fold_left_app. simpl. unfold convert_step at 1. simpl. rewrite get_set.
  rewrite (get_append k k0 x0 o Hk0).
  destruct (String.eqb_spec k0 k) as [->|Hne].
  - now rewrite String.eqb_refl.
  - destruct (String.eqb_spec (snakeCase k0) (snakeCase k)) as [E|_].
    + exfalso. apply Hne. apply Hinj; [|assumption]. apply in_or_app. right. now left.
    + apply IH; [assumption| |].
      * apply in_app_or in Hin as [Hin|[Hin|[]]]; [assumption | congruence].
      * intros k' Hk'. apply Hinj. apply in_or_app. now left.
Qed.

(** What [JSON.stringify] keeps of the properties of an object. *)
Lemma JSON_tree_Obj (o : Object) t :
  NoDup (keys o) ->
  get t (ownProps (JSON_tree (Obj o)))
  = match get t o with Undefined => Undefined | x => JSON_tree x end
  /\ has t (ownProps (JSON_tree (Obj o)))
     = has t o && match get t o with Undefined => false | _ => true end.
Proof.
  simpl. induction o as [|[k x] o IH]; intros Hnd; simpl; [split; reflexivity|].
  inversion Hnd as [|? ? Hk Hnd']; subst. destruct (IH Hnd') as [IHg IHh].
  destruct (String.eqb_spec k t) as [->|Hne].
  - apply has_false in Hk.
    destruct x; simpl; rewrite ?String.eqb_refl; simpl; try (split; reflexivity).
    rewrite IHg, IHh, Hk, (get_absent _ _ Hk). split; reflexivity.
  - destruct x; simpl; try (apply String.eqb_neq in Hne; rewrite Hne); simpl;
      split; assumption.
Qed.

End SnakeCaseFacts.

(** ** processLines: the shabad *)

Section ShabadFacts.
Import JS BuildJson.
Variable snakeCase : string -> string.

Lemma shabad_head_literal s writer section :
  member (get "writer" s) "nameEnglish" = inr writer ->
  member (get "section" s) "nameEnglish" = inr section ->
  shabad_head snakeCase s = inr (snakeCaseKeys snakeCase (Obj (shabad_literal s writer section))).
Proof. intros Hw Hs. unfold shabad_head. rewrite Hw. simpl. rewrite Hs. reflexivity. Qed.

Lemma NoDup_shabad_literal s writer section : NoDup (keys (shabad_literal s writer section)).
Proof.
  unfold shabad_literal. repeat apply NoDup_keys_set. apply NoDup_keys_spread. constructor.
Qed.

Lemma In_shabad_literal s writer section k :
  In k (keys (shabad_literal s writer section))
  <-> In k (map fst shabad_names) \/ In k (keys s).
Proof.
  unfold shabad_literal. rewrite !In_keys_set, In_keys_spread. simpl. intuition auto.
Qed.

Lemma shabad_literal_apart s writer section n :
  converts_shabad_names snakeCase -> converts_apart snakeCase s ->
  In n shabad_names ->
  forall k', In k' (keys (shabad_literal s writer section)) ->
             snakeCase k' = snakeCase (fst n) -> k' = fst n.
Proof.
  intros Hnames Hapart Hn k' Hk' E.
  assert (Hsn : snakeCase (fst n) = snd n).
  { unfold converts_shabad_names in Hnames. rewrite Forall_forall in Hnames. now apply Hnames. }
  rewrite Hsn in E. apply In_shabad_literal in Hk' as [Hk'|Hk'].
  - apply in_map_iff in Hk' as [n' [<- Hn']].
    assert (Hsn' : snakeCase (fst n') = snd n').
    { unfold converts_shabad_names in Hnames. rewrite Forall_forall in Hnames. now apply Hnames. }
    rewrite Hsn' in E. clear -Hn Hn' E.
    simpl in Hn, Hn'.
    repeat (destruct Hn as [<-|Hn]; [
      repeat (destruct Hn' as [<-|Hn']; [first [reflexivity | discriminate E]|]);
      contradiction |]).
    contradiction.
  - now apply (Hapart k' n).
Qed.

(** What the emitted head holds under the name of each property the
    callback writes. *)
Lemma shabad_head_get s writer section n :
  converts_shabad_names snakeCase -> converts_apart snakeCase s ->
  In n shabad_names ->
  get (snd n) (snakeCaseKeys snakeCase (Obj (shabad_literal s writer section)))
  = deep_value snakeCase (get (fst n) (shabad_literal s writer section)).
Proof.
  intros Hnames Hapart Hn.
  assert (Hsn : snakeCase (fst n) = snd n).
  { unfold converts_shabad_names in Hnames. rewrite Forall_forall in Hnames. now apply Hnames. }
  rewrite <- Hsn. apply get_snakeCaseKeys.
  - apply NoDup_shabad_literal.
  - apply In_shabad_literal. left. now apply in_map.
  - now apply shabad_literal_apart.
Qed.

Lemma get_with_lines t lines_ (head : Object) :
  NoDup (keys head) -> t <> "lines" ->
  get t (set "lines" lines_ (spread head [])) = get t head.
Proof.
  intros Hnd Hne. rewrite get_set.
  destruct (String.eqb_spec "lines" t); [congruence|].
  rewrite get_spread by assumption.
  destruct (has t head) eqn:E; [reflexivity|]. now rewrite (get_absent t head E).
Qed.

(** C10.  For a shabad whose subsection relation is empty, whose writer and
    section are loaded and named, and whose lines compile, the emitted
    object holds [subsection] with the value [null], and the file written
    from it holds that property too; under the names of the join columns
    [writer_id], [source_id], [section_id], [subsection_id], [order_id]
    the object holds [undefined], and the file has no such property;
    [writer] and [section] hold the display names.  The key conversion is
    that of the names the callback writes, and converts no other property
    of the row to one of them. *)
Theorem shabad_without_subsection
  (s : Object) (rows : list line_row) (writer section : string) (compiled : list Value) :
  converts_shabad_names snakeCase ->
  converts_apart snakeCase s ->
  member (get "writer" s) "nameEnglish" = inr (Str writer) ->
  member (get "section" s) "nameEnglish" = inr (Str section) ->
  truthy (get "subsection" s) = false ->
  mapM (compile_line snakeCase) rows = inr compiled ->
  exists emitted,
    compile_shabad snakeCase (mkShabad s rows) = inr (Obj emitted)
    /\ get "subsection" emitted = Null
    /\ has "subsection" (ownProps (JSON_tree (Obj emitted))) = true
    /\ get "subsection" (ownProps (JSON_tree (Obj emitted))) = Null
    /\ Forall (fun k => get k emitted = Undefined
                        /\ has k (ownProps (JSON_tree (Obj emitted))) = false) join_keys
    /\ get "writer" (ownProps (JSON_tree (Obj emitted))) = Str writer
    /\ get "section" (ownProps (JSON_tree (Obj emitted))) = Str section.
Proof.
  intros Hnames Hapart Hw Hs Hsub Hrows.
  set (lit := shabad_literal s (Str writer) (Str section)).
  set (head := snakeCaseKeys snakeCase (Obj lit)).
  exists (set "lines" (Arr compiled) (spread head [])).
  split.
  { unfold compile_shabad. cbn [shabad shabad_lines].
    rewrite (shabad_head_literal s _ _ Hw Hs). cbn [bind]. rewrite Hrows. reflexivity. }
  pose proof (NoDup_keys_snakeCaseKeys snakeCase lit) as Hhead. fold head in Hhead.
  assert (Hfinal : NoDup (keys (set "lines" (Arr compiled) (spread head [])))).
  { apply NoDup_keys_set, NoDup_keys_spread. constructor. }
  assert (Hget : forall a b, In (a, b) shabad_names -> b <> "lines" ->
            get b (set "lines" (Arr compiled) (spread head []))
            = deep_value snakeCase (get a lit)).
  { intros a b Hn Hne. rewrite get_with_lines by assumption.
    now apply (shabad_head_get s (Str writer) (Str section) (a, b)). }
  assert (Hhas : has "subsection" (set "lines" (Arr compiled) (spread head [])) = true).
  { rewrite has_set. simpl. apply has_In, In_keys_spread. left.
    apply has_In. unfold head. rewrite snakeCaseKeys_Obj.
    assert (Hin : In "subsection" (keys lit)).
    { apply In_shabad_literal. left. simpl. tauto. }
    assert (Hsn : snakeCase "subsection" = "subsection").
    { unfold converts_shabad_names in Hnames. rewrite Forall_forall in Hnames.
      apply (Hnames ("subsection", "subsection")). simpl. tauto. }
    rewrite <- Hsn at 1. clear -Hin.
    generalize (@nil (string * Value)) as target.
    induction lit as [|[k x] lit IH]; intros target; [contradiction|].
    simpl. destruct Hin as [Hk|Hin]; [|now apply IH].
    simpl in Hk. subst k. clear IH.
    assert (Hkeep : forall l t, has (snakeCase "subsection") t = true ->
              has (snakeCase "subsection") (fold_left (convert_step snakeCase) l t) = true).
    { induction l as [|kv l IHl]; intros t Ht; simpl; [assumption|].
      apply IHl. unfold convert_step. rewrite has_set, Ht. apply orb_true_r. }
    apply Hkeep. unfold convert_step. simpl. rewrite has_set, String.eqb_refl. reflexivity. }
  assert (Hlit_sub : get "subsection" lit = Null).
  { unfold lit, shabad_literal. rewrite get_set. simpl.
    unfold and_nameEnglish, or_. rewrite Hsub, Hsub. reflexivity. }
  assert (Hsubsection : get "subsection" (set "lines" (Arr compiled) (spread head [])) = Null).
  { rewrite (Hget "subsection" "subsection"); simpl; [|tauto|discriminate].
    now rewrite Hlit_sub. }
  split; [exact Hsubsection|].
  destruct (JSON_tree_Obj _ "subsection" Hfinal) as [Jg Jh].
  split; [rewrite Jh, Hhas, Hsubsection; reflexivity|].
  split; [rewrite Jg, Hsubsection; reflexivity|].
  split.
  - assert (Hjoin : forall a b, In (a, b) shabad_names -> b <> "lines" ->
              get a lit = Undefined ->
              get b (set "lines" (Arr compiled) (spread head [])) = Undefined
              /\ has b (ownProps (JSON_tree (Obj (set "lines" (Arr compiled) (spread head []))))) = false).
    { intros a b Hn Hne Hu. pose proof (Hget a b Hn Hne) as G. rewrite Hu in G. simpl in G.
      split; [exact G|].
      destruct (JSON_tree_Obj _ b Hfinal) as [_ Jh']. rewrite Jh', G. apply andb_false_r. }
    unfold join_keys. repeat constructor.
    + apply (Hjoin "writerId" "writer_id"); simpl; [tauto | discriminate |].
      unfold lit, shabad_literal. rewrite !get_set. reflexivity.
    + apply (Hjoin "writerId" "writer_id"); simpl; [tauto | discriminate |].
      unfold lit, shabad_literal. rewrite !get_set. reflexivity.
    + apply (Hjoin "sourceId" "source_id"); simpl; [tauto | discriminate |].
      unfold lit, shabad_literal. rewrite !get_set. reflexivity.
    + apply (Hjoin "sourceId" "source_id"); simpl; [tauto | discriminate |].
      unfold lit, shabad_literal. rewrite !get_set. reflexivity.
    + apply (Hjoin "sectionId" "section_id"); simpl; [tauto | discriminate |].
      unfold lit, shabad_literal. rewrite !get_set. reflexivity.
    + apply (Hjoin "sectionId" "section_id"); simpl; [tauto | discriminate |].
      unfold lit, shabad_literal. rewrite !get_set. reflexivity.
    + apply (Hjoin "subsectionId" "subsection_id"); simpl; [tauto | discriminate |].
      unfold lit, shabad_literal. rewrite !get_set. reflexivity.
    + apply (Hjoin "subsectionId" "subsection_id"); simpl; [tauto | discriminate |].
      unfold lit, shabad_literal. rewrite !get_set. reflexivity.
    + apply (Hjoin "orderId" "order_id"); simpl; [tauto | discriminate |].
      unfold lit, shabad_literal. rewrite !get_set. reflexivity.
    + apply (Hjoin "orderId" "order_id"); simpl; [tauto | discriminate |].
      unfold lit, shabad_literal. rewrite !get_set. reflexivity.
  - split.
    + destruct (JSON_tree_Obj _ "writer" Hfinal) as [Jw _]. rewrite Jw.
      rewrite (Hget "writer" "writer"); simpl; [|tauto|discriminate].
      unfold lit, shabad_literal. rewrite !get_set. reflexivity.
    + destruct (JSON_tree_Obj _ "section" Hfinal) as [Jw _]. rewrite Jw.
      rewrite (Hget "section" "section"); simpl; [|tauto|discriminate].
      unfold lit, shabad_literal. rewrite !get_set. reflexivity.
Qed.

End ShabadFacts.

(** ** processLines: the line *)

Section LineFacts.
Import JS BuildJson.

Lemma mapM_cons_inr {A B} (f : A -> Result B) a l bs :
  mapM f (a :: l) = inr bs ->
  exists b bs', f a = inr b /\ mapM f l = inr bs' /\ bs = b :: bs'.
Proof.
  simpl. destruct (f a) as [e|b]; simpl; [discriminate|].
  destruct (mapM f l) as [e|bs']; simpl; [discriminate|].
  intros H. inversion H. eauto.
Qed.

Lemma get_spread_new t (o : Object) : NoDup (keys o) -> get t (spread o []) = get t o.
Proof.
  intros H. rewrite get_spread by assumption.
  destruct (has t o) eqn:E; [reflexivity|]. now rewrite (get_absent t o E).
Qed.

Lemma In_keys_spread_new t (o : Object) : In t (keys (spread o [])) <-> In t (keys o).
Proof. rewrite In_keys_spread. simpl. tauto. Qed.

(** The content mapping after the rows: its keys are the names met, and
    under a name is the rendering of the last row of that name. *)
Lemma content_mapping rows : forall names (acc : Object),
  mapM content_key rows = inr names ->
  NoDup (keys acc) ->
  exists g,
    foldM add_content rows acc = inr g
    /\ NoDup (keys g)
    /\ (forall n, In n (keys g) <-> In n names \/ In n (keys acc))
    /\ (forall n, get n g
                  = fold_left
                      (fun found row =>
                         match content_key row with
                         | inr n' => if n' =? n then content_gurmukhi row else found
                         | inl _ => found
                         end) rows (get n acc)).
Proof.
  induction rows as [|row rows IH]; intros names acc Hnames Hacc.
  - simpl in Hnames. inversion Hnames; subst. exists acc. simpl.
    repeat split; try assumption; tauto.
  - apply mapM_cons_inr in Hnames as (name & names' & Hkey & Hrest & ->).
    unfold content_key in Hkey.
    destruct (member (content_publication row) "nameEnglish") as [e|v] eqn:Hm;
      simpl in Hkey; [discriminate|]. inversion Hkey; subst name. clear Hkey.
    simpl. unfold add_content at 1. rewrite Hm. simpl.
    destruct (IH names' (set (ToString v) (content_gurmukhi row) (spread acc [])) Hrest)
      as (g & Hg & Hnd & Hin & Hget).
    { apply NoDup_keys_set, NoDup_keys_spread. constructor. }
    exists g. split; [exact Hg|]. split; [exact Hnd|]. split.
    + intros n. rewrite Hin, In_keys_set, In_keys_spread_new. simpl.
      split; intros H; intuition auto.
    + intros n. rewrite Hget. f_equal. unfold content_key. rewrite Hm. simpl.
      rewrite get_set, get_spread_new by assumption. reflexivity.
Qed.

Variable snakeCase : string -> string.

Lemma translation_step acc row l t :
  translation_key row = inr (l, t) -> decodes row -> two_level acc ->
  exists acc',
    add_translation snakeCase acc row = inr acc'
    /\ two_level acc'
    /\ forall l' t', leaf acc' l' t' = ((l =? l') && (t =? t')) || leaf acc l' t'.
Proof.
  intros Hkey [info Hinfo] [Houter Hinner].
  unfold translation_key in Hkey. unfold add_translation.
  destruct (member (translationSource row) "language") as [e|language]; simpl in *; [discriminate|].
  destruct (member language "nameEnglish") as [e|ln]; simpl in *; [discriminate|].
  destruct (member (translationSource row) "nameEnglish") as [e|tn]; simpl in *; [discriminate|].
  inversion Hkey; subst l t. clear Hkey. rewrite Hinfo. simpl.
  eexists. split; [reflexivity|].
  set (value := Obj (snakeCaseKeys snakeCase
                       (Obj (set "additionalInformation" info (spread (translation row) []))))).
  set (inner := set (ToString tn) value (spread (ownProps (get (ToString ln) (ownProps acc))) [])).
  assert (Hget : forall l', get l' (set (ToString ln) (Obj inner) (spread (ownProps acc) []))
                            = if ToString ln =? l' then Obj inner else get l' (ownProps acc)).
  { intros l'. now rewrite get_set, get_spread_new. }
  split; [split|].
  - simpl. apply NoDup_keys_set, NoDup_keys_spread. constructor.
  - intros l'. cbn [ownProps]. rewrite Hget. destruct (ToString ln =? l'); [|apply Hinner].
    cbn [ownProps]. apply NoDup_keys_set, NoDup_keys_spread. constructor.
  - intros l' t'. unfold leaf. cbn [ownProps]. rewrite Hget.
    destruct (ToString ln =? l') eqn:E; simpl; [|reflexivity].
    apply String.eqb_eq in E. subst l'. unfold inner. rewrite has_set.
    f_equal. apply eq_true_iff_eq. rewrite !has_In. apply In_keys_spread_new.
Qed.

Lemma translation_mapping rows : forall pairs acc,
  mapM translation_key rows = inr pairs -> Forall decodes rows -> two_level acc ->
  exists T,
    foldM (add_translation snakeCase) rows acc = inr T
    /\ two_level T
    /\ forall l t, leaf T l t = true <-> In (l, t) pairs \/ leaf acc l t = true.
Proof.
  induction rows as [|row rows IH]; intros pairs acc Hkeys Hdec Hacc.
  - simpl in Hkeys. inversion Hkeys; subst. exists acc. simpl.
    split; [reflexivity|]. split; [assumption|]. intros; tauto.
  - apply mapM_cons_inr in Hkeys as ([l t] & pairs' & Hkey & Hrest & ->).
    inversion Hdec as [|? ? Hd Hdec']; subst.
    destruct (translation_step acc row l t Hkey Hd Hacc) as (acc' & Hstep & Hwf & Hleaf).
    destruct (IH pairs' acc' Hrest Hdec' Hwf) as (T & HT & HwfT & HleafT).
    exists T. simpl. rewrite Hstep. simpl. split; [exact HT|]. split; [exact HwfT|].
    intros l' t'. rewrite HleafT, Hleaf, orb_true_iff, andb_true_iff, !String.eqb_eq.
    split.
    + intros [H|[[-> ->]|H]]; [left; now right | left; now left | now right].
    + intros [[H|H]|H]; [inversion H; subst; right; left; now split | now left | right; now right].
Qed.

Lemma translation_step_leaf acc row l t info :
  translation_key row = inr (l, t) ->
  JSON_parse (ToString (get "additionalInformation" (translation row))) = inr info ->
  two_level acc ->
  exists acc',
    add_translation snakeCase acc row = inr acc'
    /\ two_level acc'
    /\ forall l' t',
         leaf_value acc' l' t'
         = if (l =? l') && (t =? t') then translation_leaf snakeCase row info
           else leaf_value acc l' t'.
Proof.
  intros Hkey Hinfo Hacc.
  destruct (translation_step acc row l t Hkey (ex_intro _ info Hinfo) Hacc)
    as (acc' & Hstep & Hwf & _).
  exists acc'. split; [exact Hstep|]. split; [exact Hwf|].
  destruct Hacc as [Houter Hinner].
  unfold translation_key in Hkey. unfold add_translation in Hstep.
  destruct (member (translationSource row) "language") as [e|language]; simpl in *; [discriminate|].
  destruct (member language "nameEnglish") as [e|ln]; simpl in *; [discriminate|].
  destruct (member (translationSource row) "nameEnglish") as [e|tn]; simpl in *; [discriminate|].
  inversion Hkey; subst l t. clear Hkey. rewrite Hinfo in Hstep. simpl in Hstep.
  inversion Hstep; subst acc'. clear Hstep.
  intros l' t'. unfold leaf_value. cbn [ownProps].
  rewrite get_set, get_spread_new by assumption.
  destruct (ToString ln =? l') eqn:E; cbn [andb]; [|reflexivity].
  apply String.eqb_eq in E. subst l'. cbn [ownProps].
  rewrite get_set, get_spread_new by apply Hinner.
  destruct (ToString tn =? t'); reflexivity.
Qed.

Lemma translation_leaves rows : forall pairs acc,
  mapM translation_key rows = inr pairs -> Forall decodes rows -> two_level acc ->
  exists T,
    foldM (add_translation snakeCase) rows acc = inr T
    /\ forall l t, leaf_value T l t = last_leaf snakeCase l t rows (leaf_value acc l t).
Proof.
  induction rows as [|row rows IH]; intros pairs acc Hkeys Hdec Hacc.
  - exists acc. split; reflexivity.
  - apply mapM_cons_inr in Hkeys as ([l t] & pairs' & Hkey & Hrest & ->).
    inversion Hdec as [|? ? [info Hinfo] Hdec']; subst.
    destruct (translation_step_leaf acc row l t info Hkey Hinfo Hacc)
      as (acc' & Hstep & Hwf & Hleaf).
    destruct (IH pairs' acc' Hrest Hdec' Hwf) as (T & HT & HleafT).
    exists T. cbn [foldM]. rewrite Hstep. cbn [bind]. split; [exact HT|].
    intros l' t'. rewrite HleafT, Hleaf. unfold last_leaf. cbn [fold_left].
    rewrite Hkey, Hinfo. reflexivity.
Qed.

Lemma get_In k v (o : Object) : NoDup (keys o) -> In (k, v) o -> get k o = v.
Proof.
  induction o as [|[k' v'] o IH]; simpl; intros Hnd Hin; [contradiction|].
  inversion Hnd as [|? ? Hk Hnd']; subst. destruct Hin as [E|Hin].
  - inversion E; subst. now rewrite String.eqb_refl.
  - destruct (String.eqb_spec k' k) as [->|]; [|now apply IH].
    exfalso. apply Hk. now apply (in_map fst) in Hin.
Qed.

Lemma In_get k (o : Object) : In k (keys o) -> In (k, get k o) o.
Proof.
  induction o as [|[k' v'] o IH]; simpl; intros Hin; [contradiction|].
  destruct (String.eqb_spec k' k) as [->|Hne]; [now left|].
  right. apply IH. destruct Hin; [contradiction | assumption].
Qed.

Lemma NoDup_map_pair {A B} (a : A) (l : list B) : NoDup l -> NoDup (map (pair a) l).
Proof.
  induction 1 as [|b l Hb _ IH]; simpl; constructor; [|assumption].
  intros Hin. apply in_map_iff in Hin as (b' & E & Hin). inversion E; subst. contradiction.
Qed.

Lemma leaf_paths_spec T :
  two_level T ->
  NoDup (leaf_paths T)
  /\ forall l t, In (l, t) (leaf_paths T) <-> leaf T l t = true.
Proof.
  intros [Houter Hinner]. unfold leaf_paths, leaf.
  assert (Hentry : forall k v, In (k, v) (ownProps T) -> NoDup (keys (ownProps v))).
  { intros k v Hin. rewrite <- (get_In k v _ Houter Hin). apply Hinner. }
  split.
  - clear Hinner. induction (ownProps T) as [|[k v] o IH]; simpl; [constructor|].
    inversion Houter as [|? ? Hk Hnd]; subst.
    apply NoDup_app.
    + apply NoDup_map_pair. apply (Hentry k v). now left.
    + apply IH; [assumption|]. intros k' v' Hin. apply (Hentry k' v'). now right.
    + intros [l t] Hin Hin'. apply in_map_iff in Hin as (t0 & E & _). inversion E; subst.
      apply in_flat_map in Hin' as ([k' v'] & Hkv & Hin'). simpl in Hin'.
      apply in_map_iff in Hin' as (t1 & E' & _). inversion E'; subst.
      apply Hk. now apply (in_map fst) in Hkv.
  - intros l t. rewrite in_flat_map, has_In. split.
    + intros ([k v] & Hkv & Hin). simpl in Hin.
      apply in_map_iff in Hin as (t0 & E & Hin). inversion E; subst.
      now rewrite (get_In l v _ Houter Hkv).
    + intros Hin. exists (l, get l (ownProps T)). split.
      * apply In_get. apply has_In. destruct (has l (ownProps T)) eqn:E; [reflexivity|].
        rewrite (get_absent _ _ E) in Hin. contradiction.
      * simpl. now apply in_map.
Qed.

(** C5.  For a line whose content rows and translation rows have their
    relations loaded and whose [additional_information]s decode, the
    emitted line holds under [gurmukhi] a mapping with one key per distinct
    publication name, whose value is the rendering of the last content row
    of that name, and under [translations] a two-level mapping with one
    leaf per distinct pair of language name and translation-source name,
    each found under its language name then its source name. *)
Theorem line_content_and_translations
  (row : line_row) (names : list string) (pairs : list (string * string)) :
  mapM content_key (line_content row) = inr names ->
  mapM translation_key (line_translations row) = inr pairs ->
  Forall decodes (line_translations row) ->
  exists emitted gurmukhi translations,
    compile_line snakeCase row = inr (Obj emitted)
    /\ get "gurmukhi" emitted = Obj gurmukhi
    /\ get "translations" emitted = translations
    /\ List.length (keys gurmukhi) = List.length (nodup string_dec names)
    /\ (forall n, In n names -> get n gurmukhi = last_content n (line_content row))
    /\ List.length (leaf_paths translations) = List.length (nodup path_dec pairs)
    /\ (forall l t, In (l, t) pairs -> leaf translations l t = true).
Proof.
  intros Hnames Hpairs Hdec.
  destruct (content_mapping (line_content row) names [] Hnames) as (g & Hg & Hgnd & Hgin & Hgget).
  { constructor. }
  destruct (translation_mapping (line_translations row) pairs (PromiseOf (Obj [])) Hpairs Hdec)
    as (T & HT & HTwf & HTleaf).
  { split; [constructor|]. intros l. constructor. }
  destruct (leaf_paths_spec T HTwf) as [Hlnd Hlin].
  eexists. exists g, T. unfold compile_line. rewrite Hg. cbn [bind]. rewrite HT. cbn [bind].
  split; [reflexivity|]. split; [|split; [|split; [|split; [|split]]]].
  - rewrite !get_set. reflexivity.
  - rewrite get_set. reflexivity.
  - apply Permutation_length. apply NoDup_Permutation; [assumption | apply NoDup_nodup|].
    intros n. rewrite nodup_In, Hgin. simpl. tauto.
  - intros n _. apply Hgget.
  - apply Permutation_length. apply NoDup_Permutation; [assumption | apply NoDup_nodup|].
    intros [l t]. rewrite nodup_In, Hlin, HTleaf. unfold leaf. simpl. intuition discriminate.
  - intros l t Hin. apply HTleaf. now left.
Qed.

End LineFacts.

(** ** processLines: decoding *)

Section DecodeFacts.
Import JS BuildJson.
Variable snakeCase : string -> string.

Lemma JSON_parse_error text e : JSON_parse text = inl e -> e = SyntaxError text.
Proof.
  unfold JSON_parse.
  destruct (json_value set (S (length text)) text) as [[v rest]|].
  - destruct (skip_blanks rest); intros H; now inversion H.
  - intros H. now inversion H.
Qed.

Lemma mapM_Exists {A B} (f : A -> Result B) (P : A -> Prop) l :
  (forall a, P a -> exists e, f a = inl e) ->
  Exists P l -> exists e, mapM f l = inl e.
Proof.
  intros HP H. induction H as [a l Ha|a l _ IH]; simpl.
  - destruct (HP a Ha) as [e ->]. simpl. eauto.
  - destruct (f a) as [e|b]; simpl; [eauto|].
    destruct IH as [e ->]. simpl. eauto.
Qed.

Lemma foldM_Exists {A B} (f : B -> A -> Result B) (P : A -> Prop) l :
  (forall acc a, P a -> exists e, f acc a = inl e) ->
  Exists P l -> forall acc, exists e, foldM f l acc = inl e.
Proof.
  intros HP H. induction H as [a l Ha|a l _ IH]; intros acc; simpl.
  - destruct (HP acc a Ha) as [e ->]. simpl. eauto.
  - destruct (f acc a) as [e|b]; simpl; [eauto | apply IH].
Qed.

Lemma add_translation_malformed acc row :
  malformed row -> exists e, add_translation snakeCase acc row = inl e.
Proof.
  intros [e He]. unfold add_translation.
  destruct (member (translationSource row) "language") as [e1|language]; simpl; [eauto|].
  destruct (member language "nameEnglish") as [e2|ln]; simpl; [eauto|].
  destruct (member (translationSource row) "nameEnglish") as [e3|tn]; simpl; [eauto|].
  rewrite He. simpl. eauto.
Qed.

Lemma compile_line_malformed row :
  line_malformed row -> exists e, compile_line snakeCase row = inl e.
Proof.
  intros H. unfold compile_line.
  destruct (foldM add_content (line_content row) []) as [e|g]; simpl; [eauto|].
  destruct (foldM_Exists (add_translation snakeCase) malformed (line_translations row)
              (fun acc a => add_translation_malformed acc a) H (PromiseOf (Obj []))) as [e ->].
  simpl. eauto.
Qed.

Lemma compile_shabad_malformed s :
  shabad_malformed s -> exists e, compile_shabad snakeCase s = inl e.
Proof.
  intros H. unfold compile_shabad.
  destruct (shabad_head snakeCase (shabad s)) as [e|head]; simpl; [eauto|].
  destruct (mapM_Exists (compile_line snakeCase) line_malformed (shabad_lines s)
              compile_line_malformed H) as [e ->].
  simpl. eauto.
Qed.

Lemma with_lines_head (head : Object) (s : shabad_input) :
  with_lines snakeCase (head, s)
  = bind (mapM (compile_line snakeCase) (shabad_lines s)) (fun lines =>
    ret (Obj (set "lines" (Arr lines) (spread head [])))).
Proof. reflexivity. Qed.

(** The shabads of a source compiled together succeed when each callback
    does, with the same result, and fail when one fails. *)
Lemma compile_shabads_mapM (l : list shabad_input) :
  match mapM (compile_shabad snakeCase) l with
  | inr compiled => compile_shabads snakeCase l = inr compiled
  | inl _ => exists e, compile_shabads snakeCase l = inl e
  end.
Proof.
  unfold compile_shabads. induction l as [|s l IH]; [reflexivity|].
  cbn [mapM]. unfold compile_shabad at 1.
  destruct (shabad_head snakeCase (shabad s)) as [e|head]; cbn [bind]; [eauto|].
  destruct (mapM (compile_shabad snakeCase) l) as [e|compiled].
  - destruct IH as [e' IH].
    destruct (mapM (fun s0 => shabad_head snakeCase (shabad s0)) l) as [e1|heads];
      cbn [bind ret] in *.
    + destruct (mapM (compile_line snakeCase) (shabad_lines s)); cbn [bind ret]; eauto.
    + cbn [combine mapM]. rewrite with_lines_head.
      destruct (mapM (compile_line snakeCase) (shabad_lines s)); cbn [bind ret]; [eauto|].
      rewrite IH. cbn [bind]. eauto.
  - destruct (mapM (fun s0 => shabad_head snakeCase (shabad s0)) l) as [e1|heads];
      cbn [bind ret] in *; [discriminate|].
    cbn [combine mapM]. rewrite with_lines_head.
    destruct (mapM (compile_line snakeCase) (shabad_lines s)); cbn [bind ret]; [eauto|].
    rewrite IH. reflexivity.
Qed.

Lemma compile_shabads_inr (l : list shabad_input) compiled :
  compile_shabads snakeCase l = inr compiled ->
  mapM (compile_shabad snakeCase) l = inr compiled.
Proof.
  intros H. pose proof (compile_shabads_mapM l) as Hl.
  destruct (mapM (compile_shabad snakeCase) l) as [e|c].
  - destruct Hl as [e' He']. congruence.
  - congruence.
Qed.

Lemma compile_shabads_inl (l : list shabad_input) e :
  mapM (compile_shabad snakeCase) l = inl e ->
  exists e', compile_shabads snakeCase l = inl e'.
Proof. intros H. pose proof (compile_shabads_mapM l) as Hl. now rewrite H in Hl. Qed.

Lemma compile_source_malformed acc source :
  source_malformed source -> exists e, compile_source_shabads snakeCase acc source = inl e.
Proof.
  intros H. unfold compile_source_shabads.
  destruct (mapM_Exists (compile_shabad snakeCase) shabad_malformed (shabads source)
              compile_shabad_malformed H) as [e He].
  destruct (compile_shabads_inl _ _ He) as [e' ->].
  simpl. eauto.
Qed.

Lemma compile_pages_malformed sources :
  has_malformed sources -> exists e, compile_pages snakeCase sources = inl e.
Proof.
  intros H. unfold compile_pages.
  destruct (foldM_Exists (compile_source_shabads snakeCase) source_malformed sources
              compile_source_malformed H []) as [e ->].
  simpl. eauto.
Qed.

(** The rows before the malformed one are filed, then the parser throws. *)
Lemma translations_stop_at_malformed before bad after :
  forall pairs acc,
    mapM translation_key (before ++ [bad]) = inr pairs ->
    Forall decodes before -> two_level acc -> malformed bad ->
    foldM (add_translation snakeCase) (before ++ bad :: after) acc
    = inl (SyntaxError (ToString (get "additionalInformation" (translation bad)))).
Proof.
  induction before as [|row before IH]; intros pairs acc Hkeys Hdec Hacc [e He]; simpl in *.
  - unfold add_translation.
    unfold translation_key in Hkeys.
    destruct (member (translationSource bad) "language") as [e1|language]; simpl in *; [discriminate|].
    destruct (member language "nameEnglish") as [e2|ln]; simpl in *; [discriminate|].
    destruct (member (translationSource bad) "nameEnglish") as [e3|tn]; simpl in *; [discriminate|].
    rewrite He. simpl. now rewrite (JSON_parse_error _ _ He).
  - destruct (translation_key row) as [e1|[l t]] eqn:Hkey; simpl in Hkeys; [discriminate|].
    destruct (mapM translation_key (before ++ [bad])) as [e2|pairs'] eqn:Hrest;
      simpl in Hkeys; [discriminate|].
    inversion Hdec as [|? ? Hd Hdec']; subst.
    destruct (translation_step snakeCase acc row l t Hkey Hd Hacc) as (acc' & -> & Hwf & _).
    simpl. apply (IH pairs'); auto. now exists e.
Qed.

(** C3 (as amended).  A dataset that has a translation row whose
    [additional_information] does not decode makes [processLines] fail,
    with nothing written for the dataset.  On a line whose relations are
    loaded, the failure is the [SyntaxError] of [JSON.parse] for the text
    of the first such row: it is made from that text alone and carries
    neither the line nor the translation source.  The text [{] does not
    decode; the text [{}] decodes to the empty object.  On a line whose
    rows all decode, what is filed under a language and a translation
    source is the leaf of the last row of that language and source, and the
    leaf of a row holds the decoded value, not the text, under the
    converted name of [additionalInformation]. *)
Theorem malformed_information_aborts :
  (forall sources w,
      has_malformed sources ->
      exists e,
        processLines snakeCase sources w
        = (console_log Subheader (newline ++ "Processing lines") w, Some e))
  /\ (forall row names pairs before bad after,
        line_translations row = (before ++ bad :: after)%list ->
        mapM content_key (line_content row) = inr names ->
        mapM translation_key (before ++ [bad]) = inr pairs ->
        Forall decodes before ->
        malformed bad ->
        compile_line snakeCase row
        = inl (SyntaxError (ToString (get "additionalInformation" (translation bad)))))
  /\ JSON_parse "{" = inl (SyntaxError "{")
  /\ JSON_parse "{}" = inr (Obj [])
  /\ (forall row names pairs,
        mapM content_key (line_content row) = inr names ->
        mapM translation_key (line_translations row) = inr pairs ->
        Forall decodes (line_translations row) ->
        exists emitted,
          compile_line snakeCase row = inr (Obj emitted)
          /\ forall l t,
               leaf_value (get "translations" emitted) l t
               = last_leaf snakeCase l t (line_translations row) Undefined)
  /\ (forall row info,
        NoDup (keys (translation row)) ->
        (forall k, In k (keys (translation row)) ->
           snakeCase k = snakeCase "additionalInformation" -> k = "additionalInformation") ->
        get (snakeCase "additionalInformation")
          (ownProps (translation_leaf snakeCase row info))
        = deep_value snakeCase info).
Proof.
  split; [|split; [|split; [reflexivity|split; [reflexivity|split]]]].
  - intros sources w H. unfold processLines.
    destruct (compile_pages_malformed sources H) as [e ->]. eauto.
  - intros row names pairs before bad after Hrows Hnames Hpairs Hdec Hbad.
    unfold compile_line.
    destruct (content_mapping (line_content row) names [] Hnames) as (g & -> & _).
    { constructor. }
    cbn [bind]. rewrite Hrows.
    rewrite (translations_stop_at_malformed before bad after pairs); auto.
    split; [constructor|]. intros l. constructor.
  - intros row names pairs Hnames Hpairs Hdec. unfold compile_line.
    destruct (content_mapping (line_content row) names [] Hnames) as (g & -> & _).
    { constructor. }
    cbn [bind].
    destruct (translation_leaves snakeCase (line_translations row) pairs (PromiseOf (Obj []))
                Hpairs Hdec) as (T & -> & Hleaf).
    { split; [constructor|]. intros l. constructor. }
    cbn [bind ret]. eexists. split; [reflexivity|].
    intros l t. rewrite get_set, String.eqb_refl. apply Hleaf.
  - intros row info Hnd Hapart. unfold translation_leaf. cbn [ownProps].
    rewrite (get_snakeCaseKeys snakeCase "additionalInformation").
    + now rewrite get_set, String.eqb_refl.
    + apply NoDup_keys_set, NoDup_keys_spread. constructor.
    + apply In_keys_set. now left.
    + intros k Hk E. apply In_keys_set in Hk as [Hk|Hk]; [exact Hk|].
      apply (proj1 (In_keys_spread_new _ _)) in Hk. exact (Hapart k Hk E).
Qed.

End DecodeFacts.

(** ** Decimal numerals *)

Section NumeralFacts.
Import JS.
Open Scope N_scope.

Lemma digitValue_digitChar d : d < 10 -> digitValue (digitChar d) = Some d.
Proof.
  intros Hd. unfold digitValue, digitChar.
  rewrite N_ascii_embedding by lia.
  destruct (N.leb_spec 48 (48 + d)); [|lia].
  destruct (N.leb_spec (48 + d) 57); [|lia].
  cbn [andb]. f_equal. lia.
Qed.

Lemma div10_lt n k : n / 10 < 10 ^ k <-> n < 10 ^ N.succ k.
Proof.
  rewrite N.pow_succ_r'. split; intros H.
  - pose proof (N.div_mod n 10). pose proof (N.mod_lt n 10). lia.
  - apply N.Div0.div_lt_upper_bound. lia.
Qed.


Lemma digits_S fuel n acc :
  digits (S fuel) n acc
  = if n <? 10 then String (digitChar (n mod 10)) acc
    else digits fuel (n / 10) (String (digitChar (n mod 10)) acc).
Proof. reflexivity. Qed.

(** Reading back what [digits] wrote. *)
Lemma numeral_digits fuel : forall n acc,
  n < 10 ^ N.of_nat (S fuel) ->
  exists m, forall a,
    numeral_from a (digits (S fuel) n acc) = numeral_from (a * m + n) acc.
Proof.
  induction fuel as [|fuel IH]; intros n acc Hn; rewrite digits_S.
  - change (N.of_nat 1) with 1 in Hn. rewrite N.pow_1_r in Hn.
    exists 10. intros a. destruct (N.ltb_spec n 10); [|lia].
    cbn [numeral_from]. rewrite N.mod_small by assumption.
    rewrite digitValue_digitChar by assumption. f_equal. lia.
  - destruct (N.ltb_spec n 10) as [Hlt|Hge].
    + exists 10. intros a. cbn [numeral_from]. rewrite N.mod_small by assumption.
      rewrite digitValue_digitChar by assumption. f_equal. lia.
    + rewrite Nat2N.inj_succ in Hn. apply div10_lt in Hn.
      destruct (IH (n / 10) (String (digitChar (n mod 10)) acc) Hn) as [m Hm].
      exists (10 * m). intros a. rewrite Hm. cbn [numeral_from].
      rewrite digitValue_digitChar by (apply N.mod_lt; lia).
      f_equal. pose proof (N.div_mod n 10). lia.
Qed.

Lemma digits_length_ge fuel : forall n acc,
  (S (String.length acc) <= String.length (digits (S fuel) n acc))%nat.
Proof.
  induction fuel as [|fuel IH]; intros n acc; rewrite digits_S.
  - destruct (n <? 10); cbn [String.length digits]; lia.
  - destruct (n <? 10); [cbn [String.length]; lia|].
    specialize (IH (n / 10) (String (digitChar (n mod 10)) acc)).
    cbn [String.length] in IH. lia.
Qed.


Lemma size_nat_gt p : N.pos p < 2 ^ N.of_nat (Pos.size_nat p).
Proof.
  induction p as [p IH|p IH|]; cbn [Pos.size_nat].
  - rewrite Nat2N.inj_succ, N.pow_succ_r'. lia.
  - rewrite Nat2N.inj_succ, N.pow_succ_r'. lia.
  - reflexivity.
Qed.

Lemma enough_fuel n : n < 10 ^ N.of_nat (S (N.size_nat n)).
Proof.
  rewrite Nat2N.inj_succ.
  assert (H2 : n < 2 ^ N.of_nat (N.size_nat n)).
  { destruct n as [|p]; [reflexivity | apply size_nat_gt]. }
  eapply N.lt_le_trans; [exact H2|].
  rewrite N.pow_succ_r'.
  assert (2 ^ N.of_nat (N.size_nat n) <= 10 ^ N.of_nat (N.size_nat n))
    by (apply N.pow_le_mono_l; lia).
  pose proof (N.pow_nonzero 10 (N.of_nat (N.size_nat n))). lia.
Qed.

(** A number is read back from its decimal rendering. *)
Lemma numeral_N_toString n : numeral (N_toString n) = Some n.
Proof.
  unfold N_toString.
  destruct (numeral_digits (N.size_nat n) n "" (enough_fuel n)) as [m Hm].
  pose proof (digits_length_ge (N.size_nat n) n "") as Hlen.
  assert (H0 : numeral_from 0 (digits (S (N.size_nat n)) n "") = Some n).
  { rewrite (Hm 0). cbn [numeral_from]. f_equal. }
  unfold numeral. destruct (digits (S (N.size_nat n)) n "").
  - cbn [String.length] in Hlen. lia.
  - exact H0.
Qed.

Lemma N_toString_inj a b : N_toString a = N_toString b -> a = b.
Proof.
  intros H. pose proof (numeral_N_toString a) as Ha. rewrite H, numeral_N_toString in Ha.
  now inversion Ha.
Qed.

Lemma arrayIndex_N_toString n : n < 4294967295 -> arrayIndex (N_toString n) = Some n.
Proof.
  intros Hn. unfold arrayIndex. rewrite numeral_N_toString, String.eqb_refl.
  destruct (N.ltb_spec n 4294967295); [reflexivity | lia].
Qed.


End NumeralFacts.

(** ** processLines: the pages *)

Section PageFacts.
Import JS BuildJson.

Lemma has_render p view :
  has (N_toString p) (render_pages view) = true <-> In p (map fst view).
Proof.
  induction view as [|[q g] view IH]; simpl.
  - split; [discriminate | contradiction].
  - rewrite orb_true_iff, IH, String.eqb_eq. split.
    + intros [H|H]; [left; now apply N_toString_inj | now right].
    + intros [->|H]; [now left | now right].
Qed.

(** [groupBy]'s step on pages kept by number. *)
Lemma group_shabad_render view p s :
  ascending view -> on_page s p ->
  group_shabad (render_pages view) s = inr (render_pages (add_page p s view)).
Proof.
  intros [Hsorted Hbound] [Hpage Hp]. unfold group_shabad. rewrite Hpage. cbn [bind].
  induction view as [|[q g] view IH].
  - cbn [render_pages map has add_page]. unfold set. cbn [has].
    rewrite (arrayIndex_N_toString p Hp). reflexivity.
  - simpl in Hsorted, Hbound. inversion Hsorted as [|? ? Hs Hall]; subst.
    inversion Hbound as [|? ? Hq Hb]; subst.
    specialize (IH Hs Hb).
    cbn [render_pages map fst snd add_page has get replace]. fold (render_pages view).
    destruct (N.eqb_spec p q) as [->|Hne].
    + rewrite String.eqb_refl. cbn [orb]. reflexivity.
    + destruct (String.eqb_spec (N_toString q) (N_toString p)) as [E|_].
      { apply N_toString_inj in E. congruence. }
      cbn [orb]. destruct (has (N_toString p) (render_pages view)) eqn:Hhas.
      * assert (Hin : In p (map fst view)) by now apply has_render.
        rewrite Forall_forall in Hall. specialize (Hall p Hin).
        destruct (N.ltb_spec p q) as [Hlt|_]; [lia|].
        destruct (get (N_toString p) (render_pages view)) eqn:Hget;
          inversion IH as [IH']; unfold render_pages in *; cbn [map fst snd];
          rewrite <- IH'; reflexivity.
      * unfold set in IH |- *. rewrite Hhas in IH. cbn [has].
        destruct (String.eqb_spec (N_toString q) (N_toString p)) as [E|_].
        { apply N_toString_inj in E. congruence. }
        cbn [orb]. rewrite Hhas. rewrite (arrayIndex_N_toString p Hp) in IH |- *.
        cbn [insert_index]. rewrite (arrayIndex_N_toString q Hq).
        destruct (N.ltb_spec p q); [reflexivity|].
        inversion IH as [IH']. unfold render_pages in *. cbn [map fst snd].
        now rewrite <- IH'.
Qed.

Lemma add_page_keys p s view q :
  In q (map fst (add_page p s view)) <-> q = p \/ In q (map fst view).
Proof.
  induction view as [|[q0 g] view IH]; simpl.
  - intuition auto.
  - destruct (N.eqb_spec p q0) as [->|Hne]; simpl; [intuition auto|].
    destruct (p <? q0)%N; simpl; [intuition auto|]. rewrite IH. intuition auto.
Qed.

Lemma add_page_ascending p s view :
  ascending view -> (p < 4294967295)%N -> ascending (add_page p s view).
Proof.
  intros [Hsorted Hbound] Hp. split.
  - clear Hbound. induction view as [|[q g] view IH]; simpl in *.
    + repeat constructor.
    + inversion Hsorted as [|? ? Hs Hall]; subst.
      destruct (N.eqb_spec p q) as [->|Hne]; simpl; [assumption|].
      destruct (N.ltb_spec p q) as [Hlt|Hge]; simpl.
      * constructor; [assumption|]. constructor; [assumption|].
        eapply Forall_impl; [|exact Hall]. intros; lia.
      * constructor; [now apply IH|]. apply Forall_forall. intros x Hx.
        apply add_page_keys in Hx as [->|Hx]; [lia|].
        rewrite Forall_forall in Hall. now apply Hall.
  - apply Forall_forall. intros x Hx. apply add_page_keys in Hx as [->|Hx]; [assumption|].
    rewrite Forall_forall in Hbound. now apply Hbound.
Qed.

Lemma add_page_perm p s view :
  Permutation (flat_map snd (add_page p s view)) (flat_map snd view ++ [s]).
Proof.
  induction view as [|[q g] view IH]; simpl; [reflexivity|].
  destruct (p =? q)%N; simpl.
  - rewrite <- !app_assoc. apply Permutation_app_head. apply Permutation_app_comm.
  - destruct (p <? q)%N; simpl.
    + apply Permutation_cons_append.
    + rewrite <- app_assoc. now apply Permutation_app_head.
Qed.

Lemma add_page_filed p s view :
  filed_by_page view -> page_of s = inr (N_toString p) -> filed_by_page (add_page p s view).
Proof.
  unfold filed_by_page. intros Hview Hs.
  induction view as [|[q g] view IH]; simpl.
  - repeat constructor. assumption.
  - inversion Hview as [|? ? Hg Hrest]; subst. simpl in Hg.
    destruct (N.eqb_spec p q) as [->|Hne]; simpl.
    + constructor; [|assumption]. simpl. apply Forall_app. split; [assumption|].
      repeat constructor. assumption.
    + destruct (p <? q)%N.
      * constructor; [|assumption]. simpl. repeat constructor. assumption.
      * constructor; [assumption | now apply IH].
Qed.

(** [groupBy] on shabads whose pages are numbers: the pages by number,
    ascending; each shabad filed once, under its page. *)
Lemma groupBy_render shabads_ : forall ps view,
  Forall2 on_page shabads_ ps -> ascending view -> filed_by_page view ->
  exists view',
    foldM group_shabad shabads_ (render_pages view) = inr (render_pages view')
    /\ ascending view' /\ filed_by_page view'
    /\ (forall q, In q (map fst view') <-> In q ps \/ In q (map fst view))
    /\ Permutation (flat_map snd view') (flat_map snd view ++ shabads_).
Proof.
  induction shabads_ as [|s l IH]; intros ps view Hpages Hasc Hfiled;
    inversion Hpages as [|? p ? ps' Hs Hrest]; subst.
  - exists view. simpl. rewrite app_nil_r.
    split; [reflexivity|]. split; [assumption|]. split; [assumption|].
    split; [intros q; tauto | reflexivity].
  - destruct (IH ps' (add_page p s view) Hrest) as (view' & Hfold & Hasc' & Hfiled' & Hkeys & Hperm).
    { apply add_page_ascending; [assumption | apply Hs]. }
    { apply add_page_filed; [assumption | apply Hs]. }
    exists view'. cbn [foldM]. rewrite (group_shabad_render view p s Hasc Hs). cbn [bind].
    split; [exact Hfold|]. split; [exact Hasc'|]. split; [exact Hfiled'|]. split.
    + intros q. rewrite Hkeys, add_page_keys. simpl. intuition auto.
    + rewrite Hperm, add_page_perm. rewrite <- app_assoc. reflexivity.
Qed.








Lemma write_source_files source pages w :
  files (write_source w (source, Obj pages)) = (files w ++ map (page_file source pages) pages)%list.
Proof.
  unfold write_source. cbn [fst snd ownProps].
  set (w0 := createDir _ _).
  assert (H0 : files w0 = files w) by reflexivity. rewrite <- H0. clear H0.
  generalize w0. clear w0. generalize pages at 1 3 as all.
  intros all. induction pages as [|page pages IH]; intros w0; cbn [fold_left map].
  - now rewrite app_nil_r.
  - rewrite IH. unfold saveData, writeJSON. cbn. rewrite <- app_assoc. reflexivity.
Qed.

Lemma sorted_NoDup (l : list N) : StronglySorted N.lt l -> NoDup l.
Proof.
  induction 1 as [|x l _ IH Hall]; constructor; [|assumption].
  intros Hin. rewrite Forall_forall in Hall. specialize (Hall x Hin). lia.
Qed.

Lemma keys_render view : keys (render_pages view) = map N_toString (map fst view).
Proof. unfold keys, render_pages. rewrite !map_map. reflexivity. Qed.

Lemma NoDup_keys_render view : ascending view -> NoDup (keys (render_pages view)).
Proof.
  intros [Hs _]. rewrite keys_render. apply sorted_NoDup in Hs.
  induction Hs as [|x l Hx _ IH]; simpl; constructor; [|assumption].
  intros Hin. apply in_map_iff in Hin as (y & E & Hy). apply N_toString_inj in E. congruence.
Qed.



Lemma starts_on_page_on_page s p : starts_on_page s p -> on_page s p.
Proof.
  intros (props & fields & rest & -> & Hlines & Hpage & Hp). split; [|exact Hp].
  unfold page_of. cbn [member bind ret]. rewrite Hlines. cbn [member bind ret].
  rewrite Hpage. cbn [ToString]. destruct p; reflexivity.
Qed.

Lemma starts_on_pages (l : list Value) (ps : list N) :
  Forall2 starts_on_page l ps -> Forall2 on_page l ps.
Proof. induction 1; constructor; auto using starts_on_page_on_page. Qed.




End PageFacts.

(** ** The properties on the sample data *)

Section Samples.
Import JS BuildJson Examples.

Lemma retrievals_same : PermutationA same_source retrieval_one retrieval_two.
Proof.
  unfold retrieval_one, retrieval_two.
  eapply permA_trans; [apply permA_swap|].
  apply permA_skip; [apply same_source_refl|].
  apply permA_skip; [|constructor].
  unfold same_source. cbn. repeat split.
  eapply permA_trans; [apply permA_swap|].
  apply permA_skip; [apply same_section_refl|].
  apply permA_skip; [|constructor].
  unfold same_section. cbn. repeat split. apply permA_swap.
Qed.

Lemma retrieval_one_keyed : sources_keyed retrieval_one.
Proof.
  unfold sources_keyed, source_keyed, section_keyed, retrieval_one. cbn.
  repeat first [ split | constructor | (intros H; cbn in H; intuition discriminate) ].
Qed.

Lemma pages_3_42_on_page : Forall2 on_page pages_3_42 [3; 42; 3]%N.
Proof. repeat constructor. Qed.

Lemma pages_run_on_start : Forall2 starts_on_page pages_run_on [3; 42; 3]%N.
Proof.
  unfold pages_run_on, run_on.
  repeat (constructor; [do 3 eexists; repeat split; reflexivity|]). constructor.
Qed.


(** The pages of those shabads: the page of the first line files a shabad,
    and the labels are the page numbers, zeros before them. *)
Remark pages_of_first_lines :
  exists pages,
    groupBy pages_run_on = inr pages
    /\ pages = [("3", Arr [run_on 1 3 4; run_on 3 3 42]); ("42", Arr [run_on 2 42 43])]
    /\ map (page_label pages) (keys pages) = ["03"; "42"].
Proof. eexists. repeat split; reflexivity. Qed.

(** The labels of the specification's two scenarios. *)
Lemma page_label_scenarios :
  (exists pages,
      groupBy pages_3_42 = inr pages
      /\ map (page_label pages) (keys pages) = ["03"; "42"])
  /\ (exists pages,
        groupBy pages_1_120 = inr pages
        /\ map (page_label pages) (keys pages) = ["001"; "120"]).
Proof. split; eexists; split; reflexivity. Qed.

Lemma snake_converts_shabad_names : converts_shabad_names snake.
Proof. unfold converts_shabad_names, shabad_names. repeat constructor. Qed.

Lemma first_shabad_converts_apart : converts_apart snake (shabad first_shabad).
Proof.
  intros k n Hk Hn E. cbn in Hk, Hn.
  repeat (destruct Hk as [<-|Hk];
          [ repeat (destruct Hn as [<-|Hn]; [first [reflexivity | discriminate E]|]);
            contradiction |]).
  contradiction.
Qed.

Lemma first_lines_compile :
  mapM (compile_line snake) (shabad_lines first_shabad) = inr first_lines_compiled.
Proof. reflexivity. Qed.

(** C10 at the first shabad of the sample source. *)
Lemma shabad_without_subsection_witness :
  truthy (get "subsection" (shabad first_shabad)) = false
  /\ exists emitted,
      compile_shabad snake first_shabad = inr (Obj emitted)
      /\ get "subsection" emitted = Null
      /\ has "subsection" (ownProps (JSON_tree (Obj emitted))) = true
      /\ get "subsection" (ownProps (JSON_tree (Obj emitted))) = Null
      /\ Forall (fun k => get k emitted = Undefined
                          /\ has k (ownProps (JSON_tree (Obj emitted))) = false) join_keys
      /\ get "writer" (ownProps (JSON_tree (Obj emitted))) = Str "Guru Nanak Dev Ji"
      /\ get "section" (ownProps (JSON_tree (Obj emitted))) = Str "Jap".
Proof.
  split; [reflexivity|].
  exact (shabad_without_subsection snake (shabad first_shabad) (shabad_lines first_shabad)
           "Guru Nanak Dev Ji" "Jap" first_lines_compiled
           snake_converts_shabad_names first_shabad_converts_apart
           eq_refl eq_refl eq_refl first_lines_compile).
Defined.

Lemma first_line_decodes : Forall decodes (line_translations first_line).
Proof. repeat constructor; eexists; reflexivity. Qed.

(** C5 at a line with two publications and three translation rows, two
    of them of one source. *)
Lemma line_content_and_translations_witness :
  exists emitted gurmukhi translations,
    compile_line snake first_line = inr (Obj emitted)
    /\ get "gurmukhi" emitted = Obj gurmukhi
    /\ get "translations" emitted = translations
    /\ List.length (keys gurmukhi) = 2%nat
    /\ List.length (leaf_paths translations) = 2%nat.
Proof.
  destruct (line_content_and_translations snake first_line
              ["SttM"; "SGPC"]
              [("English", "Dr. Sant Singh Khalsa"); ("Punjabi", "Prof. Sahib Singh");
               ("English", "Dr. Sant Singh Khalsa")]
              eq_refl eq_refl first_line_decodes)
    as (emitted & gurmukhi & translations & H1 & H2 & H3 & H4 & _ & H6 & _).
  exists emitted, gurmukhi, translations. repeat split; assumption.
Defined.

Lemma broken_has_malformed : has_malformed (broken 1 1 "Dr. Sant Singh Khalsa").
Proof.
  unfold has_malformed, source_malformed, shabad_malformed, line_malformed, broken.
  repeat (apply Exists_cons_hd). eexists. reflexivity.
Qed.

Lemma first_translation_apart :
  NoDup (keys (translation (translation_of 1 1 "English" "Dr. Sant Singh Khalsa" "{}")))
  /\ forall k,
       In k (keys (translation (translation_of 1 1 "English" "Dr. Sant Singh Khalsa" "{}"))) ->
       snake k = snake "additionalInformation" -> k = "additionalInformation".
Proof.
  split.
  - cbn. repeat (constructor; [simpl; intuition discriminate|]). constructor.
  - intros k Hk E. cbn in Hk. destruct Hk as [<-|[<-|[]]]; [discriminate E | reflexivity].
Qed.

(** The amended C3 at a dataset whose only translation row holds [{], and
    at a line whose rows hold [{}]. *)
Lemma malformed_information_aborts_witness :
  has_malformed (broken 1 1 "Dr. Sant Singh Khalsa")
  /\ (exists e,
        processLines snake (broken 1 1 "Dr. Sant Singh Khalsa") start
        = (console_log Subheader (newline ++ "Processing lines") start, Some e))
  /\ (exists emitted,
        compile_line snake first_line = inr (Obj emitted)
        /\ leaf_value (get "translations" emitted) "English" "Dr. Sant Singh Khalsa"
           = translation_leaf snake
               (translation_of 1 1 "English" "Dr. Sant Singh Khalsa" "{}") (Obj []))
  /\ get "additional_information"
       (ownProps (translation_leaf snake
                    (translation_of 1 1 "English" "Dr. Sant Singh Khalsa" "{}") (Obj [])))
     = Obj [].
Proof.
  split; [exact broken_has_malformed|]. split; [|split].
  - exact (proj1 (malformed_information_aborts snake)
             (broken 1 1 "Dr. Sant Singh Khalsa") start broken_has_malformed).
  - destruct (proj1 (proj2 (proj2 (proj2 (proj2 (malformed_information_aborts snake)))))
                first_line ["SttM"; "SGPC"]
                [("English", "Dr. Sant Singh Khalsa"); ("Punjabi", "Prof. Sahib Singh");
                 ("English", "Dr. Sant Singh Khalsa")]
                eq_refl eq_refl first_line_decodes) as (emitted & Hrun & Hleaf).
    exists emitted. split; [exact Hrun|]. rewrite Hleaf. reflexivity.
  - exact (proj2 (proj2 (proj2 (proj2 (proj2 (malformed_information_aborts snake)))))
             (translation_of 1 1 "English" "Dr. Sant Singh Khalsa" "{}") (Obj [])
             (proj1 first_translation_apart) (proj2 first_translation_apart)).
Defined.

(** C3 as the specification states it fails: two datasets whose malformed
    row is on different lines and of different translation sources fail
    with the same error, which holds the text [{] and nothing of either. *)
Lemma decode_error_names_no_row :
  line (broken_line 1 1 "Dr. Sant Singh Khalsa") <> line (broken_line 2 2 "Prof. Sahib Singh")
  /\ map translationSource (line_translations (broken_line 1 1 "Dr. Sant Singh Khalsa"))
     <> map translationSource (line_translations (broken_line 2 2 "Prof. Sahib Singh"))
  /\ compile_line snake (broken_line 1 1 "Dr. Sant Singh Khalsa") = inl (SyntaxError "{")
  /\ compile_line snake (broken_line 2 2 "Prof. Sahib Singh") = inl (SyntaxError "{")
  /\ snd (processLines snake (broken 1 1 "Dr. Sant Singh Khalsa") start)
     = Some (SyntaxError "{")
  /\ processLines snake (broken 1 1 "Dr. Sant Singh Khalsa") start
     = processLines snake (broken 2 2 "Prof. Sahib Singh") start.
Proof. split; [discriminate|]. split; [discriminate|]. repeat split; reflexivity. Qed.

(** Outside the premise of C2: when a line is listed in two line groups
    the join on [order_id] pairs rows across the groups, and the ranges
    depend on the row the engine takes. *)
Remark shared_line_ranges_depend_on_engine :
  bani_line_ranges pick_first shared_line = [(105, 106); (106, 107)]%Z
  /\ bani_line_ranges pick_last shared_line = [(106, 107); (106, 107)]%Z.
Proof. split; reflexivity. Qed.

(** Outside the premise of C4: a shabad without a line makes the iteratee
    of [groupBy] throw. *)
Remark shabad_without_lines_throws :
  groupBy [Obj [("id", Num 1); ("lines", Arr [])]]
  = inl (TypeError "Cannot read property 'source_page' of undefined").
Proof. reflexivity. Qed.

End Samples.

(** ** The search, further *)

Section SearchClasses.
Import JS Search.
Variable ceq : ascii -> ascii -> bool.

Lemma like_percent (p t : string) :
  like ceq (String "%" p) t
  = like ceq p t
    || match t with
       | "" => false
       | String _ t' => like ceq (String "%" p) t'
       end.
Proof. destruct t; reflexivity. Qed.

Lemma like_any (t : string) : like ceq "%" t = true.
Proof.
  induction t as [|c t IH]; rewrite like_percent; [reflexivity|].
  rewrite IH. apply orb_true_r.
Qed.

Lemma like_empty (t : string) : like ceq "" t = true -> t = "".
Proof. destruct t; [reflexivity | discriminate]. Qed.

Lemma like_append_any (p : string) :
  forall t, like ceq p t = true -> like ceq (p ++ "%") t = true.
Proof.
  induction p as [|c p IH]; intros t H.
  - apply like_empty in H. subst t. reflexivity.
  - cbn [append]. destruct (Ascii.eqb_spec c "%") as [->|Hc].
    + revert H. induction t as [|d t IHt]; intros H.
      * rewrite like_percent in *. rewrite orb_false_r in *. now apply IH.
      * rewrite (like_percent p (String d t)) in H.
        rewrite (like_percent (p ++ "%") (String d t)).
        apply orb_prop in H as [H|H].
        -- now rewrite (IH _ H).
        -- rewrite (IHt H). apply orb_true_r.
    + apply Ascii.eqb_neq in Hc. simpl in *. rewrite Hc in *.
      destruct (Ascii.eqb c "_").
      * destruct t as [|d t]; [discriminate | now apply IH].
      * destruct t as [|d t]; [discriminate|].
        apply andb_prop in H as [H1 H2]. rewrite H1. now apply IH.
Qed.

Lemma like_any_prepend (p t : string) :
  like ceq p t = true -> like ceq ("%" ++ p) t = true.
Proof.
  intros H. change ("%" ++ p) with (String "%" p). rewrite like_percent, H. reflexivity.
Qed.

Lemma match_class_hit (term text : string) :
  (match_class ceq term text < 3)%N <-> like ceq ("%" ++ term ++ "%") text = true.
Proof.
  unfold match_class. split.
  - destruct (like ceq term text) eqn:E0.
    + intros _. now apply like_any_prepend, like_append_any.
    + destruct (like ceq (term ++ "%") text) eqn:E1.
      * intros _. now apply like_any_prepend.
      * destruct (like ceq ("%" ++ term ++ "%") text); [reflexivity | lia].
  - intros ->. destruct (like ceq term text), (like ceq (term ++ "%") text); lia.
Qed.

End SearchClasses.

Section SearchComposition.
Import JS Search.
Variable toAscii : string -> string.
Variable ceq : ascii -> ascii -> bool.

(** X1.  The rows a ranked search returns are the rows of the table whose
    [CASE] value is 0, 1 or 2: the [ELSE] arm is never the value of a
    returned row, and no row of the three classes is filtered out.  The
    classes are nested: a text that is [LIKE term] is [LIKE term%], and a
    text that is [LIKE term%] is [LIKE %term%]. *)
Theorem returned_rows_are_the_ranked_classes
  (search field : string) (table : list Row) :
  one_word field = true ->
  let term := normalized toAscii search in
  exists ranked,
    execute ceq (genericSearch toAscii query search field (Bool true)) table = Some ranked
    /\ (forall r, In r ranked <-> In r table /\ (match_class ceq term (r field) < 3)%N)
    /\ (forall text, like ceq term text = true -> like ceq (term ++ "%") text = true)
    /\ (forall text,
          like ceq (term ++ "%") text = true -> like ceq ("%" ++ term ++ "%") text = true).
Proof.
  intros Hf term. eexists. split; [now apply execute_ranked|]. split; [|split].
  - intros r. split.
    + intros H. apply (Permutation_in _ (sort_by_perm _ _)) in H.
      apply filter_In in H as [Hin Hl]. split; [assumption|].
      now apply match_class_hit.
    + intros [Hin Hc]. apply (Permutation_in _ (Permutation_sym (sort_by_perm _ _))).
      apply filter_In. split; [assumption|]. now apply match_class_hit.
  - apply like_append_any.
  - intros text. apply like_any_prepend.
Qed.

(** X4.  The empty search term filters nothing: the unranked search returns
    the whole table in storage order, and under the ranking a row is in
    class 0 when its text is empty and in class 1 otherwise. *)
Theorem empty_search_returns_every_row (field : string) (table : list Row) :
  execute ceq (genericSearch toAscii query "" field (Bool false)) table = Some table
  /\ forall text, match_class ceq "" text = if text =? "" then 0%N else 1%N.
Proof.
  split.
  - rewrite execute_plain by reflexivity. f_equal.
    change (normalized toAscii "") with "".
    induction table as [|r table IH]; [reflexivity|]. cbn [filter].
    replace (like ceq ("%" ++ "" ++ "%") (r field)) with true
      by (symmetry; apply (like_any_prepend ceq "%"), like_any).
    now rewrite IH.
  - intros text. unfold match_class. cbn [append].
    rewrite like_any. destruct text; reflexivity.
Qed.

(** X3.  Searches chain: [firstLetters] followed by [fullWord] keeps the
    rows that pass both filters, ordered by the class of the first search
    and, among rows of one class, by the class of the second. *)
Theorem chained_searches_compose (letters phrase : string) (table : list Row) :
  let a := normalized toAscii letters in
  let b := normalized toAscii phrase in
  let q := fullWord toAscii (firstLetters toAscii query letters Undefined) phrase Undefined in
  let ka := fun r : Row => match_class ceq a (r "first_letters") in
  let kb := fun r : Row => match_class ceq b (r "gurmukhi") in
  wheres q = [mkWhere "first_letters" LIKE ("%" ++ a ++ "%");
              mkWhere "gurmukhi" LIKE ("%" ++ b ++ "%")]
  /\ orders q = [ranking a "first_letters"; ranking b "gurmukhi"]
  /\ exists ranked,
      execute ceq q table = Some ranked
      /\ Permutation ranked
           (filter (fun r : Row => like ceq ("%" ++ a ++ "%") (r "first_letters")
                                   && like ceq ("%" ++ b ++ "%") (r "gurmukhi")) table)
      /\ StronglySorted
           (fun r1 r2 => (ka r1 < ka r2)%N \/ (ka r1 = ka r2 /\ (kb r1 <= kb r2)%N)) ranked.
Proof.
  intros a b q ka kb.
  assert (Hw : wheres q = [mkWhere "first_letters" LIKE ("%" ++ a ++ "%");
                           mkWhere "gurmukhi" LIKE ("%" ++ b ++ "%")]).
  { unfold q, fullWord, firstLetters. now rewrite !genericSearch_wheres. }
  assert (Ho : orders q = [ranking a "first_letters"; ranking b "gurmukhi"]).
  { unfold q, fullWord, firstLetters. now rewrite !genericSearch_orders. }
  split; [exact Hw|]. split; [exact Ho|].
  unfold execute. rewrite Hw, Ho. cbn [compile_orders].
  rewrite !compile_ranking by reflexivity. cbn [map].
  eexists. split; [reflexivity|]. split.
  - rewrite sort_by_perm. erewrite filter_ext; [reflexivity|].
    intros r. cbn [forallb where_holds where_operator where_value where_column].
    now rewrite andb_true_r.
  - apply sort_by_sorted.
    + intros r1 r2 H. cbn [keys_leb] in H. fold (ka r1) (ka r2) (kb r1) (kb r2) in H.
      rewrite andb_true_r in H.
      destruct (N.ltb_spec (ka r1) (ka r2)); [now left|].
      destruct (N.eqb_spec (ka r1) (ka r2)); [|discriminate].
      destruct (N.ltb_spec (kb r1) (kb r2)); [right; lia|].
      destruct (N.eqb_spec (kb r1) (kb r2)); [right; lia | discriminate].
    + intros r1 r2 H. cbn [keys_leb] in H. fold (ka r1) (ka r2) (kb r1) (kb r2) in H.
      rewrite andb_true_r in H.
      destruct (N.ltb_spec (ka r1) (ka r2)); [discriminate|].
      destruct (N.eqb_spec (ka r1) (ka r2)).
      * destruct (N.ltb_spec (kb r1) (kb r2)); [discriminate|]. right. lia.
      * left. lia.
    + intros r1 r2 r3. lia.
Qed.

End SearchComposition.

Section LiteralTerms.
Import JS Search.

Lemma like_prefix (term : string) :
  wildcard_free term = true ->
  forall text, like Ascii.eqb (term ++ "%") text = prefix term text.
Proof.
  induction term as [|c p IH]; intros Hp text.
  - cbn [append]. rewrite like_any. destruct text; reflexivity.
  - simpl in Hp. apply andb_prop in Hp as [Hp Hw]. apply andb_prop in Hp as [Hc1 Hc2].
    simpl. destruct (Ascii.eqb c "%"); [discriminate|].
    destruct (Ascii.eqb c "_"); [discriminate|].
    destruct text as [|d t]; [reflexivity|].
    rewrite (IH Hw). cbn [prefix]. destruct (Ascii.eqb_spec c d) as [->|Hcd].
    + destruct (ascii_dec d d); [reflexivity | contradiction].
    + destruct (ascii_dec c d); [contradiction | reflexivity].
Qed.

Lemma like_occurs (term : string) :
  wildcard_free term = true ->
  forall text, like Ascii.eqb ("%" ++ term ++ "%") text = occurs_in term text.
Proof.
  intros Hp text. change ("%" ++ term ++ "%") with (String "%" (term ++ "%")).
  induction text as [|d t IH]; rewrite like_percent, (like_prefix _ Hp).
  - destruct term; reflexivity.
  - rewrite IH. destruct term; reflexivity.
Qed.

(** X2.  For a term without [%] and [_], under an engine that compares
    characters exactly, the three classes are the literal ones: 0 when the
    text is the term, 1 when it starts with the term, 2 when the term
    occurs in it, 3 otherwise. *)
Theorem literal_term_classes (term text : string) :
  wildcard_free term = true ->
  match_class Ascii.eqb term text = spec_class term text.
Proof.
  intros Hp. unfold match_class, spec_class.
  rewrite (like_wildcard_free _ _ Hp), same_text_eqb, String.eqb_sym.
  now rewrite (like_prefix _ Hp), (like_occurs _ Hp).
Qed.

End LiteralTerms.

(** ** processBanis, from the tables *)

Section BanisTables.
Import JS BuildJson.

Lemma filter_keeps_distinct {A B} (key : A -> B) (keep : A -> bool) (rows : list A) :
  NoDup (map key rows) -> NoDup (map key (filter keep rows)).
Proof.
  intros Hnd. induction rows as [|a rows IH]; [constructor|].
  cbn [map] in Hnd. inversion Hnd as [|? ? Ha Hrows]; subst.
  cbn [filter]. destruct (keep a); [|now apply IH].
  cbn [map]. constructor; [|now apply IH].
  intros Hin. apply Ha. apply in_map_iff in Hin as (x & Hx & Hin).
  apply filter_In in Hin as [Hin _]. rewrite <- Hx. now apply in_map.
Qed.

Lemma NoDup_map_eq {A B} (f : A -> B) (l : list A) a b :
  NoDup (map f l) -> In a l -> In b l -> f a = f b -> a = b.
Proof.
  induction l as [|x l IH]; simpl; intros H Ha Hb E; [contradiction|].
  inversion H as [|? ? Hx Hl]; subst.
  destruct Ha as [->|Ha], Hb as [->|Hb]; auto.
  - exfalso. apply Hx. rewrite E. now apply in_map.
  - exfalso. apply Hx. rewrite <- E. now apply in_map.
Qed.

Lemma joined_order_ids (ls : list lines_row) (bls : list bani_lines_row) :
  NoDup (map l_order_id ls) -> NoDup (map bl_line_id bls) ->
  NoDup (map order_id
           (flat_map
              (fun bl =>
                 map (fun l => mkOrdered (l_order_id l) (l_id l) (bl_line_group bl))
                     (filter (fun l => (l_id l =? bl_line_id bl)%Z) ls))
              bls)).
Proof.
  intros Hls. induction bls as [|bl bls IH]; simpl; intros Hbls; [constructor|].
  inversion Hbls as [|? ? Hbl Hrest]; subst.
  rewrite map_app, map_map. cbn [order_id].
  apply NoDup_app.
  - now apply filter_keeps_distinct.
  - now apply IH.
  - intros o Ho1 Ho2.
    apply in_map_iff in Ho1 as (l1 & E1 & Hl1). apply filter_In in Hl1 as [Hl1 Hid1].
    apply in_map_iff in Ho2 as (row & E2 & Hrow).
    apply in_flat_map in Hrow as (bl' & Hbl' & Hrow).
    apply in_map_iff in Hrow as (l2 & Erow & Hl2). apply filter_In in Hl2 as [Hl2 Hid2].
    subst row. cbn [order_id] in E2.
    assert (l1 = l2) by (apply (NoDup_map_eq l_order_id ls); congruence). subst l2.
    apply Z.eqb_eq in Hid1, Hid2. apply Hbl. rewrite <- Hid1, Hid2. now apply in_map.
Qed.

Lemma bani_lines_ordered_NoDup t bani :
  bani_keyed t bani -> NoDup (map order_id (bani_lines_ordered t bani)).
Proof.
  intros [Hls Hbls]. unfold bani_lines_ordered.
  eapply Permutation_NoDup; [|apply (joined_order_ids _ _ Hls Hbls)].
  apply Permutation_map. symmetry. apply sort_by_perm.
Qed.

Lemma bani_lines_ordered_In t bani row :
  In row (bani_lines_ordered t bani) <->
  exists bl l,
    In bl (bani_lines t) /\ bl_bani_id bl = bani
    /\ In l (lines t) /\ l_id l = bl_line_id bl
    /\ row = mkOrdered (l_order_id l) (l_id l) (bl_line_group bl).
Proof.
  unfold bani_lines_ordered. split.
  - intros H. apply (Permutation_in _ (sort_by_perm _ _)) in H.
    apply in_flat_map in H as (bl & Hbl & H). apply filter_In in Hbl as [Hbl Hb].
    apply in_map_iff in H as (l & E & Hl). apply filter_In in Hl as [Hl Hid].
    exists bl, l. apply Z.eqb_eq in Hb, Hid. auto.
  - intros (bl & l & Hbl & Hb & Hl & Hid & ->).
    apply (Permutation_in _ (Permutation_sym (sort_by_perm _ _))).
    apply in_flat_map. exists bl. split.
    + apply filter_In. split; [assumption | now apply Z.eqb_eq].
    + apply in_map_iff. exists l. split; [reflexivity|].
      apply filter_In. split; [assumption | now apply Z.eqb_eq].
Qed.

Lemma bani_lines_ordered_sorted t bani :
  StronglySorted (fun x y => (order_id x <= order_id y)%Z) (bani_lines_ordered t bani).
Proof.
  apply sort_by_sorted.
  - intros a b H. now apply Z.leb_le.
  - intros a b H. apply Z.leb_gt in H. lia.
  - intros a b c. lia.
Qed.

(** X5.  When no two lines share an [order_id] and the bani lists a line
    once, the first [with] returns one row per membership row of the bani
    that has its line, ascending by [order_id] without a repeat; and the
    ranges the query returns are the boundaries of the line groups, one
    for each line group in the order the engine lists the groups, whatever
    row the engine takes for the columns that are not aggregated. *)
Theorem bani_ranges_from_keyed_tables
  (pick : ordered_row * ordered_row -> list (ordered_row * ordered_row)
          -> ordered_row * ordered_row)
  (t : BaniTables) (bani : Z) :
  (forall r rest, In (pick r rest) (r :: rest)) ->
  bani_keyed t bani ->
  let m := bani_lines_ordered t bani in
  NoDup (map order_id m)
  /\ StronglySorted (fun x y => (order_id x <= order_id y)%Z) m
  /\ (forall row, In row m <->
        exists bl l,
          In bl (bani_lines t) /\ bl_bani_id bl = bani
          /\ In l (lines t) /\ l_id l = bl_line_id bl
          /\ row = mkOrdered (l_order_id l) (l_id l) (bl_line_group bl))
  /\ exists groups,
      NoDup groups
      /\ (forall g, In g groups <-> In g (map line_group m))
      /\ Forall2 (boundary_range m) groups (bani_line_ranges pick m).
Proof.
  intros Hpick Hk m. split; [now apply bani_lines_ordered_NoDup|].
  split; [apply bani_lines_ordered_sorted|].
  split; [apply bani_lines_ordered_In|].
  apply line_group_ranges; [assumption | now apply bani_lines_ordered_NoDup].
Qed.

End BanisTables.

Section BanisStorageOrder.
Import JS BuildJson.

Lemma filter_perm {A} (p : A -> bool) (l l' : list A) :
  Permutation l l' -> Permutation (filter p l) (filter p l').
Proof.
  induction 1 as [|x l l' _ IH|x y l|l1 l2 l3 _ IH1 _ IH2]; simpl.
  - constructor.
  - destruct (p x); [now constructor | assumption].
  - destruct (p x), (p y); try reflexivity. apply perm_swap.
  - now transitivity (filter p l2).
Qed.

Lemma flat_map_perm {A B} (f g : A -> list B) (l l' : list A) :
  Permutation l l' -> (forall x, Permutation (f x) (g x)) ->
  Permutation (flat_map f l) (flat_map g l').
Proof.
  intros Hl Hfg. transitivity (flat_map g l).
  - clear Hl. induction l as [|x l IH]; simpl; [constructor|].
    now apply Permutation_app.
  - now apply Permutation_flat_map.
Qed.

Lemma sort_by_key_unique {A} (key : A -> Z) (l l' : list A) :
  Permutation l l' -> NoDup (map key l) ->
  sort_by (fun a b => (key a <=? key b)%Z) l = sort_by (fun a b => (key a <=? key b)%Z) l'.
Proof.
  intros Hp Hnd.
  assert (Hext : forall m : list A,
             sort_by (fun a b => (key a <=? key b)%Z) m
             = Array_sort (fun a b => key a - key b)%Z m).
  { intros m. unfold Array_sort. apply sort_by_ext. intros a b.
    destruct (Z.leb_spec (key a) (key b)), (Z.leb_spec (key a - key b) 0);
      try reflexivity; lia. }
  rewrite !Hext. apply Forall2_eq_eq.
  apply (sort_respects eq key); auto; try congruence.
  clear Hnd Hext. induction Hp; [constructor | now constructor | apply permA_swap |].
  eapply permA_trans; eassumption.
Qed.

Lemma bani_lines_ordered_same t1 t2 bani :
  same_tables t1 t2 -> bani_keyed t1 bani ->
  bani_lines_ordered t1 bani = bani_lines_ordered t2 bani.
Proof.
  intros (_ & Hbl & Hl) [Hls Hbls]. unfold bani_lines_ordered.
  apply (sort_by_key_unique order_id).
  - apply flat_map_perm; [now apply filter_perm|].
    intros bl. apply Permutation_map. now apply filter_perm.
  - now apply joined_order_ids.
Qed.

(** X7.  [processBanis] does not depend on the order in which the three
    tables store their rows: when the ids of the banis are distinct, no two
    lines share an [order_id] and a bani lists a line once, the console
    output and the file are the same for the tables stored in any other
    order, whatever row the engine takes from a group. *)
Theorem banis_independent_of_storage_order
  (pick : ordered_row * ordered_row -> list (ordered_row * ordered_row)
          -> ordered_row * ordered_row)
  (t1 t2 : BaniTables) (w : World) :
  same_tables t1 t2 ->
  NoDup (map baniId (banis t1)) ->
  (forall b, In b (banis t1) -> bani_keyed t1 (baniId b)) ->
  processBanis pick t1 w = processBanis pick t2 w.
Proof.
  intros Hsame Hnd Hkeyed. unfold processBanis. rewrite !compile_banis_fold.
  assert (Hb : getTable_banis t1 = getTable_banis t2).
  { unfold getTable_banis. apply (sort_by_key_unique baniId); [apply Hsame | assumption]. }
  rewrite <- Hb. cbn [fst snd app].
  assert (Hc : map (compiled_bani pick t1) (getTable_banis t1)
               = map (compiled_bani pick t2) (getTable_banis t1)).
  { apply map_ext_in. intros b Hin. unfold compiled_bani.
    rewrite (bani_lines_ordered_same t1 t2 (baniId b) Hsame); [reflexivity|].
    apply Hkeyed. apply (Permutation_in _ (sort_by_perm _ _)) in Hin. exact Hin. }
  now rewrite Hc.
Qed.

(** X6.  [processBanis] saves one object per bani, in ascending order of
    the ids; the object of a bani holds every column of the bani but its
    id, with the value of the column, and [lines], the ranges of the query,
    also when the bani has a column of that name. *)
Theorem bani_columns_are_kept
  (pick : ordered_row * ordered_row -> list (ordered_row * ordered_row)
          -> ordered_row * ordered_row)
  (t : BaniTables) (w : World) :
  (forall b, In b (banis t) -> NoDup (keys (bani_data b))) ->
  let rows := getTable_banis t in
  files (processBanis pick t w)
  = (files w
     ++ [("./data.tmp/banis.json", JSON_tree (Arr (map (compiled_bani pick t) rows)))])%list
  /\ Permutation rows (banis t)
  /\ StronglySorted (fun a b => (baniId a <= baniId b)%Z) rows
  /\ forall b, In b rows ->
       (forall k, k <> "lines" ->
          get k (ownProps (compiled_bani pick t b)) = get k (bani_data b))
       /\ (forall k, In k (keys (ownProps (compiled_bani pick t b)))
                     <-> k = "lines" \/ In k (keys (bani_data b)))
       /\ get "lines" (ownProps (compiled_bani pick t b))
          = Arr (map range_object (bani_line_ranges pick (bani_lines_ordered t (baniId b)))).
Proof.
  intros Hdata rows. split; [|split; [|split]].
  - unfold processBanis. rewrite compile_banis_fold. reflexivity.
  - apply sort_by_perm.
  - apply sort_by_sorted.
    + intros a b H. now apply Z.leb_le.
    + intros a b H. apply Z.leb_gt in H. lia.
    + intros a b c. lia.
  - intros b Hin. apply (Permutation_in _ (sort_by_perm _ _)) in Hin.
    pose proof (Hdata b Hin) as Hnd. unfold compiled_bani. cbn [ownProps].
    split; [|split].
    + intros k Hk. now apply get_with_lines.
    + intros k. rewrite In_keys_set, In_keys_spread. simpl. intuition.
    + rewrite get_set. now rewrite String.eqb_refl.
Qed.

End BanisStorageOrder.

(** ** The array after the key conversion *)

Section Flatten.
Import JS BuildJson.
Variable snakeCase : string -> string.

Lemma snakeCaseKeys_Arr items :
  snakeCaseKeys snakeCase (Arr items) = convert_items snakeCase 0 items [].
Proof.
  simpl. generalize 0%N as i, (@nil (string * Value)) as target.
  induction items as [|x items IH]; intros i target; simpl; [reflexivity|].
  rewrite IH. reflexivity.
Qed.

Lemma values_from (o : Object) : forall acc,
  fold_left (fun final kv => (final ++ [snd kv])%list) o acc = (acc ++ map snd o)%list.
Proof.
  induction o as [|kv o IH]; intros acc; simpl; [now rewrite app_nil_r|].
  rewrite IH, <- app_assoc. reflexivity.
Qed.

Lemma values_map (o : Object) : values o = map snd o.
Proof. unfold values. now rewrite values_from. Qed.

(** A new index above the indices an object has is listed last. *)
Lemma set_next_index (target : Object) (i : N) v :
  (i < 4294967295)%N ->
  (forall k, In k (keys target) -> exists j, k = N_toString j /\ (j < i)%N) ->
  set (N_toString i) v target = (target ++ [(N_toString i, v)])%list.
Proof.
  intros Hi Hkeys. unfold set.
  assert (Hhas : has (N_toString i) target = false).
  { apply has_false. intros Hin. destruct (Hkeys _ Hin) as (j & E & Hj).
    apply N_toString_inj in E. lia. }
  rewrite Hhas, (arrayIndex_N_toString i Hi).
  clear Hhas. induction target as [|[k x] target IH]; simpl; [reflexivity|].
  destruct (Hkeys k (or_introl eq_refl)) as (j & -> & Hj).
  rewrite (arrayIndex_N_toString j) by lia.
  destruct (N.ltb_spec i j); [lia|]. rewrite IH; [reflexivity|].
  intros k' Hk'. apply Hkeys. now right.
Qed.

Lemma convert_items_values xs : forall i target,
  keeps_indices snakeCase ->
  (i + N.of_nat (List.length xs) <= 4294967295)%N ->
  (forall k, In k (keys target) -> exists j, k = N_toString j /\ (j < i)%N) ->
  values (convert_items snakeCase i xs target)
  = (values target ++ map (deep_value snakeCase) xs)%list.
Proof.
  induction xs as [|x xs IH]; intros i target Hkeep Hlen Hkeys.
  - simpl. now rewrite app_nil_r.
  - cbn [convert_items]. rewrite Hkeep.
    cbn [List.length] in Hlen.
    rewrite set_next_index; [|lia|assumption].
    rewrite IH; [| assumption | lia |].
    + rewrite !values_map, map_app. cbn [map snd]. now rewrite <- app_assoc.
    + intros k Hin. unfold keys in Hin. rewrite map_app in Hin.
      apply in_app_or in Hin as [Hin|[<-|[]]].
      * destruct (Hkeys k Hin) as (j & E & Hj). exists j. split; [assumption | lia].
      * exists i. split; [reflexivity | lia].
Qed.

Lemma logs_keep_files {A} (message : A -> Style * string) (l : list A) : forall w,
  files (fold_left (fun w a => console_log (fst (message a)) (snd (message a)) w) l w)
  = files w.
Proof. induction l as [|a l IH]; intros w; simpl; [reflexivity | now rewrite IH]. Qed.

(** X8.  The flattening after the key conversion gives the array back:
    when the conversion leaves array indices as they are, the values of the
    converted array, read in the order of its keys, are the elements of the
    array in their order, each with its keys converted.  So
    [processSources] saves one object per source, in ascending order of the
    ids. *)
Theorem flatten_returns_the_array (items : list Value) (sources : list source_row) (w : World) :
  keeps_indices snakeCase ->
  (N.of_nat (List.length items) <= 4294967295)%N ->
  (N.of_nat (List.length sources) <= 4294967295)%N ->
  values (snakeCaseKeys snakeCase (Arr items)) = map (deep_value snakeCase) items
  /\ files (processSources snakeCase sources w)
     = (files w
        ++ [("./data.tmp/sources.json",
             JSON_tree
               (Arr (map (fun s => deep_value snakeCase (compile_source s))
                       (Array_sort (fun a b => source_id a - source_id b)%Z sources))))])%list.
Proof.
  intros Hkeep Hitems Hsources.
  assert (Hflat : forall xs, (N.of_nat (List.length xs) <= 4294967295)%N ->
            values (snakeCaseKeys snakeCase (Arr xs)) = map (deep_value snakeCase) xs).
  { intros xs Hxs. rewrite snakeCaseKeys_Arr.
    rewrite convert_items_values; [reflexivity | assumption | lia |].
    intros k []. }
  split; [now apply Hflat|].
  unfold processSources. rewrite Hflat.
  - rewrite map_map. unfold saveData, writeJSON. cbn [default truthy console_log files].
    f_equal. now rewrite (logs_keep_files compiling_source).
  - rewrite length_map.
    rewrite (Permutation_length (Array_sort_perm source_id sources)). assumption.
Qed.

End Flatten.

(** ** What processSources saves *)

Section SourcesSaved.
Import JS BuildJson.
Variable snakeCase : string -> string.

Lemma get_with_set (k : string) (v : Value) (rest : Object) t :
  NoDup (keys rest) -> t <> k -> get t (set k v (spread rest [])) = get t rest.
Proof.
  intros Hnd Hne. rewrite get_set.
  destruct (String.eqb_spec k t); [congruence|]. now apply get_spread_new.
Qed.

Lemma keys_with (k : string) (v : Value) (rest : Object) t :
  In t (keys (set k v (spread rest []))) <-> t = k \/ In t (keys rest).
Proof. now rewrite In_keys_set, In_keys_spread_new. Qed.

(** A property set on a copy of [rest] is found, its value converted,
    under its converted name. *)
Lemma get_converted (k : string) (v : Value) (rest : Object) :
  key_apart snakeCase k rest ->
  get (snakeCase k) (snakeCaseKeys snakeCase (Obj (set k v (spread rest []))))
  = deep_value snakeCase v.
Proof.
  intros Hapart. rewrite (get_snakeCaseKeys snakeCase k).
  - now rewrite get_set, String.eqb_refl.
  - apply NoDup_keys_set, NoDup_keys_spread. constructor.
  - apply keys_with. now left.
  - intros k' Hk' E. apply keys_with in Hk' as [Hk'|Hk']; [exact Hk' | now apply Hapart].
Qed.

(** C6.  Two retrievals of the same rows, in whatever order at each level
    (sources, sections of a source, subsections of a section), give
    [processSources] the same console output and the same file, when ids
    are keys.  The file holds the sources in ascending order of their ids;
    a source is saved as its own columns, id apart, and [sections], its
    sections in ascending order of their ids; a section as its own columns,
    id and [sourceId] apart, and [subsections], its subsections in
    ascending order of their ids, each saved as its own columns, id and
    [sectionId] apart; the names of the properties are converted. *)
Theorem sources_independent_of_retrieval_order (run1 run2 : list source_row) (w : World) :
  sources_keyed run1 ->
  PermutationA same_source run1 run2 ->
  let sorted := Array_sort (fun a b => source_id a - source_id b)%Z run1 in
  let sections_of := fun s : source_row =>
    Array_sort (fun a b => section_id a - section_id b)%Z (sections s) in
  let subsections_of := fun s : section_row =>
    Array_sort (fun a b => subsection_id a - subsection_id b)%Z (subsections s) in
  processSources snakeCase run1 w = processSources snakeCase run2 w
  /\ StronglySorted (fun a b => (source_id a <= source_id b)%Z) sorted
  /\ (forall s : source_row,
        StronglySorted (fun a b => (section_id a <= section_id b)%Z) (sections_of s))
  /\ (forall s : section_row,
        StronglySorted (fun a b => (subsection_id a <= subsection_id b)%Z) (subsections_of s))
  /\ Permutation sorted run1
  /\ (forall s, Permutation (sections_of s) (sections s))
  /\ (forall s, Permutation (subsections_of s) (subsections s))
  /\ files (processSources snakeCase run1 w)
     = (files w
        ++ [("./data.tmp/sources.json",
             JSON_tree (Arr (values (snakeCaseKeys snakeCase
                                       (Arr (map compile_source sorted))))))])%list
  /\ (keeps_indices snakeCase ->
      (N.of_nat (List.length run1) <= 4294967295)%N ->
      values (snakeCaseKeys snakeCase (Arr (map compile_source sorted)))
      = map (fun s => Obj (snakeCaseKeys snakeCase (compile_source s))) sorted)
  /\ (forall s : source_row,
        (forall k, In k (keys (ownProps (compile_source s)))
                   <-> k = "sections" \/ In k (keys (source_rest s)))
        /\ (NoDup (keys (source_rest s)) ->
            forall k, k <> "sections" ->
              get k (ownProps (compile_source s)) = get k (source_rest s))
        /\ get "sections" (ownProps (compile_source s))
           = Arr (map compile_section (sections_of s))
        /\ (key_apart snakeCase "sections" (source_rest s) ->
            get (snakeCase "sections") (snakeCaseKeys snakeCase (compile_source s))
            = Arr (map (fun x => Obj (snakeCaseKeys snakeCase (compile_section x)))
                     (sections_of s))))
  /\ (forall s : section_row,
        (forall k, In k (keys (ownProps (compile_section s)))
                   <-> k = "subsections" \/ In k (keys (section_rest s)))
        /\ (NoDup (keys (section_rest s)) ->
            forall k, k <> "subsections" ->
              get k (ownProps (compile_section s)) = get k (section_rest s))
        /\ get "subsections" (ownProps (compile_section s))
           = Arr (map (fun x => Obj (subsection_rest x)) (subsections_of s))
        /\ (key_apart snakeCase "subsections" (section_rest s) ->
            get (snakeCase "subsections") (snakeCaseKeys snakeCase (compile_section s))
            = Arr (map (fun x => Obj (snakeCaseKeys snakeCase (Obj (subsection_rest x))))
                     (subsections_of s)))).
Proof.
  intros [Hnd Hall] Hperm sorted sections_of subsections_of.
  split; [|split; [|split; [|split; [|split; [|split; [|split; [|split; [|split; [|split]]]]]]]]].
  2: apply Array_sort_sorted.
  2: intros s; apply Array_sort_sorted.
  2: intros s; apply Array_sort_sorted.
  2: apply (Array_sort_perm source_id).
  2: intros s; apply (Array_sort_perm section_id).
  2: intros s; apply (Array_sort_perm subsection_id).
  - assert (Hsorted : Forall2 same_source sorted
              (Array_sort (fun a b => source_id a - source_id b)%Z run2)).
    { apply (sort_respects same_source source_id); auto.
      - apply same_source_refl.
      - apply same_source_trans.
      - now intros x y (E & _). }
    assert (Hkeyed : Forall source_keyed sorted).
    { eapply Permutation_Forall; [|exact Hall]. symmetry. apply Array_sort_perm. }
    unfold processSources. fold sorted.
    rewrite (map_same same_source source_keyed compile_source _ _ compile_source_same
               Hsorted Hkeyed).
    f_equal.
    generalize (console_log Subheader (newline ++ "Processing sources") w). intros w0.
    revert w0 Hkeyed.
    induction Hsorted as [|a b l l' Hab _ IH]; intros w0 Hk; cbn [fold_left]; [reflexivity|].
    inversion Hk; subst.
    assert (Hmsg : compiling_source a = compiling_source b).
    { unfold compiling_source. now destruct Hab as (_ & -> & _). }
    rewrite Hmsg. now apply IH.
  - unfold processSources. fold sorted. unfold saveData, writeJSON.
    cbn [default truthy console_log files]. f_equal.
    now rewrite (logs_keep_files compiling_source).
  - intros Hkeep Hlen. rewrite snakeCaseKeys_Arr.
    rewrite (convert_items_values snakeCase _ 0 [] Hkeep); [| |intros k []].
    + cbn [values fold_left app]. rewrite map_map. reflexivity.
    + rewrite length_map. unfold sorted.
      rewrite (Permutation_length (Array_sort_perm source_id run1)). lia.
  - intros s. unfold compile_source. cbn [ownProps]. fold (sections_of s).
    split; [apply keys_with|]. split; [|split].
    + intros Hr k Hk. now apply get_with_set.
    + now rewrite get_set, String.eqb_refl.
    + intros Hapart. rewrite (get_converted _ _ _ Hapart). cbn [deep_value].
      rewrite !map_map. reflexivity.
  - intros s. unfold compile_section. cbn [ownProps]. fold (subsections_of s).
    split; [apply keys_with|]. split; [|split].
    + intros Hr k Hk. now apply get_with_set.
    + now rewrite get_set, String.eqb_refl.
    + intros Hapart. rewrite (get_converted _ _ _ Hapart). cbn [deep_value].
      rewrite !map_map. reflexivity.
Qed.

End SourcesSaved.

(** ** The pages of a source, further *)

Section PagesInOrder.
Import JS BuildJson.

Lemma on_page_shabads_snoc q zs s p :
  on_page_shabads q (zs ++ [(s, p)])
  = (on_page_shabads q zs ++ if (p =? q)%N then [s] else [])%list.
Proof.
  unfold on_page_shabads. rewrite filter_app, map_app. simpl.
  destruct (p =? q)%N; reflexivity.
Qed.

Lemma other_pages_keep zs0 s p (view : list (N * list Value)) :
  Forall (fun pg => snd pg = on_page_shabads (fst pg) zs0) view ->
  Forall (fun pg => fst pg <> p) view ->
  Forall (fun pg => snd pg = on_page_shabads (fst pg) (zs0 ++ [(s, p)])) view.
Proof.
  intros H1 H2. induction H1 as [|pg view Hpg _ IH]; inversion H2; subst; constructor; auto.
  rewrite on_page_shabads_snoc. destruct (N.eqb_spec p (fst pg)); [congruence|].
  now rewrite app_nil_r.
Qed.

Lemma add_page_select zs0 p s view :
  StronglySorted N.lt (map fst view) ->
  Forall (fun pg => snd pg = on_page_shabads (fst pg) zs0) view ->
  (~ In p (map fst view) -> on_page_shabads p zs0 = []) ->
  Forall (fun pg => snd pg = on_page_shabads (fst pg) (zs0 ++ [(s, p)])) (add_page p s view).
Proof.
  induction view as [|[q g] view IH]; intros Hs Hall Hnew; cbn [add_page].
  - constructor; [|constructor]. cbn [fst snd].
    rewrite on_page_shabads_snoc, N.eqb_refl, Hnew; auto.
  - cbn [map fst] in Hs. inversion Hs as [|? ? Hs' Hlt]; subst.
    inversion Hall as [|? ? Hg Hall']; subst. cbn [fst snd] in Hg.
    assert (Hafter : Forall (fun pg : N * list Value => (q < fst pg)%N) view).
    { apply Forall_forall. intros pg Hin. rewrite Forall_forall in Hlt.
      apply Hlt. now apply in_map. }
    destruct (N.eqb_spec p q) as [->|Hne].
    + constructor.
      * cbn [fst snd]. rewrite on_page_shabads_snoc, N.eqb_refl. now rewrite Hg.
      * apply other_pages_keep; [assumption|].
        eapply Forall_impl; [|exact Hafter]. cbv beta. intros; lia.
    + destruct (N.ltb_spec p q) as [Hlt'|Hge].
      * constructor.
        -- cbn [fst snd]. rewrite on_page_shabads_snoc, N.eqb_refl, Hnew; [reflexivity|].
           cbn [map fst]. intros [E|Hin]; [lia|].
           rewrite Forall_forall in Hlt. specialize (Hlt p Hin). lia.
        -- apply other_pages_keep; [now constructor|].
           constructor; [cbn [fst]; lia|].
           eapply Forall_impl; [|exact Hafter]. cbv beta. intros; lia.
      * constructor.
        -- cbn [fst snd]. rewrite on_page_shabads_snoc.
           destruct (N.eqb_spec p q); [congruence|]. now rewrite app_nil_r.
        -- apply IH; auto. intros Hn. apply Hnew. cbn [map fst].
           intros [E|Hin]; [congruence | auto].
Qed.

Lemma file_pages_spec zs : forall zs0 view,
  ascending view ->
  Forall (fun sp : Value * N => (snd sp < 4294967295)%N) zs ->
  Forall (fun pg => snd pg = on_page_shabads (fst pg) zs0) view ->
  (forall p, ~ In p (map fst view) -> on_page_shabads p zs0 = []) ->
  ascending (file_pages zs view)
  /\ Forall (fun pg => snd pg = on_page_shabads (fst pg) (zs0 ++ zs)) (file_pages zs view)
  /\ (forall q, In q (map fst (file_pages zs view)) <-> In q (map snd zs) \/ In q (map fst view)).
Proof.
  induction zs as [|[s p] zs IH]; intros zs0 view Hasc Hb Hall Hnew.
  - cbn [file_pages fold_left map]. rewrite app_nil_r.
    split; [assumption|]. split; [assumption|]. intros q. cbn [In]. tauto.
  - inversion Hb as [|? ? Hp Hb']; subst. cbn [snd] in Hp.
    change (file_pages ((s, p) :: zs) view) with (file_pages zs (add_page p s view)).
    assert (Hasc' : ascending (add_page p s view)) by now apply add_page_ascending.
    assert (Hall' : Forall (fun pg => snd pg = on_page_shabads (fst pg) (zs0 ++ [(s, p)]))
                      (add_page p s view)).
    { apply add_page_select; [apply Hasc | assumption | apply Hnew]. }
    assert (Hnew' : forall p', ~ In p' (map fst (add_page p s view)) ->
                      on_page_shabads p' (zs0 ++ [(s, p)]) = []).
    { intros p' Hp'. rewrite on_page_shabads_snoc.
      assert (Hne : p' <> p) by (intros ->; apply Hp', add_page_keys; now left).
      rewrite Hnew.
      - destruct (N.eqb_spec p p'); [congruence | reflexivity].
      - intros Hin. apply Hp', add_page_keys. now right. }
    destruct (IH (zs0 ++ [(s, p)])%list (add_page p s view) Hasc' Hb' Hall' Hnew')
      as (H1 & H2 & H3).
    rewrite <- app_assoc in H2. split; [assumption|]. split; [assumption|].
    intros q. rewrite H3, add_page_keys. cbn [map snd In]. intuition auto.
Qed.

Lemma groupBy_file_pages shabads_ : forall ps view,
  Forall2 on_page shabads_ ps -> ascending view ->
  foldM group_shabad shabads_ (render_pages view)
  = inr (render_pages (file_pages (combine shabads_ ps) view)).
Proof.
  induction shabads_ as [|s l IH]; intros ps view Hpages Hasc;
    inversion Hpages as [|? p ? ps' Hs Hrest]; subst; [reflexivity|].
  cbn [foldM combine]. rewrite (group_shabad_render view p s Hasc Hs). cbn [bind].
  change (file_pages ((s, p) :: combine l ps') view)
    with (file_pages (combine l ps') (add_page p s view)).
  apply IH; [assumption|]. apply add_page_ascending; [assumption | apply Hs].
Qed.

Lemma combine_pages (shabads_ : list Value) (ps : list N) :
  Forall2 on_page shabads_ ps ->
  map snd (combine shabads_ ps) = ps
  /\ Forall (fun sp : Value * N => (snd sp < 4294967295)%N) (combine shabads_ ps).
Proof.
  induction 1 as [|s p l ps' Hs _ [IH1 IH2]]; simpl; [split; [reflexivity | constructor]|].
  split; [now rewrite IH1|]. constructor; [apply Hs | assumption].
Qed.

Lemma combine_starts (shabads_ : list Value) (ps : list N) s q :
  Forall2 starts_on_page shabads_ ps -> In (s, q) (combine shabads_ ps) ->
  starts_on_page s q.
Proof.
  induction 1 as [|x p l ps' Hx _ IH]; simpl; intros Hin; [contradiction|].
  destruct Hin as [E|Hin]; [inversion E; subst; exact Hx | now apply IH].
Qed.

(** X11.  Grouping by pages keeps the order of the shabads: when every
    shabad of a source has lines, the first of them on a numbered page, the
    groups are listed by ascending page, one for each page a shabad starts
    on, and the group of a page holds the shabads whose first line is on
    it, in the order the source lists them; the files of the source are
    saved in that order of the pages. *)
Theorem shabads_keep_their_order_on_a_page
  (shabads_ : list Value) (ps : list N) (source : string) (w : World) :
  Forall2 starts_on_page shabads_ ps ->
  exists view,
    groupBy shabads_ = inr (render_pages view)
    /\ StronglySorted N.lt (map fst view)
    /\ (forall q, In q (map fst view) <-> In q ps)
    /\ Forall (fun pg => snd pg = on_page_shabads (fst pg) (combine shabads_ ps)) view
    /\ Forall (fun pg => Forall (fun s => starts_on_page s (fst pg)) (snd pg)) view
    /\ files (write_source w (source, Obj (render_pages view)))
       = (files w ++ map (page_file source (render_pages view)) (render_pages view))%list.
Proof.
  intros Hstarts. pose proof (starts_on_pages _ _ Hstarts) as Hpages.
  exists (file_pages (combine shabads_ ps) []).
  destruct (combine_pages _ _ Hpages) as [Hsnd Hbound].
  assert (Hempty : ascending []) by (split; constructor).
  destruct (file_pages_spec (combine shabads_ ps) [] [] Hempty Hbound)
    as (Hasc & Hall & Hkeys); [constructor | reflexivity |].
  split; [apply (groupBy_file_pages shabads_ ps [] Hpages); split; constructor|].
  split; [apply Hasc|]. split; [|split; [exact Hall|split; [|apply write_source_files]]].
  - intros q. rewrite Hkeys, Hsnd. cbn [map]. intuition auto. contradiction.
  - eapply Forall_impl; [|exact Hall]. intros [q g] Hg. cbn [fst snd] in *. subst g.
    apply Forall_forall. intros s Hs. unfold on_page_shabads in Hs.
    apply in_map_iff in Hs as ([s' q'] & E & Hin). cbn [fst] in E. subst s'.
    apply filter_In in Hin as [Hin Hq]. cbn [snd] in Hq. apply N.eqb_eq in Hq. subst q'.
    now apply (combine_starts shabads_ ps).
Qed.

Lemma zeros_cons m :
  String.concat "" (repeat "0" (S m)) = String "0" (String.concat "" (repeat "0" m)).
Proof. destruct m; reflexivity. Qed.

Lemma numeral_from_zeros m s :
  numeral_from 0 (String.concat "" (repeat "0" m) ++ s) = numeral_from 0 s.
Proof.
  induction m as [|m IH]; [reflexivity|].
  rewrite zeros_cons. cbn [append numeral_from]. exact IH.
Qed.

(** A page number padded with zeros reads back as the number. *)
Lemma numeral_padStart n q : numeral (padStart n (N_toString q)) = Some q.
Proof.
  pose proof (numeral_N_toString q) as Hq. unfold padStart, numeral in *.
  destruct (N_toString q) as [|c t] eqn:E; [discriminate|].
  rewrite <- Hq, <- (numeral_from_zeros (n - String.length (String c t)) (String c t)).
  destruct (String.concat "" (repeat "0" (n - String.length (String c t)))); reflexivity.
Qed.

(** X10.  The labels of the pages of a source read back as the page
    numbers: the zeros [padStart] puts before a page number do not change
    the number, so no two pages of a source are saved under one label. *)
Theorem page_labels_read_back (shabads_ : list Value) (ps : list N) :
  Forall2 on_page shabads_ ps ->
  exists pages,
    groupBy shabads_ = inr pages
    /\ (forall k, In k (keys pages) ->
          exists q, In q ps /\ k = N_toString q /\ numeral (page_label pages k) = Some q)
    /\ NoDup (map (page_label pages) (keys pages)).
Proof.
  intros Hpages.
  destruct (groupBy_render shabads_ ps [] Hpages) as (view & Hrun & Hasc & _ & Hkeys & _).
  { split; constructor. }
  { constructor. }
  exists (render_pages view). split; [exact Hrun|].
  assert (Hlabel : forall k, In k (keys (render_pages view)) ->
            exists q, In q ps /\ k = N_toString q
                      /\ numeral (page_label (render_pages view) k) = Some q).
  { intros k Hk. rewrite keys_render in Hk.
    apply in_map_iff in Hk as (q & <- & Hq). exists q.
    split; [apply Hkeys in Hq; destruct Hq as [Hq|[]]; exact Hq|].
    split; [reflexivity | apply numeral_padStart]. }
  split; [exact Hlabel|].
  pose proof (NoDup_keys_render view Hasc) as Hnd.
  revert Hlabel. generalize (page_label (render_pages view)) as label.
  intros label Hlabel.
  induction Hnd as [|k ks Hk _ IH]; simpl; constructor.
  - intros Hin. apply in_map_iff in Hin as (k' & E & Hk').
    destruct (Hlabel k (or_introl eq_refl)) as (q & _ & Eq & Hq).
    destruct (Hlabel k' (or_intror Hk')) as (q' & _ & Eq' & Hq').
    rewrite E, Hq in Hq'. inversion Hq'. subst. contradiction.
  - apply IH. intros k' Hk'. apply Hlabel. now right.
Qed.

End PagesInOrder.

(** ** processLines, further *)

Section SourcesByName.
Import JS BuildJson.
Variable snakeCase : string -> string.

Lemma compile_sources_by_name sources : forall (acc by_source : Object),
  NoDup (keys acc) ->
  foldM (compile_source_shabads snakeCase) sources acc = inr by_source ->
  NoDup (keys by_source)
  /\ (forall n, In n (keys by_source)
                <-> In n (map (fun s => ToString (nameEnglish s)) sources) \/ In n (keys acc))
  /\ (forall n, get n by_source
                = last_source (compile_shabad snakeCase) n sources (get n acc)).
Proof.
  induction sources as [|s sources IH]; intros acc by_source Hnd Hrun.
  - simpl in Hrun. inversion Hrun; subst. split; [assumption|].
    split; [intros n; simpl; tauto | reflexivity].
  - cbn [foldM] in Hrun. unfold compile_source_shabads at 1 in Hrun.
    destruct (compile_shabads snakeCase (shabads s)) as [e|compiled] eqn:Hs';
      cbn [bind ret] in Hrun; [discriminate|].
    pose proof (compile_shabads_inr snakeCase _ _ Hs') as Hs.
    apply IH in Hrun as (H1 & H2 & H3).
    + split; [assumption|]. split.
      * intros n. rewrite H2, In_keys_set, In_keys_spread_new. cbn [map In].
        intuition auto.
      * intros n. rewrite H3, get_set, get_spread_new by assumption.
        unfold last_source. cbn [fold_left]. rewrite Hs. reflexivity.
    + apply NoDup_keys_set, NoDup_keys_spread. constructor.
Qed.

(** X9.  The shabads are filed by the name of their source: after the
    sources are compiled there is one entry per name, and under a name are
    the shabads of the last source of that name; the shabads of an earlier
    source of the same name are not in the result. *)
Theorem sources_are_filed_by_name (sources : list source_input) (by_source : Object) :
  foldM (compile_source_shabads snakeCase) sources [] = inr by_source ->
  NoDup (keys by_source)
  /\ (forall n, In n (keys by_source)
                <-> In n (map (fun s => ToString (nameEnglish s)) sources))
  /\ (forall n, get n by_source
                = last_source (compile_shabad snakeCase) n sources Undefined)
  /\ (forall before s after compiled,
        sources = (before ++ s :: after)%list ->
        mapM (compile_shabad snakeCase) (shabads s) = inr compiled ->
        Forall (fun s' => ToString (nameEnglish s') <> ToString (nameEnglish s)) after ->
        get (ToString (nameEnglish s)) by_source = Arr compiled).
Proof.
  intros Hrun.
  destruct (compile_sources_by_name sources [] by_source) as (H1 & H2 & H3);
    [constructor | assumption |].
  split; [assumption|]. split; [|split; [exact H3|]].
  - intros n. rewrite H2. simpl. tauto.
  - intros before s after compiled -> Hs Hafter. rewrite H3. unfold last_source.
    rewrite fold_left_app. cbn [fold_left]. rewrite String.eqb_refl, Hs.
    clear H1 H2 H3 Hrun. induction Hafter as [|s' after Hne _ IH]; [reflexivity|].
    cbn [fold_left]. apply String.eqb_neq in Hne. now rewrite Hne.
Qed.

Lemma shabad_head_unloaded (s : Object) :
  unloaded (get "writer" s) \/ unloaded (get "section" s) ->
  exists msg, shabad_head snakeCase s = inl (TypeError msg).
Proof.
  unfold shabad_head, unloaded. intros [[H|H]|[H|H]].
  - rewrite H. simpl. eauto.
  - rewrite H. simpl. eauto.
  - destruct (get "writer" s); rewrite H; simpl; eauto.
  - destruct (get "writer" s); rewrite H; simpl; eauto.
Qed.

Lemma compile_shabad_unloaded (s : shabad_input) :
  shabad_unloaded s -> exists msg, compile_shabad snakeCase s = inl (TypeError msg).
Proof.
  intros H. unfold compile_shabad.
  destruct (shabad_head_unloaded (shabad s) H) as [msg ->]. simpl. eauto.
Qed.

(** X12.  A shabad whose writer or section was not loaded cannot be
    compiled: reading the name throws a [TypeError], whatever the lines of
    the shabad are; and a dataset with such a shabad makes [processLines]
    fail with nothing written and no directory made. *)
Theorem unloaded_relation_aborts :
  (forall s rows,
      unloaded (get "writer" s) \/ unloaded (get "section" s) ->
      exists msg, compile_shabad snakeCase (mkShabad s rows) = inl (TypeError msg))
  /\ (forall sources w,
        Exists (fun source => Exists shabad_unloaded (shabads source)) sources ->
        exists e,
          processLines snakeCase sources w
          = (console_log Subheader (newline ++ "Processing lines") w, Some e)).
Proof.
  split.
  - intros s rows H. now apply compile_shabad_unloaded.
  - intros sources w H. unfold processLines, compile_pages.
    destruct (foldM_Exists (compile_source_shabads snakeCase)
                (fun source => Exists shabad_unloaded (shabads source)) sources) with (acc := @nil (string * Value))
      as [e He].
    + intros acc source Hs. unfold compile_source_shabads.
      destruct (mapM_Exists (compile_shabad snakeCase) shabad_unloaded (shabads source))
        as [e He]; [|exact Hs|].
      * intros a Ha. destruct (compile_shabad_unloaded a Ha) as [msg Hmsg]. eauto.
      * destruct (compile_shabads_inl snakeCase _ _ He) as [e' ->]. simpl. eauto.
    + exact H.
    + rewrite He. simpl. eauto.
Qed.

(** X17.  A line without translations is saved with an empty
    [translations] object: the [reduce] returns the promise it starts
    from, and a promise is written as [{}]; the line keeps its content
    mapping. *)
Theorem line_without_translations (row : line_row) (names : list string) :
  line_translations row = [] ->
  mapM content_key (line_content row) = inr names ->
  exists emitted,
    compile_line snakeCase row = inr (Obj emitted)
    /\ get "translations" emitted = PromiseOf (Obj [])
    /\ get "translations" (ownProps (JSON_tree (Obj emitted))) = Obj []
    /\ has "translations" (ownProps (JSON_tree (Obj emitted))) = true.
Proof.
  intros Hnone Hnames. unfold compile_line. rewrite Hnone.
  destruct (content_mapping (line_content row) names [] Hnames) as (g & -> & _);
    [constructor|].
  cbn [bind foldM ret]. eexists. split; [reflexivity|].
  set (emitted := set "translations" _ _).
  assert (Hget : get "translations" emitted = PromiseOf (Obj [])).
  { unfold emitted. now rewrite get_set, String.eqb_refl. }
  assert (Hnd : NoDup (keys emitted)).
  { unfold emitted. apply NoDup_keys_set, NoDup_keys_set, NoDup_keys_spread. constructor. }
  destruct (JSON_tree_Obj emitted "translations" Hnd) as [Hg Hh].
  split; [exact Hget|]. split.
  - rewrite Hg, Hget. reflexivity.
  - rewrite Hh, Hget. unfold emitted. rewrite has_set, String.eqb_refl. reflexivity.
Qed.

End SourcesByName.

(** ** processTranslationSources *)

Section TranslationSourcesFacts.
Import JS BuildJson.
Variable snakeCase : string -> string.

Lemma mapM_length {A B} (f : A -> Result B) (l : list A) : forall bs,
  mapM f l = inr bs -> List.length bs = List.length l.
Proof.
  induction l as [|a l IH]; intros bs H.
  - inversion H. reflexivity.
  - apply mapM_cons_inr in H as (b & bs' & _ & Hl & ->). simpl. now rewrite (IH bs').
Qed.

Lemma compile_translation_sources_loaded rows : forall names w done,
  mapM translation_source_names rows = inr names ->
  compile_translation_sources rows w done
  = (mkWorld
       (console w
        ++ map (fun rn => compiling_translation_source (fst rn) (snd rn)) (combine rows names))
       (dirs w) (files w),
     inr (done ++ map (fun rn => compiled_translation_source (fst rn) (snd rn))
                    (combine rows names))%list).
Proof.
  induction rows as [|row rows IH]; intros names w done H.
  - inversion H. simpl. rewrite !app_nil_r. now destruct w.
  - apply mapM_cons_inr in H as (nm & names' & Hrow & Hrest & ->).
    cbn [compile_translation_sources]. rewrite Hrow.
    rewrite (IH names' _ _ Hrest). cbn [combine map fst snd console_log console dirs files].
    rewrite <- !app_assoc. reflexivity.
Qed.

Lemma translation_source_names_error row e :
  translation_source_names row = inl e -> exists msg, e = TypeError msg.
Proof.
  unfold translation_source_names, member.
  destruct (ts_language row); simpl; try (intros H; inversion H; eauto; fail);
    destruct (ts_source row); simpl; intros H; inversion H; eauto.
Qed.

Lemma translation_source_names_unloaded row :
  unloaded (ts_language row) \/ unloaded (ts_source row) ->
  exists e, translation_source_names row = inl e.
Proof.
  unfold translation_source_names, unloaded. intros [[H|H]|[H|H]].
  - rewrite H. simpl. eauto.
  - rewrite H. simpl. eauto.
  - destruct (ts_language row); rewrite H; simpl; eauto.
  - destruct (ts_language row); rewrite H; simpl; eauto.
Qed.

Lemma compile_translation_sources_unloaded rows :
  Exists (fun row => unloaded (ts_language row) \/ unloaded (ts_source row)) rows ->
  forall w done,
  exists w' msg,
    compile_translation_sources rows w done = (w', inl (TypeError msg))
    /\ dirs w' = dirs w /\ files w' = files w.
Proof.
  induction 1 as [row rows Hrow|row rows _ IH]; intros w done;
    cbn [compile_translation_sources].
  - destruct (translation_source_names_unloaded row Hrow) as [e He]. rewrite He.
    destruct (translation_source_names_error row e He) as [msg ->].
    exists w, msg. auto.
  - destruct (translation_source_names row) as [e|names] eqn:E.
    + destruct (translation_source_names_error row e E) as [msg ->].
      exists w, msg. auto.
    + destruct (IH (console_log (fst (compiling_translation_source row names))
                      (snd (compiling_translation_source row names)) w)
                   (done ++ [compiled_translation_source row names])%list)
        as (w' & msg & Hrun & Hd & Hf).
      exists w', msg. auto.
Qed.

(** X13.  When every translation source has its language and its source
    loaded, [processTranslationSources] writes the heading, one message per
    row and the "Saved" message, and saves one file holding one object per
    row, in the order the query returned the rows: the rows are not
    sorted.  The object of a row has the name of the language under
    [language] and the name of the source under [source], and the other
    columns of the row as they are. *)
Theorem translation_sources_in_retrieval_order
  (rows : list translation_source_row) (names : list (Value * Value)) (w : World) :
  keeps_indices snakeCase ->
  (N.of_nat (List.length rows) <= 4294967295)%N ->
  mapM translation_source_names rows = inr names ->
  let compiled :=
    map (fun rn => compiled_translation_source (fst rn) (snd rn)) (combine rows names) in
  processTranslationSources snakeCase rows w
  = (mkWorld
       (console w
        ++ [(Subheader, (newline ++ "Processing translation sources")%string)]
        ++ map (fun rn => compiling_translation_source (fst rn) (snd rn)) (combine rows names)
        ++ [(Success, "Saved ./data.tmp/translation_sources.json")])
       (dirs w)
       (files w
        ++ [("./data.tmp/translation_sources.json",
             JSON_tree (Arr (map (deep_value snakeCase) compiled)))]),
     None)
  /\ List.length compiled = List.length rows
  /\ (forall row nm,
        NoDup (keys (ts_rest row)) ->
        get "language" (ownProps (compiled_translation_source row nm)) = fst nm
        /\ get "source" (ownProps (compiled_translation_source row nm)) = snd nm
        /\ forall k, k <> "language" -> k <> "source" ->
             get k (ownProps (compiled_translation_source row nm)) = get k (ts_rest row)).
Proof.
  intros Hkeep Hlen Hnames compiled.
  pose proof (mapM_length _ _ _ Hnames) as Hn.
  assert (Hc : List.length compiled = List.length rows).
  { unfold compiled. rewrite length_map, length_combine. lia. }
  split; [|split; [exact Hc|]].
  - unfold processTranslationSources.
    rewrite (compile_translation_sources_loaded rows names _ _ Hnames).
    cbn [app]. fold compiled.
    rewrite snakeCaseKeys_Arr, (convert_items_values snakeCase compiled 0 [] Hkeep);
      [|lia|intros k []].
    unfold saveData, writeJSON, console_log. cbn [default truthy console dirs files].
    rewrite <- !app_assoc. reflexivity.
  - intros row nm Hnd. unfold compiled_translation_source. cbn [ownProps].
    split; [|split].
    + now rewrite get_set, String.eqb_refl.
    + rewrite !get_set. now rewrite String.eqb_refl.
    + intros k Hk1 Hk2. rewrite !get_set.
      destruct (String.eqb_spec "language" k); [congruence|].
      destruct (String.eqb_spec "source" k); [congruence|].
      now apply get_spread_new.
Qed.

(** X14.  A translation source whose language or source was not loaded
    makes [processTranslationSources] fail with a [TypeError]: no file is
    saved and no directory is made, also for the rows that were taken apart
    before it. *)
Theorem unloaded_translation_source_aborts
  (rows : list translation_source_row) (w : World) :
  Exists (fun row => unloaded (ts_language row) \/ unloaded (ts_source row)) rows ->
  exists msg,
    snd (processTranslationSources snakeCase rows w) = Some (TypeError msg)
    /\ files (fst (processTranslationSources snakeCase rows w)) = files w
    /\ dirs (fst (processTranslationSources snakeCase rows w)) = dirs w.
Proof.
  intros H. unfold processTranslationSources.
  destruct (compile_translation_sources_unloaded rows H
              (console_log Subheader (newline ++ "Processing translation sources") w) [])
    as (w' & msg & -> & Hd & Hf).
  exists msg. cbn [fst snd]. rewrite Hd, Hf. auto.
Qed.

End TranslationSourcesFacts.

(** ** processSimpleTables *)

Section SimpleTablesFacts.
Import JS BuildJson.

Lemma getTable_sorted (db : Database) name :
  StronglySorted (fun a b => (row_id a <= row_id b)%Z) (getTable db name).
Proof.
  apply sort_by_sorted.
  - intros a b H. now apply Z.leb_le.
  - intros a b H. apply Z.leb_gt in H. lia.
  - intros a b c. lia.
Qed.

(** X15.  [processSimpleTables] writes the four headings first and hands
    four files to the writer, [writers], [languages], [line_types] and
    [publications], in this order; the file of a table holds the rows of
    the table without their ids, in ascending order of the ids.  When the
    ids of a table are distinct the files do not depend on the order in
    which the table stores its rows. *)
Theorem simple_tables_by_id (db db' : Database) (w : World) :
  (forall name, In name simpleTables ->
     Permutation (db name) (db' name) /\ NoDup (map row_id (db name))) ->
  files (processSimpleTables db w)
  = (files w
     ++ map (fun name =>
               ((TMP_DIR ++ "/" ++ name ++ ".json")%string,
                JSON_tree (Arr (map (fun row => Obj (row_data row)) (getTable db name)))))
            simpleTables)%list
  /\ (exists saved,
        console (processSimpleTables db w)
        = (console w
           ++ map (fun name => (Subheader, ("Processing " ++ name)%string)) simpleTables
           ++ saved)%list
        /\ Permutation saved
             (map (fun name => (Success, ("Saved " ++ TMP_DIR ++ "/" ++ name ++ ".json")%string))
                  simpleTables))
  /\ (forall name,
        StronglySorted (fun a b => (row_id a <= row_id b)%Z) (getTable db name)
        /\ Permutation (getTable db name) (db name))
  /\ files (processSimpleTables db w) = files (processSimpleTables db' w).
Proof.
  intros Hkeyed.
  assert (Hfiles : forall d : Database,
            files (processSimpleTables d w)
            = (files w
               ++ map (fun name =>
                         ((TMP_DIR ++ "/" ++ name ++ ".json")%string,
                          JSON_tree (Arr (map (fun row => Obj (row_data row))
                                            (getTable d name)))))
                      simpleTables)%list).
  { intros d. unfold processSimpleTables, simpleTables, saveData, writeJSON, console_log.
    cbn [map fold_left fst snd default truthy files console dirs].
    rewrite <- !app_assoc. reflexivity. }
  split; [apply Hfiles|]. split; [|split].
  - eexists. split; [|reflexivity].
    unfold processSimpleTables, simpleTables, saveData, writeJSON, console_log.
    cbn [map fold_left fst snd default truthy files console dirs].
    rewrite <- !app_assoc. reflexivity.
  - intros name. split; [apply getTable_sorted | apply sort_by_perm].
  - rewrite !Hfiles. f_equal. apply map_ext_in. intros name Hin.
    destruct (Hkeyed name Hin) as [Hperm Hnd]. unfold getTable.
    now rewrite (sort_by_key_unique row_id _ _ Hperm Hnd).
Qed.

End SimpleTablesFacts.

(** ** The further properties on the sample data *)

Section FurtherSamples.
Import JS Search BuildJson Examples.

(** X1 at the search of the specification's scenario. *)
Lemma returned_rows_are_the_ranked_classes_witness :
  one_word "gurmukhi" = true
  /\ exists ranked,
      execute Ascii.eqb (genericSearch (fun s => s) query "siq" "gurmukhi" (Bool true))
        [Search.line "hir siq nwmu"; Search.line "siqguru"; Search.line "siq"; Search.line "gur"] = Some ranked
      /\ (forall r, In r ranked <->
            In r [Search.line "hir siq nwmu"; Search.line "siqguru"; Search.line "siq"; Search.line "gur"]
            /\ (match_class Ascii.eqb "siq" (r "gurmukhi") < 3)%N).
Proof.
  split; [reflexivity|].
  destruct (returned_rows_are_the_ranked_classes (fun s => s) Ascii.eqb "siq" "gurmukhi"
              [Search.line "hir siq nwmu"; Search.line "siqguru"; Search.line "siq"; Search.line "gur"] eq_refl)
    as (ranked & H1 & H2 & _).
  exists ranked. split; assumption.
Defined.

(** X2 at a text that starts with the term. *)
Lemma literal_term_classes_witness :
  wildcard_free "siq" = true
  /\ match_class Ascii.eqb "siq" "siqguru" = spec_class "siq" "siqguru".
Proof.
  split; [reflexivity|]. exact (literal_term_classes "siq" "siqguru" eq_refl).
Defined.

Lemma gapless_keyed : bani_keyed gapless 1.
Proof.
  unfold bani_keyed, gapless. cbn.
  split; repeat (constructor; [simpl; intuition discriminate|]); constructor.
Qed.

Lemma two_groups_keyed : bani_keyed two_groups 1.
Proof.
  unfold bani_keyed, two_groups. cbn.
  split; repeat (constructor; [simpl; intuition discriminate|]); constructor.
Qed.

(** X5 at a bani of two line groups, the group listed second holding the
    lines that come first; the engine takes the last row of a group. *)
Lemma bani_ranges_from_keyed_tables_witness :
  bani_keyed two_groups 1
  /\ NoDup (map order_id (bani_lines_ordered two_groups 1))
  /\ exists groups,
      NoDup groups
      /\ (forall g, In g groups <-> In g (map line_group (bani_lines_ordered two_groups 1)))
      /\ Forall2 (boundary_range (bani_lines_ordered two_groups 1)) groups
           (bani_line_ranges pick_last (bani_lines_ordered two_groups 1)).
Proof.
  split; [exact two_groups_keyed|].
  destruct (bani_ranges_from_keyed_tables pick_last two_groups 1 pick_last_In two_groups_keyed)
    as (H1 & _ & _ & H4).
  split; assumption.
Defined.

(** The ranges of that bani, as the engine of the build lists them: by
    ascending line group. *)
Remark ranges_listed_by_line_group :
  map line_group (bani_lines_ordered two_groups 1) = [2; 2; 1; 1]%Z
  /\ bani_line_ranges pick_last (bani_lines_ordered two_groups 1)
     = [(108, 109); (105, 106)]%Z.
Proof. split; reflexivity. Qed.

Lemma gapless_columns : forall b, In b (banis gapless) -> NoDup (keys (bani_data b)).
Proof.
  intros b [<-|[]]. cbn. constructor; [intros []|constructor].
Qed.

(** X6 at the bani of five lines. *)
Lemma bani_columns_are_kept_witness :
  (forall b, In b (banis gapless) -> NoDup (keys (bani_data b)))
  /\ forall b, In b (getTable_banis gapless) ->
       forall k, k <> "lines" ->
         get k (ownProps (compiled_bani pick_last gapless b)) = get k (bani_data b).
Proof.
  split; [exact gapless_columns|].
  intros b Hb.
  exact (proj1 (proj2 (proj2 (proj2
           (bani_columns_are_kept pick_last gapless start gapless_columns))) b Hb)).
Defined.

Lemma gapless_same_tables : same_tables gapless gapless_stored_again.
Proof.
  unfold same_tables, gapless, gapless_stored_again, five_lines. cbn.
  split; [reflexivity|].
  split; apply (Permutation_rev
                  [_; _; _; _; _]).
Qed.

Lemma gapless_banis_keyed :
  NoDup (map baniId (banis gapless))
  /\ forall b, In b (banis gapless) -> bani_keyed gapless (baniId b).
Proof.
  split.
  - cbn. constructor; [intros []|constructor].
  - intros b [<-|[]]. exact gapless_keyed.
Qed.

(** X7 at the bani of five lines, its tables stored in two orders. *)
Lemma banis_independent_of_storage_order_witness :
  same_tables gapless gapless_stored_again
  /\ processBanis pick_last gapless start = processBanis pick_last gapless_stored_again start.
Proof.
  split; [exact gapless_same_tables|].
  exact (banis_independent_of_storage_order pick_last gapless gapless_stored_again start
           gapless_same_tables (proj1 gapless_banis_keyed) (proj2 gapless_banis_keyed)).
Defined.

Lemma digits_kept fuel : forall n acc,
  snake acc = acc -> snake (digits fuel n acc) = digits fuel n acc.
Proof.
  induction fuel as [|fuel IH]; intros n acc Hacc; [exact Hacc|].
  cbn [digits].
  assert (Hd : snake (String (digitChar (n mod 10)) acc) = String (digitChar (n mod 10)) acc).
  { cbn [snake]. unfold digitChar.
    assert (Hlt : (n mod 10 < 10)%N) by (apply N.mod_lt; discriminate).
    rewrite N_ascii_embedding by lia.
    destruct (N.leb_spec 65 (48 + n mod 10)); [lia|]. cbn [andb]. now rewrite Hacc. }
  destruct (n <? 10)%N; [exact Hd | now apply IH].
Qed.

Lemma snake_keeps_indices : keeps_indices snake.
Proof. intros i. unfold N_toString. now apply digits_kept. Qed.

(** C6 at a hierarchy retrieved in two orders. *)
Lemma sources_independent_of_retrieval_order_witness :
  sources_keyed retrieval_one
  /\ PermutationA same_source retrieval_one retrieval_two
  /\ processSources snake retrieval_one start = processSources snake retrieval_two start
  /\ files (processSources snake retrieval_one start)
     = [("./data.tmp/sources.json",
         Arr [Obj [("name_english", Str "Sri Guru Granth Sahib Ji");
                   ("sections",
                    Arr [Obj [("name_english", Str "Jap");
                              ("subsections", Arr [Obj [("name_english", Str "Pauri")];
                                                   Obj [("name_english", Str "Salok")]])];
                         Obj [("name_english", Str "So Dar"); ("subsections", Arr [])]])];
              Obj [("name_english", Str "Sri Dasam Granth"); ("sections", Arr [])]])].
Proof.
  split; [exact retrieval_one_keyed|]. split; [exact retrievals_same|].
  split.
  - exact (proj1 (sources_independent_of_retrieval_order snake retrieval_one retrieval_two
                    start retrieval_one_keyed retrievals_same)).
  - rewrite (proj1 (proj2 (proj2 (proj2 (proj2 (proj2 (proj2 (proj2
               (sources_independent_of_retrieval_order snake retrieval_one retrieval_two
                  start retrieval_one_keyed retrievals_same))))))))).
    reflexivity.
Defined.

(** X8 at the hierarchy of two sources. *)
Lemma flatten_returns_the_array_witness :
  keeps_indices snake
  /\ values (snakeCaseKeys snake (Arr (map compile_source retrieval_one)))
     = map (deep_value snake) (map compile_source retrieval_one)
  /\ files (processSources snake retrieval_two start)
     = [("./data.tmp/sources.json",
         JSON_tree
           (Arr (map (fun s => deep_value snake (compile_source s))
                   (Array_sort (fun a b => source_id a - source_id b)%Z retrieval_two))))].
Proof.
  split; [exact snake_keeps_indices|].
  assert (H2 : (N.of_nat 2 <= 4294967295)%N) by (cbn; lia).
  exact (flatten_returns_the_array snake (map compile_source retrieval_one) retrieval_two start
           snake_keeps_indices H2 H2).
Defined.

Lemma one_name_twice_compiles :
  foldM (compile_source_shabads snake) one_name_twice [] = inr one_name_twice_compiled.
Proof. reflexivity. Qed.

(** X9 at two sources of one name. *)
Lemma sources_are_filed_by_name_witness :
  foldM (compile_source_shabads snake) one_name_twice [] = inr one_name_twice_compiled
  /\ NoDup (keys one_name_twice_compiled)
  /\ (forall n, In n (keys one_name_twice_compiled)
                <-> In n ["Sri Guru Granth Sahib Ji"; "Sri Guru Granth Sahib Ji"])
  /\ (forall n, get n one_name_twice_compiled
                = last_source (compile_shabad snake) n one_name_twice Undefined).
Proof.
  split; [exact one_name_twice_compiles|].
  destruct (sources_are_filed_by_name snake one_name_twice one_name_twice_compiled
              one_name_twice_compiles) as (H1 & H2 & H3 & _).
  repeat split; try assumption; apply H2.
Defined.

(** X10 at a source with shabads on pages 3, 42 and 3. *)
Lemma page_labels_read_back_witness :
  Forall2 on_page pages_3_42 [3; 42; 3]%N
  /\ exists pages,
      groupBy pages_3_42 = inr pages
      /\ NoDup (map (page_label pages) (keys pages)).
Proof.
  split; [exact pages_3_42_on_page|].
  destruct (page_labels_read_back pages_3_42 [3; 42; 3]%N pages_3_42_on_page)
    as (pages & H1 & _ & H3).
  exists pages. split; assumption.
Defined.

(** X11 at a source with shabads that start on the pages 3, 42 and 3 and
    end on the pages 4, 43 and 42. *)
Lemma shabads_keep_their_order_on_a_page_witness :
  Forall2 starts_on_page pages_run_on [3; 42; 3]%N
  /\ exists view,
      groupBy pages_run_on = inr (render_pages view)
      /\ StronglySorted N.lt (map fst view)
      /\ Forall (fun pg => snd pg
                           = on_page_shabads (fst pg) (combine pages_run_on [3; 42; 3]%N)) view
      /\ Forall (fun pg => Forall (fun s => starts_on_page s (fst pg)) (snd pg)) view.
Proof.
  split; [exact pages_run_on_start|].
  destruct (shabads_keep_their_order_on_a_page pages_run_on [3; 42; 3]%N
              "Sri Guru Granth Sahib Ji" start pages_run_on_start)
    as (view & H1 & H2 & _ & H4 & H5 & _).
  exists view. repeat split; assumption.
Defined.

Lemma without_writer_unloaded :
  Exists (fun source => Exists shabad_unloaded (shabads source))
    [mkSourceInput [without_writer] (Str "Sri Guru Granth Sahib Ji")].
Proof.
  apply Exists_cons_hd. apply Exists_cons_hd. left. right. reflexivity.
Qed.

(** X12 at a source whose only shabad has no writer. *)
Lemma unloaded_relation_aborts_witness :
  Exists (fun source => Exists shabad_unloaded (shabads source))
    [mkSourceInput [without_writer] (Str "Sri Guru Granth Sahib Ji")]
  /\ exists e,
      processLines snake [mkSourceInput [without_writer] (Str "Sri Guru Granth Sahib Ji")] start
      = (console_log Subheader (newline ++ "Processing lines") start, Some e).
Proof.
  split; [exact without_writer_unloaded|].
  exact (proj2 (unloaded_relation_aborts snake)
           [mkSourceInput [without_writer] (Str "Sri Guru Granth Sahib Ji")] start
           without_writer_unloaded).
Defined.

(** X17 at a line with two publications and no translation. *)
Lemma line_without_translations_witness :
  line_translations (line_of 2 42 []) = []
  /\ exists emitted,
      compile_line snake (line_of 2 42 []) = inr (Obj emitted)
      /\ get "translations" emitted = PromiseOf (Obj [])
      /\ get "translations" (ownProps (JSON_tree (Obj emitted))) = Obj [].
Proof.
  split; [reflexivity|].
  destruct (line_without_translations snake (line_of 2 42 []) ["SttM"; "SGPC"] eq_refl eq_refl)
    as (emitted & H1 & H2 & H3 & _).
  exists emitted. repeat split; assumption.
Defined.

Lemma two_translation_sources_loaded :
  mapM translation_source_names two_translation_sources
  = inr [(Str "Punjabi", Str "Sri Guru Granth Sahib Ji");
         (Str "English", Str "Sri Guru Granth Sahib Ji")].
Proof. reflexivity. Qed.

(** X13 at two translation sources returned by descending id. *)
Lemma translation_sources_in_retrieval_order_witness :
  keeps_indices snake
  /\ files (fst (processTranslationSources snake two_translation_sources start))
     = [("./data.tmp/translation_sources.json",
         Arr [Obj [("name_english", Str "Prof. Sahib Singh");
                   ("source", Str "Sri Guru Granth Sahib Ji"); ("language", Str "Punjabi")];
              Obj [("name_english", Str "Dr. Sant Singh Khalsa");
                   ("source", Str "Sri Guru Granth Sahib Ji"); ("language", Str "English")]])].
Proof.
  split; [exact snake_keeps_indices|].
  assert (H2 : (N.of_nat (List.length two_translation_sources) <= 4294967295)%N)
    by (cbn; lia).
  rewrite (proj1 (translation_sources_in_retrieval_order snake two_translation_sources _ start
                    snake_keeps_indices H2 two_translation_sources_loaded)).
  reflexivity.
Defined.

Lemma without_language_unloaded :
  Exists (fun row => unloaded (ts_language row) \/ unloaded (ts_source row))
    (two_translation_sources ++ [without_language]).
Proof.
  apply Exists_app. right. apply Exists_cons_hd. left. right. reflexivity.
Qed.

(** X14 at two translation sources followed by one without its language. *)
Lemma unloaded_translation_source_aborts_witness :
  Exists (fun row => unloaded (ts_language row) \/ unloaded (ts_source row))
    (two_translation_sources ++ [without_language])
  /\ exists msg,
      snd (processTranslationSources snake (two_translation_sources ++ [without_language]) start)
      = Some (TypeError msg)
      /\ files (fst (processTranslationSources snake
                       (two_translation_sources ++ [without_language]) start)) = [].
Proof.
  split; [exact without_language_unloaded|].
  destruct (unloaded_translation_source_aborts snake
              (two_translation_sources ++ [without_language]) start without_language_unloaded)
    as (msg & H1 & H2 & _).
  exists msg. split; assumption.
Defined.

Lemma stored_keyed : forall table, In table simpleTables ->
  Permutation (stored table) (stored_again table) /\ NoDup (map row_id (stored table)).
Proof.
  intros table Hin. unfold simpleTables in Hin.
  repeat (destruct Hin as [<-|Hin]); try contradiction; cbn; split;
    try apply perm_swap; try reflexivity;
    repeat (constructor; [simpl; intuition discriminate|]); constructor.
Qed.

(** X15 at a database stored in two orders. *)
Lemma simple_tables_by_id_witness :
  (forall table, In table simpleTables ->
     Permutation (stored table) (stored_again table) /\ NoDup (map row_id (stored table)))
  /\ files (processSimpleTables stored start) = files (processSimpleTables stored_again start).
Proof.
  split; [exact stored_keyed|].
  exact (proj2 (proj2 (proj2 (simple_tables_by_id stored stored_again start stored_keyed)))).
Defined.

End FurtherSamples.

(** ** What processLines leaves on the disk *)

Section LinesWritten.
Import JS BuildJson.
Variable snakeCase : string -> string.





End LinesWritten.

Section WrittenSamples.
Import JS BuildJson Examples.



(** [_] stands for one character of the text, of however many bytes. *)
Remark underscore_takes_one_character :
  Search.like Ascii.eqb "a_b" ("a" ++ florin ++ "b") = true
  /\ Search.like Ascii.eqb "a_b" "ab" = false
  /\ Search.like Ascii.eqb "a__b" ("a" ++ florin ++ "b") = false.
Proof. repeat split; reflexivity. Qed.

(** The heads of the shabads of a source are made before any line is
    compiled: a shabad without its writer rejects the source before the
    translation of a shabad before it is decoded. *)
Remark head_error_is_met_first :
  compile_shabad snake (shabad_of 1 Null [broken_line 1 1 "Dr. Sant Singh Khalsa"])
  = inl (SyntaxError "{")
  /\ exists msg, snd (processLines snake malformed_then_unloaded start) = Some (TypeError msg).
Proof. split; [reflexivity | eexists; reflexivity]. Qed.

End WrittenSamples.
